(** * Reward computation engine of the secondary-issuance scripts

    A shallow embedding of the JavaScript reward scripts (header codec,
    occupied capacity, per-block secondary issuance, unclaimed DAO rewards,
    checkpointed miner-reward aggregation, settlement scan) together with
    the properties stated about them.

    Conventions of the embedding:
    - a JavaScript [BigInt] is a [Z]; BigInt [/] and [%] truncate toward
      zero ([Z.quot], [Z.rem]) and throw [RangeError] on a zero divisor;
    - a JavaScript string is a [string] (a sequence of code units below 256,
      which covers every hexadecimal field returned by the node);
    - a [Buffer] is a [list Z] of bytes;
    - a thrown exception or [process.exit(1)] is the [Err] case of [result];
    - a [Number] holding an integer is a [Z]; [Number(n)] rounds a BigInt
      to the nearest double, and [Infinity] and [-Infinity] are written
      [2^1024] and [-2^1024], integers that no double holds;
    - a [Map] keyed by strings is a [gmap string _], a [Set] a [gset string]. *)

From Stdlib Require Import ZArith String Ascii List Lia HexString.
From stdpp Require Import gmap strings list.

Local Open Scope Z_scope.

(** ** JavaScript runtime layer *)

Module JS.

Inductive error : Type :=
  | Thrown (msg : string)   (* throw new Error(msg) *)
  | TypeError               (* property of undefined/null, BigInt(undefined) *)
  | RangeError              (* BigInt division by zero, Buffer read out of range *)
  | SyntaxError             (* BigInt("not a number") *)
  | RpcFailure              (* rpc() rethrows after its last attempt *)
  | Exit (code : Z).        (* process.exit(code) *)

Inductive result (A : Type) : Type :=
  | Ok (a : A)
  | Err (e : error).
Arguments Ok {A} a.
Arguments Err {A} e.

Definition bind {A B} (r : result A) (k : A -> result B) : result B :=
  match r with
  | Ok a => k a
  | Err e => Err e
  end.

Definition is_ok {A} (r : result A) : bool :=
  match r with Ok _ => true | Err _ => false end.

Definition code (c : ascii) : Z := Z.of_N (N_of_ascii c).

(** Value of one hexadecimal digit, as Node's hex decoder reads it. *)
Definition unhex (c : ascii) : option Z :=
  let n := code c in
  if (48 <=? n) && (n <=? 57) then Some (n - 48)
  else if (97 <=? n) && (n <=? 102) then Some (n - 87)
  else if (65 <=? n) && (n <=? 70) then Some (n - 55)
  else None.

(** [Buffer.from(s, 'hex')]: two digits per byte, decoding stops at the first
    pair that is not hexadecimal; a trailing odd digit is dropped. *)
Fixpoint Buffer_from_hex (s : string) : list Z :=
  match s with
  | String a (String b rest) =>
      match unhex a, unhex b with
      | Some x, Some y => (16 * x + y) :: Buffer_from_hex rest
      | _, _ => []
      end
  | _ => []
  end.

(** Little-endian value of a byte sequence. *)
Fixpoint le_value (bs : list Z) : Z :=
  match bs with
  | [] => 0
  | b :: rest => b + 256 * le_value rest
  end.

(** [buf.readBigUInt64LE(offset)]: throws when [offset + 8] exceeds the
    buffer. *)
Definition readBigUInt64LE (buf : list Z) (offset : nat) : result Z :=
  let bs := firstn 8 (skipn offset buf) in
  if Nat.eqb (length bs) 8 then Ok (le_value bs) else Err RangeError.

(** [s.slice(n)] and [s.slice(a, b)] for [0 <= a <= b]. *)
Fixpoint slice_from (n : nat) (s : string) : string :=
  match n, s with
  | O, _ => s
  | S n', String _ rest => slice_from n' rest
  | S _, EmptyString => EmptyString
  end.

Definition slice (a b : nat) (s : string) : string :=
  String.substring a (b - a) s.

Definition startsWith (p s : string) : bool := String.prefix p s.

(** BigInt division. *)
Definition bigint_div (a b : Z) : result Z :=
  if b =? 0 then Err RangeError else Ok (Z.quot a b).

(** [BigInt(s)] on a string: optional surrounding white space, then either an
    empty literal (0), a [0x]/[0o]/[0b] literal without sign, or an
    optionally signed decimal literal. *)
Definition is_ws (c : ascii) : bool :=
  let n := code c in
  ((9 <=? n) && (n <=? 13)) || (n =? 32) || (n =? 160).

Fixpoint trim_start (s : string) : string :=
  match s with
  | String c rest => if is_ws c then trim_start rest else s
  | EmptyString => EmptyString
  end.

Definition rev_string (s : string) : string :=
  string_of_list_ascii (rev (list_ascii_of_string s)).

Definition trim (s : string) : string :=
  rev_string (trim_start (rev_string (trim_start s))).

Definition digit_val (base : Z) (c : ascii) : option Z :=
  match unhex c with
  | Some d => if d <? base then Some d else None
  | None => None
  end.

Fixpoint parse_digits (base : Z) (s : string) (acc : Z) : option Z :=
  match s with
  | EmptyString => Some acc
  | String c rest =>
      match digit_val base c with
      | Some d => parse_digits base rest (base * acc + d)
      | None => None
      end
  end.

Definition parse_literal (base : Z) (s : string) : option Z :=
  match s with
  | EmptyString => None
  | _ => parse_digits base s 0
  end.

Definition StringToBigInt (s : string) : option Z :=
  let t := trim s in
  match t with
  | EmptyString => Some 0
  | String "0" (String "x" rest) | String "0" (String "X" rest) =>
      parse_literal 16 rest
  | String "0" (String "o" rest) | String "0" (String "O" rest) =>
      parse_literal 8 rest
  | String "0" (String "b" rest) | String "0" (String "B" rest) =>
      parse_literal 2 rest
  | String "+" rest => parse_literal 10 rest
  | String "-" rest => option_map Z.opp (parse_literal 10 rest)
  | _ => parse_literal 10 t
  end.

Definition BigInt (s : string) : result Z :=
  match StringToBigInt s with
  | Some z => Ok z
  | None => Err SyntaxError
  end.

(** ['0x' + n.toString(16)] for a non-negative BigInt. *)
Definition toHex (n : Z) : string := HexString.of_Z n.

(** [Infinity], as a value that no double holds. *)
Definition INFINITY : Z := 2 ^ 1024.

(** [Number(n)] for a BigInt [n]: the double nearest to [n]. An integer of
    at most 53 bits is kept; a longer one keeps its 53 leading bits, rounded
    to nearest with ties to the even significand; what rounds to [2^1024] or
    beyond is [Infinity]. *)
Definition Number (n : Z) : Z :=
  let a := Z.abs n in
  let bits := Z.log2 a + 1 in
  if bits <=? 53 then n
  else
    let sh := bits - 53 in
    let q := Z.shiftr a sh in
    let r := Z.land a (Z.ones sh) in
    let half := Z.shiftl 1 (sh - 1) in
    let q' := if (half <? r) || ((r =? half) && Z.odd q) then q + 1 else q in
    Z.sgn n * Z.min (Z.shiftl q' sh) INFINITY.

(** [Number.isFinite(x)] for a Number [x] that is an integer or infinite. *)
Definition isFinite (x : Z) : bool := Z.abs x <? INFINITY.

(** [BigInt(x)] for such a Number: [RangeError] on [Infinity]. *)
Definition BigInt_of_Number (x : Z) : result Z :=
  if isFinite x then Ok x else Err RangeError.

End JS.

Import JS.

#[global] Instance result_bind : MBind result :=
  fun A B k r => JS.bind r k.
#[global] Instance result_ret : MRet result := @JS.Ok.

(** ** Headers as returned by [get_header_by_number] *)

Record header : Type := {
  dao : string;       (* 0x-prefixed 32-byte accounting field *)
  epoch : string;     (* 0x-prefixed packed epoch *)
  timestamp : string; (* 0x-prefixed milliseconds *)
}.

(** [h.dao], [h.epoch], ... on a header that may be [null]. *)
Definition field {A B} (f : A -> B) (o : option A) : result B :=
  match o with
  | Some a => Ok (f a)
  | None => Err TypeError
  end.

(** ** Secondary issuance paid to miners (streamed header scan) *)

Module MinerSecondary.

Definition SECONDARY_EPOCH_REWARD : Z := 61369863013698.

(** [x |= BigInt(buf[i]) << (8n * BigInt(i))] for [i] from [i] on, [n]
    iterations; [buf[i]] undefined makes [BigInt] throw. *)
Fixpoint u64le_loop (buf : list Z) (i n : nat) (x : Z) : result Z :=
  match n with
  | O => Ok x
  | S n' =>
      match nth_error buf i with
      | Some b => u64le_loop buf (S i) n' (Z.lor x (Z.shiftl b (8 * Z.of_nat i)))
      | None => Err TypeError
      end
  end.

Definition u64leFromHex16 (hex16 : string) : result Z :=
  u64le_loop (Buffer_from_hex hex16) 0 8 0.

Record dao_CU : Type := { C : Z; U : Z }.

Definition parseDao (daoHex : string) : result dao_CU :=
  let h := if startsWith "0x" daoHex then slice_from 2 daoHex else daoHex in
  if negb (Nat.eqb (String.length h) 64)
  then Err (Thrown "dao field must be 32 bytes")
  else
    let seg (i : nat) := slice (i * 16) ((i + 1) * 16) h in
    c ← u64leFromHex16 (seg 0%nat);
    u ← u64leFromHex16 (seg 3%nat);
    Ok {| C := c; U := u |}.

Record epoch_fields : Type := { number : Z; index : Z; length : Z }.

(** The body of [parseEpochPacked] once [e = BigInt(epochHex)] is known:
    the three fields are Numbers. *)
Definition unpackEpoch (e : Z) : epoch_fields :=
  {| number := Number (Z.land e 16777215);
     index := Number (Z.land (Z.shiftr e 24) 65535);
     length := Number (Z.shiftr e 40) |}.

Definition parseEpochPacked (epochHex : string) : result epoch_fields :=
  e ← BigInt epochHex;
  Ok (unpackEpoch e).

Definition perBlockSecondary (epochLength epochIndex : Z) : result Z :=
  let L := epochLength in
  if L =? 0 then Err RangeError
  else
    let q := Z.quot SECONDARY_EPOCH_REWARD L in
    let m := Z.rem SECONDARY_EPOCH_REWARD L in
    let idx := epochIndex in
    Ok (if idx <? m then q + 1 else q).

End MinerSecondary.

(** The scan of [main]: headers are fetched window by window, then folded in
    height order with the previous header carried along. *)
Module MinerSecondaryScan.
Import MinerSecondary.

Section Main.

(** [rpc("get_header_by_number", ...)]: the call throws, or answers a header
    or [null]. *)
Variable getHeaderByNumber : Z -> result (option header).
Variables CONCURRENCY WINDOW_MULT : Z.

Definition windowSize : Z := Z.max 1 (CONCURRENCY * WINDOW_MULT).

(** [out[n - winFrom] = await getHeaderByNumber(n)] for every [n] of the
    window; with no worker at all every slot stays [undefined]. When several
    fetches fail, which error surfaces first depends on timing; the model
    reports the one at the lowest height. *)
Fixpoint fetch_window (winFrom : Z) (count : nat) : result (list (option header)) :=
  match count with
  | O => Ok []
  | S count' =>
      h ← getHeaderByNumber winFrom;
      rest ← fetch_window (winFrom + 1) count';
      Ok (h :: rest)
  end.

Definition run_workers (winFrom : Z) (count : nat) : result (list (option header)) :=
  if CONCURRENCY <? 1 then Ok (replicate count None)
  else fetch_window winFrom count.

Record scan_state : Type := {
  prevHeader : option header;
  totalMinerSecondary : Z;
}.

(** One iteration of [for (let k = 0; k < out.length; k++)]; the value of
    [miner_i] is returned next to the new state. Past the guard [ep.length]
    is a finite integer, which [BigInt(epochLength)] reads as it is. *)
Definition block_step (st : scan_state) (curHeader : option header)
  : result (Z * scan_state) :=
  prevDao ← field dao (prevHeader st);
  cu ← parseDao prevDao;
  curEpoch ← field epoch curHeader;
  ep ← parseEpochPacked curEpoch;
  if negb (isFinite (length ep)) || (length ep <=? 0) then Err (Exit 1)
  else
    s_i ← perBlockSecondary (length ep) (index ep);
    miner_i ← bigint_div (s_i * U cu) (C cu);
    Ok (miner_i,
        {| prevHeader := curHeader;
           totalMinerSecondary := totalMinerSecondary st + miner_i |}).

Fixpoint window_loop (out : list (option header)) (st : scan_state)
  : result scan_state :=
  match out with
  | [] => Ok st
  | curHeader :: rest =>
      '(_, st') ← block_step st curHeader;
      window_loop rest st'
  end.

(** [while (cur <= end)]; [None] when the fuel runs out first. *)
Fixpoint scan_loop (fuel : nat) (cur end_ : Z) (st : scan_state)
  : option (result scan_state) :=
  if cur <=? end_ then
    match fuel with
    | O => None
    | S fuel' =>
        let winFrom := cur in
        let winTo := Z.min end_ (winFrom + windowSize - 1) in
        let count := winTo - winFrom + 1 in
        match (out ← run_workers winFrom (Z.to_nat count); window_loop out st) with
        | Ok st' => scan_loop fuel' (winTo + 1) end_ st'
        | Err e => Some (Err e)
        end
    end
  else Some (Ok st).

Definition main (fuel : nat) (tipNumber start end_ : Z) : option (result Z) :=
  if start <? 1 then Some (Err (Thrown "START must be >= 1 (needs previous header)"))
  else if tipNumber <? end_ then Some (Err (Thrown "END > tip"))
  else
    match getHeaderByNumber (start - 1) with
    | Err e => Some (Err e)
    | Ok prev =>
        match scan_loop fuel start end_
                {| prevHeader := prev; totalMinerSecondary := 0 |} with
        | None => None
        | Some (Err e) => Some (Err e)
        | Some (Ok st) => Some (Ok (totalMinerSecondary st))
        end
    end.

End Main.
End MinerSecondaryScan.

(** ** Cells as returned by [get_cells] *)

Record script : Type := {
  code_hash : string;
  hash_type : string;
  args : string;
}.

Record cell_output : Type := {
  capacity : string;
  lock : option script;
  type : option script;
}.

Record live_cell : Type := {
  output : cell_output;
  output_data : string;
  block_number : string;
}.

(** [x || '0x'] on a string: the empty string is falsy. *)
Definition or_0x (x : string) : string :=
  if String.eqb x "" then "0x"%string else x.

(** ** Occupied and free capacity (ckb_capacity.js) *)

Module Capacity.

Definition SHANNONS_PER_CKB : Z := 100000000.

Definition hexBytesLen (hex : string) : Z :=
  if String.eqb hex "" || String.eqb hex "0x" then 0
  else
    let s := if startsWith "0x" hex then slice_from 2 hex else hex in
    Z.of_nat (String.length s) / 2.

Definition scriptBytesForOccupied (script : option script) : Z :=
  match script with
  | None => 0
  | Some sc =>
      let argsLen := hexBytesLen (or_0x (args sc)) in
      32 + 1 + argsLen
  end.

Definition occupiedBytes (output : cell_output) (outputDataHex : string) : Z :=
  let dataLen := hexBytesLen outputDataHex in
  let lockBytes := scriptBytesForOccupied (lock output) in
  let typeBytes :=
    match type output with
    | Some t => scriptBytesForOccupied (Some t)
    | None => 0
    end in
  8 + lockBytes + typeBytes + dataLen.

Definition occupiedCapacity (output : cell_output) (outputDataHex : string) : Z :=
  occupiedBytes output outputDataHex * SHANNONS_PER_CKB.

Definition freeCapacity (output : cell_output) (outputDataHex : string) : result Z :=
  cap ← BigInt (capacity output);
  Ok (cap - occupiedCapacity output outputDataHex).

End Capacity.

(** ** The indexer tip

    The answer of [get_indexer_tip], and what [getIndexerARandS] makes of
    it ([heightDec] before it is printed). *)

Module IndexerTip.

Record answer : Type := {
  block_hash : string;
  block_number : string;
}.

Record info : Type := {
  AR : Z;
  S : Z;
  heightHex : string;
  heightDec : Z;
  hash : string;
}.

End IndexerTip.

(** ** Code shared by the DAO scripts

    Each script carries its own textually identical copy of these
    functions. *)

Module Dao.

Definition DEPOSIT_DATA : string := "0x0000000000000000".

Definition parseDaoAR (daoHex : string) : result Z :=
  let buf := Buffer_from_hex (slice_from 2 daoHex) in
  readBigUInt64LE buf 8.

Definition parseDaoS (daoHex : string) : result Z :=
  let buf := Buffer_from_hex (slice_from 2 daoHex) in
  readBigUInt64LE buf 16.

Definition parsePrepareBlockNumberHex (outputData : string) : result string :=
  if String.eqb outputData "" || String.eqb outputData "0x"
  then Err (Thrown "invalid output_data for prepare-withdraw")
  else
    let hex := if startsWith "0x" outputData then slice_from 2 outputData
               else outputData in
    if negb (Nat.eqb (String.length hex) 16)
    then Err (Thrown "prepare output_data must be 8 bytes (16 hex)")
    else
      let buf := Buffer_from_hex hex in
      bn ← readBigUInt64LE buf 0;
      Ok (toHex bn).

(** [(free * AR_k) / AR_i - free] on BigInts. *)
Definition reward_of (free AR_k AR_i : Z) : result Z :=
  q ← bigint_div (free * AR_k) AR_i;
  Ok (q - free).

(** [if (reward > 0n) total += reward]. *)
Definition add_if_positive (total reward : Z) : Z :=
  if 0 <? reward then total + reward else total.

Section Node.

Variable get_header_by_number : string -> result (option header).

(** What a cache miss computes: the accumulated rate of the header at
    [bnHex]. *)
Definition fetchAR (bnHex : string) : result Z :=
  h ← get_header_by_number bnHex;
  d ← field dao h;
  parseDaoAR d.

Definition getARByBlockNumberHex (bnHex : string) (arCache : gmap string Z)
  : result (Z * gmap string Z) :=
  match arCache !! bnHex with
  | Some ar => Ok (ar, arCache)
  | None =>
      ar ← fetchAR bnHex;
      Ok (ar, <[bnHex := ar]> arCache)
  end.

End Node.

Section Tip.

(** [rpc('get_indexer_tip', [])] and [rpc('get_header', [hash])]: the call
    throws, or answers an object or [null]. *)
Variable get_indexer_tip : result (option IndexerTip.answer).
Variable get_header : string -> result (option header).

Definition getIndexerARandS : result IndexerTip.info :=
  tip ← get_indexer_tip;
  tip_hash ← field IndexerTip.block_hash tip;
  header ← get_header tip_hash;
  d ← field dao header;
  ar ← parseDaoAR d;
  s ← parseDaoS d;
  tip_number ← field IndexerTip.block_number tip;
  dec ← BigInt tip_number;
  Ok {| IndexerTip.AR := ar; IndexerTip.S := s;
        IndexerTip.heightHex := tip_number; IndexerTip.heightDec := dec;
        IndexerTip.hash := tip_hash |}.

End Tip.

(** One page of [get_cells]. *)
Record cells_page : Type := {
  objects : option (list live_cell);
  last_cursor : option string;
}.

(** [c && c !== '0x' && c !== '0x0']. *)
Definition cursor_present (c : option string) : bool :=
  match c with
  | Some s => negb (String.eqb s "" || String.eqb s "0x" || String.eqb s "0x0")
  | None => false
  end.

Section LiveCells.

Variable get_cells : option string -> result cells_page.
Context {St : Type}.
(** The body of [for await (const c of getDaoLiveCells())]. *)
Variable body : St -> live_cell -> result St.

Fixpoint for_cells (cells : list live_cell) (st : St) : result St :=
  match cells with
  | [] => Ok st
  | c :: rest => st' ← body st c; for_cells rest st'
  end.

(** The generator and its consumer, page by page; [None] when the fuel runs
    out before the node stops handing out cursors. *)
Fixpoint for_await_cells (fuel : nat) (cursor : option string) (st : St)
  : option (result St) :=
  match fuel with
  | O => None
  | S fuel' =>
      match get_cells (if cursor_present cursor then cursor else None) with
      | Err e => Some (Err e)
      | Ok res =>
          match objects res with
          | None | Some [] => Some (Ok st)
          | Some cells =>
              match for_cells cells st with
              | Err e => Some (Err e)
              | Ok st' =>
                  if cursor_present (last_cursor res)
                  then for_await_cells fuel' (last_cursor res) st'
                  else Some (Ok st')
              end
          end
      end
  end.

End LiveCells.
End Dao.

(** ** Molecule-style cell sizing used by the two treasury-burn scripts

    [hexBytesLen] is [(hex.length - 2) / 2] on Numbers, which is a
    half-integer for a string of odd length. Such Numbers are carried as
    twice their value (suffix [_x2]); [BigInt(n)] throws [RangeError] unless
    [n] is an integer. *)

Module Molecule.

Definition SHANNONS_PER_BYTE : Z := 100000000.

Definition hexBytesLen_x2 (hex : string) : Z :=
  if String.eqb hex "" || String.eqb hex "0x" then 0
  else Z.of_nat (String.length hex) - 2.

Definition scriptSizeBytes_x2 (script : option script) : Z :=
  let argsLen := hexBytesLen_x2 (or_0x (from_option args ""%string script)) in
  2 * (4 + 12 + 32 + 1 + 4) + argsLen.

Definition cellSizeBytes_x2 (output : cell_output) (dataHex : string) : Z :=
  let lockSize := scriptSizeBytes_x2 (lock output) in
  let typeSize :=
    match type output with
    | Some t => 2 * 1 + scriptSizeBytes_x2 (Some t)
    | None => 2 * 1
    end in
  let dataSize := 2 * 4 + hexBytesLen_x2 dataHex in
  2 * 4 + 2 * 8 + lockSize + typeSize + dataSize + 2 * 8.

Definition BigInt_of_x2 (n_x2 : Z) : result Z :=
  if Z.even n_x2 then Ok (n_x2 / 2) else Err RangeError.

Definition occupiedCapacity (output : cell_output) (dataHex : string) : result Z :=
  n ← BigInt_of_x2 (cellSizeBytes_x2 output dataHex);
  Ok (n * SHANNONS_PER_BYTE).

End Molecule.

(** ** Unclaimed rewards, every live DAO cell priced against the tip *)

Module UnclaimedSimple.
Import Dao Molecule.

Record totals : Type := {
  daoDeposit : Z;
  unclaimed : Z;
  arCache : gmap string Z;
}.

Section Main.

Variable get_header_by_number : string -> result (option header).
Variable get_cells : option string -> result cells_page.
(** Accumulated rate of the indexer tip. *)
Variable AR : Z.

Definition body (st : totals) (c : live_cell) : result totals :=
  cap ← BigInt (capacity (output c));
  occ ← occupiedCapacity (output c) (output_data c);
  let free := cap - occ in
  let daoDeposit' := daoDeposit st + cap in
  cache ← match arCache st !! block_number c with
           | Some _ => Ok (arCache st)
           | None =>
               ar ← fetchAR get_header_by_number (block_number c);
               Ok (<[block_number c := ar]> (arCache st))
           end;
  if 0 <? free then
    AR_deposit ← field id (cache !! block_number c);
    reward ← reward_of free AR AR_deposit;
    Ok {| daoDeposit := daoDeposit';
          unclaimed := add_if_positive (unclaimed st) reward;
          arCache := cache |}
  else
    Ok {| daoDeposit := daoDeposit'; unclaimed := unclaimed st; arCache := cache |}.

Definition scan (fuel : nat) : option (result totals) :=
  for_await_cells get_cells body fuel None
    {| daoDeposit := 0; unclaimed := 0; arCache := ∅ |}.

End Main.

(** [main]: the rate of the indexer tip is read first, then the live cells
    are scanned against it. *)
Definition main (get_indexer_tip : result (option IndexerTip.answer))
    (get_header get_header_by_number : string -> result (option header))
    (get_cells : option string -> result cells_page) (fuel : nat)
  : option (result totals) :=
  match getIndexerARandS get_indexer_tip get_header with
  | Err e => Some (Err e)
  | Ok tip => scan get_header_by_number get_cells (IndexerTip.AR tip) fuel
  end.

End UnclaimedSimple.

(** ** Unclaimed rewards, deposit and prepare-withdraw cells apart *)

Module UnclaimedByKind.
Import Dao Molecule.

Record totals : Type := {
  daoDeposit : Z;
  unclaimedDeposit : Z;
  unclaimedPrepare : Z;
  cntDeposit : Z;
  cntPrepare : Z;
  arCache : gmap string Z;
}.

Section Main.

Variable get_header_by_number : string -> result (option header).
Variable get_cells : option string -> result cells_page.
Variable AR : Z.

Definition body (st : totals) (c : live_cell) : result totals :=
  cap ← BigInt (capacity (output c));
  occ ← occupiedCapacity (output c) (output_data c);
  let free := cap - occ in
  let daoDeposit' := daoDeposit st + cap in
  if free <=? 0 then
    (* continue *)
    Ok {| daoDeposit := daoDeposit';
          unclaimedDeposit := unclaimedDeposit st;
          unclaimedPrepare := unclaimedPrepare st;
          cntDeposit := cntDeposit st; cntPrepare := cntPrepare st;
          arCache := arCache st |}
  else if String.eqb (output_data c) DEPOSIT_DATA then
    '(AR_i, cache) ← getARByBlockNumberHex get_header_by_number
                        (block_number c) (arCache st);
    reward ← reward_of free AR AR_i;
    Ok {| daoDeposit := daoDeposit';
          unclaimedDeposit := add_if_positive (unclaimedDeposit st) reward;
          unclaimedPrepare := unclaimedPrepare st;
          cntDeposit := cntDeposit st + 1; cntPrepare := cntPrepare st;
          arCache := cache |}
  else
    depositBnHex ← parsePrepareBlockNumberHex (output_data c);
    '(AR_i, cache1) ← getARByBlockNumberHex get_header_by_number
                         depositBnHex (arCache st);
    '(AR_j, cache2) ← getARByBlockNumberHex get_header_by_number
                         (block_number c) cache1;
    reward ← reward_of free AR_j AR_i;
    Ok {| daoDeposit := daoDeposit';
          unclaimedDeposit := unclaimedDeposit st;
          unclaimedPrepare := add_if_positive (unclaimedPrepare st) reward;
          cntDeposit := cntDeposit st; cntPrepare := cntPrepare st + 1;
          arCache := cache2 |}.

Definition init : totals :=
  {| daoDeposit := 0; unclaimedDeposit := 0; unclaimedPrepare := 0;
     cntDeposit := 0; cntPrepare := 0; arCache := ∅ |}.

Definition scan (fuel : nat) : option (result totals) :=
  for_await_cells get_cells body fuel None init.

End Main.

Definition main (get_indexer_tip : result (option IndexerTip.answer))
    (get_header get_header_by_number : string -> result (option header))
    (get_cells : option string -> result cells_page) (fuel : nat)
  : option (result totals) :=
  match getIndexerARandS get_indexer_tip get_header with
  | Err e => Some (Err e)
  | Ok tip => scan get_header_by_number get_cells (IndexerTip.AR tip) fuel
  end.

End UnclaimedByKind.

(** ** Unclaimed rewards with holder statistics (uses ckb_capacity.js) *)

Module UnclaimedStats.
Import Dao.

Definition lockKey (lock : option script) : string :=
  match lock with
  | None => "null"
  | Some l => code_hash l +:+ "|" +:+ hash_type l +:+ "|" +:+ or_0x (args l)
  end.

Record stats : Type := {
  unclaimedDeposit : Z;
  unclaimedPrepare : Z;
  cntDeposit : Z;
  cntPrepare : Z;
  unclaimedDepositCapacity : Z;
  arCache : gmap string Z;
  tsCache : gmap string Z;
  depositAddrMinTs : gmap string Z;
  depositAddrSet : gset string;
  prepareAddrSet : gset string;
  totalAddrSet : gset string;
}.

Section Main.

Variable get_header_by_number : string -> result (option header).
Variable get_cells : option string -> result cells_page.
Variable AR : Z.

Definition getTimestampByBlockNumberHex (bnHex : string) (tsCache : gmap string Z)
  : result (Z * gmap string Z) :=
  match tsCache !! bnHex with
  | Some ts => Ok (ts, tsCache)
  | None =>
      h ← get_header_by_number bnHex;
      t ← field timestamp h;
      ts ← BigInt t;
      Ok (ts, <[bnHex := ts]> tsCache)
  end.

Definition body (st : stats) (c : live_cell) : result stats :=
  cap ← BigInt (capacity (output c));
  let occ := Capacity.occupiedCapacity (output c) (output_data c) in
  let free := cap - occ in
  let k := lockKey (lock (output c)) in
  if String.eqb (output_data c) DEPOSIT_DATA then
    '(depTs, ts1) ← getTimestampByBlockNumberHex (block_number c) (tsCache st);
    let minTs :=
      match depositAddrMinTs st !! k with
      | Some old => if depTs <? old then <[k := depTs]> (depositAddrMinTs st)
                    else depositAddrMinTs st
      | None => <[k := depTs]> (depositAddrMinTs st)
      end in
    '(AR_i, cache) ← getARByBlockNumberHex get_header_by_number
                        (block_number c) (arCache st);
    reward ← reward_of free AR AR_i;
    Ok {| unclaimedDeposit := add_if_positive (unclaimedDeposit st) reward;
          unclaimedPrepare := unclaimedPrepare st;
          cntDeposit := cntDeposit st + 1; cntPrepare := cntPrepare st;
          unclaimedDepositCapacity := unclaimedDepositCapacity st + cap;
          arCache := cache; tsCache := ts1; depositAddrMinTs := minTs;
          depositAddrSet := {[k]} ∪ depositAddrSet st;
          prepareAddrSet := prepareAddrSet st;
          totalAddrSet := {[k]} ∪ totalAddrSet st |}
  else
    depositBnHex ← parsePrepareBlockNumberHex (output_data c);
    '(AR_i, cache1) ← getARByBlockNumberHex get_header_by_number
                         depositBnHex (arCache st);
    '(AR_j, cache2) ← getARByBlockNumberHex get_header_by_number
                         (block_number c) cache1;
    reward ← reward_of free AR_j AR_i;
    Ok {| unclaimedDeposit := unclaimedDeposit st;
          unclaimedPrepare := add_if_positive (unclaimedPrepare st) reward;
          cntDeposit := cntDeposit st; cntPrepare := cntPrepare st + 1;
          unclaimedDepositCapacity := unclaimedDepositCapacity st;
          arCache := cache2; tsCache := tsCache st;
          depositAddrMinTs := depositAddrMinTs st;
          depositAddrSet := depositAddrSet st;
          prepareAddrSet := {[k]} ∪ prepareAddrSet st;
          totalAddrSet := {[k]} ∪ totalAddrSet st |}.

(** [tipTs] is fetched, and cached, before the scan starts. *)
Definition init (heightHex : string) : result stats :=
  '(_, ts0) ← getTimestampByBlockNumberHex heightHex ∅;
  Ok {| unclaimedDeposit := 0; unclaimedPrepare := 0;
        cntDeposit := 0; cntPrepare := 0; unclaimedDepositCapacity := 0;
        arCache := ∅; tsCache := ts0; depositAddrMinTs := ∅;
        depositAddrSet := ∅; prepareAddrSet := ∅; totalAddrSet := ∅ |}.

Definition scan (fuel : nat) (heightHex : string) : option (result stats) :=
  match init heightHex with
  | Err e => Some (Err e)
  | Ok st0 => for_await_cells get_cells body fuel None st0
  end.

End Main.

Definition main (get_indexer_tip : result (option IndexerTip.answer))
    (get_header get_header_by_number : string -> result (option header))
    (get_cells : option string -> result cells_page) (fuel : nat)
  : option (result stats) :=
  match getIndexerARandS get_indexer_tip get_header with
  | Err e => Some (Err e)
  | Ok tip =>
      scan get_header_by_number get_cells (IndexerTip.AR tip) fuel
        (IndexerTip.heightHex tip)
  end.

End UnclaimedStats.

(** ** Miner reward with checkpoint resume (miner_reward.js) *)

Module MinerReward.

(** The checkpoint file, with its decimal strings already read back as
    BigInts. *)
Record checkpoint : Type := {
  nextHeight : Z;
  sum : Z;
  endHeight : Z;
}.

Section Main.

Variables BATCH_SIZE CHECKPOINT_EVERY_BATCH : Z.

(** [rpcBatch(calls)] for the heights requested: the call throws, or
    answers an array in which the response with [id = i] is at position
    [i]. An entry is [None] when [byId.get(i)] is missing, carries an
    [error], or [extractMinerReward] finds no cellbase output capacity. *)
Variable rpcBatch : list Z -> result (list (option Z)).

(** [for (let i = 0; i < BATCH_SIZE; i++) { h = base + i; if (h >
    endHeight) break; calls.push(...) }], [n] iterations left. *)
Fixpoint build_calls (n : nat) (i base endHeight : Z) : list Z :=
  match n with
  | O => []
  | S n' =>
      let h := base + i in
      if endHeight <? h then []
      else h :: build_calls n' (i + 1) base endHeight
  end.

(** [for (let i = 0; i < actual; i++) { ... if (cap != null) sum += cap }] *)
Fixpoint add_rewards (byId : list (option Z)) (i actual : nat) (sum : Z) : Z :=
  match actual with
  | O => sum
  | S actual' =>
      let sum' :=
        match byId !! i with
        | Some (Some cap) => sum + cap
        | _ => sum
        end in
      add_rewards byId (S i) actual' sum'
  end.

Definition due (batchCount every : Z) : bool :=
  negb (every =? 0) && (Z.rem batchCount every =? 0).

(** The batch loop. The result pairs the checkpoint file as the run leaves
    it with the outcome; [None] when the fuel runs out first. *)
Fixpoint batches (fuel : nat) (base endHeight sum batchCount : Z)
    (file : option checkpoint) : option (option checkpoint * result Z) :=
  if base <=? endHeight then
    match fuel with
    | O => None
    | S fuel' =>
        let calls := build_calls (Z.to_nat BATCH_SIZE) 0 base endHeight in
        let actual := length calls in
        match rpcBatch calls with
        | Err e => Some (file, Err e)
        | Ok results =>
            let sum' := add_rewards results 0 actual sum in
            let batchCount' := batchCount + 1 in
            let scanned := base + Z.of_nat actual in
            let file' :=
              if due batchCount' CHECKPOINT_EVERY_BATCH
              then Some {| nextHeight := scanned; sum := sum';
                           endHeight := endHeight |}
              else file in
            batches fuel' (base + BATCH_SIZE) endHeight sum' batchCount' file'
        end
    end
  else Some (file, Ok sum).

Definition main (fuel : nat) (endHeight : Z) (file : option checkpoint)
  : option (option checkpoint * result Z) :=
  let startHeight := from_option nextHeight 0 file in
  let sum0 := from_option sum 0 file in
  if endHeight <? startHeight then Some (file, Ok sum0)
  else
    match batches fuel startHeight endHeight sum0 0 file with
    | None => None
    | Some (file', Err e) => Some (file', Err e)
    | Some (_, Ok total) =>
        Some (Some {| nextHeight := endHeight + 1; sum := total;
                      endHeight := endHeight |}, Ok total)
    end.

End Main.
End MinerReward.

(** ** The memoizing resolvers [getTx] and [getARByBlockNumberHex]

    Both have the shape
    [if (cache.has(k)) return cache.get(k); const v = await fetch(k);
     cache.set(k, v); return v].
    A call runs from its entry to the [await] in one turn of the event loop
    and resumes in a later turn, when the fetch has settled; other calls may
    enter in between. *)

Module Resolver.
Section Resolver.

Context {V : Type}.
(** What the awaited remote call yields for a key. *)
Variable fetch : string -> result V.

Inductive call : Type :=
  | Pending (k : string)      (* not entered yet *)
  | InFlight (k : string)     (* suspended at the await *)
  | Returned (v : V)
  | Rejected (e : error).

Record world : Type := {
  cache : gmap string V;
  calls : list call;
  requests : list string;     (* remote requests issued so far *)
}.

Inductive event : Type :=
  | Enter (i : nat)     (* call [i] runs up to its await *)
  | Settle (i : nat).   (* the fetch of call [i] settles and the call resumes *)

Definition step (w : world) (ev : event) : world :=
  match ev with
  | Enter i =>
      match calls w !! i with
      | Some (Pending k) =>
          match cache w !! k with
          | Some v =>
              {| cache := cache w; calls := <[i := Returned v]> (calls w);
                 requests := requests w |}
          | None =>
              {| cache := cache w; calls := <[i := InFlight k]> (calls w);
                 requests := requests w ++ [k] |}
          end
      | _ => w
      end
  | Settle i =>
      match calls w !! i with
      | Some (InFlight k) =>
          match fetch k with
          | Ok v =>
              {| cache := <[k := v]> (cache w);
                 calls := <[i := Returned v]> (calls w);
                 requests := requests w |}
          | Err e =>
              {| cache := cache w; calls := <[i := Rejected e]> (calls w);
                 requests := requests w |}
          end
      | _ => w
      end
  end.

Definition run (sched : list event) (w : world) : world :=
  fold_left step sched w.

Definition start (keys : list string) : world :=
  {| cache := ∅; calls := Pending <$> keys; requests := [] |}.

Definition awaits (k : string) (c : call) : bool :=
  match c with
  | InFlight k' => String.eqb k k'
  | _ => false
  end.

(** Number of fetches for [k] that are in flight. *)
Definition in_flight (k : string) (w : world) : nat :=
  length (List.filter (awaits k) (calls w)).

(** Number of requests issued for [k]. *)
Definition requested (k : string) (w : world) : nat :=
  length (List.filter (String.eqb k) (requests w)).

End Resolver.
End Resolver.

(** ** Settlement-reward scan with the seen-transaction set *)

Module Withdraw2.

(** One object of a [get_transactions] page; both spellings of the two
    fields are read ([o.io_type ?? o.ioType], [o.tx_hash ?? o.txHash]). *)
Record tx_object : Type := {
  io_type : option string;
  ioType : option string;
  tx_hash : option string;
  txHash : option string;
}.

Record tx_page : Type := {
  objects : option (list tx_object);
  last_cursor : option string;
}.

(** [a ?? b] *)
Definition nullish {A} (a b : option A) : option A :=
  match a with
  | Some _ => a
  | None => b
  end.

(** [x === 'literal'] for [x] a string, [null] or [undefined]. *)
Definition is_string (x : option string) (literal : string) : bool :=
  match x with
  | Some s => String.eqb s literal
  | None => false
  end.

(** The [for (const o of objs)] loop of one page: [seenTx] is the set shared
    by all pages, [inputTxHashes] the list built for this page. *)
Fixpoint collect (objs : list tx_object) (seenTx : gset string)
    (inputTxHashes : list string) : gset string * list string :=
  match objs with
  | [] => (seenTx, inputTxHashes)
  | o :: rest =>
      if is_string (nullish (io_type o) (ioType o)) "input" then
        match nullish (tx_hash o) (txHash o) with
        | Some h =>
            if negb (String.eqb h "") && negb (bool_decide (h ∈ seenTx))
            then collect rest ({[h]} ∪ seenTx) (inputTxHashes ++ [h])
            else collect rest seenTx inputTxHashes
        | None => collect rest seenTx inputTxHashes
        end
      else collect rest seenTx inputTxHashes
  end.

Record scan_state : Type := {
  seenTx : gset string;
  withdraw2Txs : Z;
  totalReward : Z;
  submitted : list string;   (* every hash handed to the callback, in order *)
}.

Section Scan.

Variable CONCURRENCY : Z.

(** Outcome of the [mapLimit] callback for one transaction hash: it throws,
    returns without counting ([Ok None]: no transaction, or no rewarded
    prepare-withdraw input), or adds [txRewardSum] to the totals. *)
Variable txRewardSum : string -> result (option Z).

(** [mapLimit(inputTxHashes, CONCURRENCY, callback)]: [idx = i++] hands each
    index to exactly one worker; the totals are sums, so the order in which
    the workers finish does not show. Without a worker nothing is handed
    out. *)
Fixpoint for_hashes (hashes : list string) (st : scan_state) : result scan_state :=
  match hashes with
  | [] => Ok st
  | txHash :: rest =>
      r ← txRewardSum txHash;
      let st' :=
        match r with
        | Some reward =>
            {| seenTx := seenTx st; withdraw2Txs := withdraw2Txs st + 1;
               totalReward := totalReward st + reward;
               submitted := submitted st ++ [txHash] |}
        | None =>
            {| seenTx := seenTx st; withdraw2Txs := withdraw2Txs st;
               totalReward := totalReward st;
               submitted := submitted st ++ [txHash] |}
        end in
      for_hashes rest st'
  end.

Definition mapLimit (hashes : list string) (st : scan_state) : result scan_state :=
  if CONCURRENCY <? 1 then Ok st else for_hashes hashes st.

Definition cursor_present (c : option string) : bool :=
  match c with
  | Some s => negb (String.eqb s "" || String.eqb s "0x" || String.eqb s "0x0")
  | None => false
  end.

(** The page loop over the successive answers of [get_transactions]; the
    scan is cut where the list of answers ends. *)
Fixpoint scan (pages : list tx_page) (st : scan_state) : result scan_state :=
  match pages with
  | [] => Ok st
  | res :: more =>
      match default [] (objects res) with
      | [] => Ok st
      | objs =>
          let '(seen, inputTxHashes) := collect objs (seenTx st) [] in
          st' ← mapLimit inputTxHashes
                  {| seenTx := seen; withdraw2Txs := withdraw2Txs st;
                     totalReward := totalReward st;
                     submitted := submitted st |};
          if cursor_present (last_cursor res) then scan more st' else Ok st'
      end
  end.

Definition init : scan_state :=
  {| seenTx := ∅; withdraw2Txs := 0; totalReward := 0; submitted := [] |}.

Definition computeWithdraw2Reward (pages : list tx_page) : result Z :=
  st ← scan pages init;
  Ok (totalReward st).

End Scan.
End Withdraw2.


(** ** Estimated total secondary issuance (secondary_issuance_total.js) *)

Module SecondaryTotal.

(** [main], from the packed epoch of the tip header on; the script carries
    its own copy of [parseEpochPacked] and of the epoch reward. *)
Definition main (tipEpoch : string) : result Z :=
  ep ← MinerSecondary.parseEpochPacked tipEpoch;
  fullEpochs ← BigInt_of_Number (Z.max 0 (MinerSecondary.number ep - 1));
  index ← BigInt_of_Number (MinerSecondary.index ep);
  length ← BigInt_of_Number (MinerSecondary.length ep);
  part ← bigint_div (MinerSecondary.SECONDARY_EPOCH_REWARD * index) length;
  Ok (fullEpochs * MinerSecondary.SECONDARY_EPOCH_REWARD + part).

End SecondaryTotal.

(** ** The retrying [rpc] helper

    One attempt is a [fetch], the decoding of its answer and the test of
    [json.error]; what the [i]-th attempt of a call comes to is given by
    [exchange i]. Next to its outcome a call reports how many attempts it
    made and how long it slept between them, in milliseconds. *)

Module Rpc.

Inductive outcome (V : Type) : Type :=
  | Returned (v : V)       (* return json.result *)
  | ReturnedUndefined      (* the function body ends without a return *)
  | Threw (e : error)      (* throw of a caught error *)
  | ThrewUndefined.        (* throw lastErr, nothing caught before *)
Arguments Returned {V} v.
Arguments ReturnedUndefined {V}.
Arguments Threw {V} e.
Arguments ThrewUndefined {V}.

Record call (V : Type) : Type := {
  result_of : outcome V;
  attempts : nat;
  slept : Z;
}.
Arguments result_of {V} c.
Arguments attempts {V} c.
Arguments slept {V} c.

Section Rpc.

Context {V : Type}.
Variable exchange : nat -> result V.

(** The scripts that keep [lastErr]: [for (let i = 1; i <= retries; i++)],
    [n] iterations left; a failed attempt is followed by a sleep of
    [300 * i], the last one included, and [throw lastErr] ends the call. *)
Fixpoint rpc_loop (i n : nat) (lastErr : option error) (made : nat) (slept : Z)
  : call V :=
  match n with
  | O =>
      {| result_of := match lastErr with
                      | Some e => Threw e
                      | None => ThrewUndefined
                      end;
         attempts := made; slept := slept |}
  | S n' =>
      match exchange i with
      | Ok v => {| result_of := Returned v; attempts := S made; slept := slept |}
      | Err e => rpc_loop (S i) n' (Some e) (S made) (slept + 300 * Z.of_nat i)
      end
  end.

Definition rpc (retries : Z) : call V :=
  rpc_loop 1 (Z.to_nat retries) None 0 0.

(** The streamed scan's variant: the error of attempt [retries] is thrown
    at once, the earlier ones are followed by a sleep of [200 * attempt];
    with no iteration at all the function returns [undefined]. *)
Fixpoint rpc_loop_streamed (attempt n : nat) (made : nat) (slept : Z) : call V :=
  match n with
  | O => {| result_of := ReturnedUndefined; attempts := made; slept := slept |}
  | S n' =>
      match exchange attempt with
      | Ok v => {| result_of := Returned v; attempts := S made; slept := slept |}
      | Err e =>
          if Nat.eqb n' 0
          then {| result_of := Threw e; attempts := S made; slept := slept |}
          else rpc_loop_streamed (S attempt) n' (S made)
                 (slept + 200 * Z.of_nat attempt)
      end
  end.

Definition rpc_streamed (retries : Z) : call V :=
  rpc_loop_streamed 1 (Z.to_nat retries) 0 0.

End Rpc.
End Rpc.

(** ** The worker pool of [mapLimit]

    [limit] workers share the counter [i]; each runs
    [while (true) { const idx = i++; if (idx >= arr.length) return;
     await fn(arr[idx], idx) }].
    A worker runs from one [await] to the next in one turn of the event
    loop; the turns of different workers interleave in any order. *)

Module MapLimit.

Inductive worker : Type :=
  | Ready                    (* created, not started *)
  | Awaiting (idx : nat)     (* suspended at [await fn(arr[idx], idx)] *)
  | Finished                 (* returned: [idx >= arr.length] *)
  | Failed (e : error).      (* [fn] threw; the worker's promise is rejected *)

Record pool : Type := {
  next : nat;                (* the shared counter [i] *)
  workers : list worker;
  claimed : list nat;        (* the indexes handed to [fn], in order *)
}.

Section MapLimit.

(** [arr.length], and what the call [fn(arr[idx], idx)] comes to. *)
Variable len : nat.
Variable fn : nat -> result unit.

(** [const idx = i++; if (idx >= arr.length) return; await fn(...)] of
    worker [w]. *)
Definition claim (p : pool) (w : nat) : pool :=
  let idx := next p in
  if (len <=? idx)%nat
  then {| next := S idx; workers := <[w := Finished]> (workers p);
          claimed := claimed p |}
  else {| next := S idx; workers := <[w := Awaiting idx]> (workers p);
          claimed := claimed p ++ [idx] |}.

(** One turn of worker [w]: it starts, or the call it awaits settles. *)
Definition turn (p : pool) (w : nat) : pool :=
  match workers p !! w with
  | Some Ready => claim p w
  | Some (Awaiting idx) =>
      match fn idx with
      | Ok _ => claim p w
      | Err e => {| next := next p; workers := <[w := Failed e]> (workers p);
                    claimed := claimed p |}
      end
  | _ => p
  end.

Definition run (sched : list nat) (p : pool) : pool := fold_left turn sched p.

(** [Array.from({ length: limit }, async () => ...)]: the workers are
    created, and started, one after the other. *)
Definition start (limit : Z) : pool :=
  let n := Z.to_nat limit in
  run (seq 0 n) {| next := 0; workers := replicate n Ready; claimed := [] |}.

Definition in_flight (p : pool) : nat :=
  length (List.filter (fun w => match w with Awaiting _ => true | _ => false end)
            (workers p)).

Definition settled (w : worker) : bool :=
  match w with
  | Finished => true
  | _ => false
  end.

End MapLimit.
End MapLimit.

(** ** The settlement callbacks of the two phase-2 scripts

    Both scripts hand every collected transaction hash to a callback that
    fetches the transaction and the transactions its inputs spend. The
    script with the seen-transaction set prices every input that spends a
    prepare-withdraw cell; the older one looks at transactions with a single
    input and a single output and takes the difference of the capacities. *)

Module Settlement.

Definition DAO_TYPE : script :=
  {| code_hash := "0x82d76d1b75fe2fd9a27dfbaa65a039221a380d76c926f378d3f81cf3e7e13f2e";
     hash_type := "type"; args := "0x" |}.

(** [type && type.code_hash === ... && type.hash_type === ... &&
     (type.args || '0x') === (DAO_TYPE.args || '0x')] *)
Definition isDaoTypeScript (type : option script) : bool :=
  match type with
  | None => false
  | Some t =>
      String.eqb (code_hash t) (code_hash DAO_TYPE)
      && String.eqb (hash_type t) (hash_type DAO_TYPE)
      && String.eqb (or_0x (args t)) (or_0x (args DAO_TYPE))
  end.

(** [!!dataHex && dataHex !== '0x0000000000000000'] *)
Definition isPrepareDaoData (dataHex : option string) : bool :=
  match dataHex with
  | Some d => negb (String.eqb d "") && negb (String.eqb d "0x0000000000000000")
  | None => false
  end.

(** A string that is truthy: neither [undefined], [null] nor empty. *)
Definition truthy (x : option string) : option string :=
  match x with
  | Some s => if String.eqb s "" then None else Some s
  | None => None
  end.

(** [previous_output]: the hash, and [Number(index)] where it is an
    integer. *)
Record out_point : Type := {
  tx_hash : option string;
  out_index : option Z;
}.

Record tx_input : Type := {
  previous_output : option out_point;
}.

Record tx_body : Type := {
  inputs : option (list tx_input);
  outputs : option (list cell_output);
  outputs_data : option (list string);
}.

(** The answer of [get_transaction]: [transaction], and
    [tx_status?.block_number]. *)
Record tx_wrap : Type := {
  transaction : option tx_body;
  status_block_number : option string;
}.

(** [arr[n]] for a Number [n]: [undefined] unless [n] is an index of
    [arr]. *)
Definition at_index {A} (arr : list A) (n : option Z) : option A :=
  match n with
  | Some z => if 0 <=? z then arr !! Z.to_nat z else None
  | None => None
  end.

Record caches : Type := {
  txCache : gmap string (option tx_wrap);
  arCache : gmap string Z;
}.

Section Node.

(** [rpc('get_transaction', [txHash])]: the call throws, or answers a
    transaction or [null]. *)
Variable get_transaction : string -> result (option tx_wrap).
Variable get_header_by_number : string -> result (option header).

Definition getTx (txHash : string) (cache : gmap string (option tx_wrap))
  : result (option tx_wrap * gmap string (option tx_wrap)) :=
  match cache !! txHash with
  | Some v => Ok (v, cache)
  | None =>
      v ← get_transaction txHash;
      Ok (v, <[txHash := v]> cache)
  end.

Definition getTx_in (txHash : string) (c : caches)
  : result (option tx_wrap * caches) :=
  '(v, cache) ← getTx txHash (txCache c);
  Ok (v, {| txCache := cache; arCache := arCache c |}).

Definition getAR_in (bnHex : string) (c : caches) : result (Z * caches) :=
  '(ar, cache) ← Dao.getARByBlockNumberHex get_header_by_number bnHex (arCache c);
  Ok (ar, {| txCache := txCache c; arCache := cache |}).

(** One iteration of [for (let inIdx = 0; inIdx < inputs.length; inIdx++)]:
    [None] where the iteration ends in [continue], the reward of the input
    where it is counted. *)
Definition input_reward (inp : tx_input) (c : caches) : result (option Z * caches) :=
  match truthy (previous_output inp ≫= tx_hash) with
  | None => Ok (None, c)
  | Some prevHash =>
      '(prevWrap, c1) ← getTx_in prevHash c;
      let ptx := prevWrap ≫= transaction in
      match default [] (ptx ≫= outputs) with
      | [] => Ok (None, c1)
      | outs =>
          let outIndex := previous_output inp ≫= out_index in
          let prevOut := at_index outs outIndex in
          let prevData := at_index (default [] (ptx ≫= outputs_data)) outIndex in
          if negb (isDaoTypeScript (prevOut ≫= type)) then Ok (None, c1)
          else if negb (isPrepareDaoData prevData) then Ok (None, c1)
          else
            match truthy (prevWrap ≫= status_block_number), prevOut, prevData with
            | Some prepareBnHex, Some prevOut, Some prevData =>
                depositBnHex ← Dao.parsePrepareBlockNumberHex prevData;
                '(AR_i, c2) ← getAR_in depositBnHex c1;
                '(AR_j, c3) ← getAR_in prepareBnHex c2;
                free ← Capacity.freeCapacity prevOut prevData;
                if free <=? 0 then Ok (None, c3)
                else
                  reward ← Dao.reward_of free AR_j AR_i;
                  if reward <=? 0 then Ok (None, c3) else Ok (Some reward, c3)
            | _, _, _ => Ok (None, c1)
            end
      end
  end.

Fixpoint for_inputs (inputs : list tx_input) (c : caches)
    (prepareInputs txRewardSum : Z) : result (Z * Z * caches) :=
  match inputs with
  | [] => Ok (prepareInputs, txRewardSum, c)
  | inp :: rest =>
      '(r, c') ← input_reward inp c;
      match r with
      | Some reward => for_inputs rest c' (prepareInputs + 1) (txRewardSum + reward)
      | None => for_inputs rest c' prepareInputs txRewardSum
      end
  end.

(** The callback of the script with the seen-transaction set: [Some
    txRewardSum] where the transaction is counted ([totalReward +=
    txRewardSum; withdraw2Txs++]), [None] where the callback returns
    before. The samples kept for printing are left out. *)
Definition callback (txHash : string) (c : caches) : result (option Z * caches) :=
  '(wrap, c1) ← getTx_in txHash c;
  match wrap ≫= transaction with
  | None => Ok (None, c1)
  | Some tx =>
      '(prepareInputs, txRewardSum, c2) ← for_inputs (default [] (inputs tx)) c1 0 0;
      if prepareInputs =? 0 then Ok (None, c2) else Ok (Some txRewardSum, c2)
  end.

Definition outputsContainDaoCell (tx : tx_body) : bool :=
  existsb (fun o => isDaoTypeScript (type o)) (default [] (outputs tx)).

(** The callback of the older script: [Some delta] where the transaction is
    counted ([if (delta > 0n) totalReward += delta; withdraw2Txs++]). *)
Definition callback_single (txHash : string) (cache : gmap string (option tx_wrap))
  : result (option Z * gmap string (option tx_wrap)) :=
  '(wrap, cache1) ← getTx txHash cache;
  match wrap ≫= transaction with
  | None => Ok (None, cache1)
  | Some tx =>
      if outputsContainDaoCell tx then Ok (None, cache1)
      else
        match default [] (inputs tx), default [] (outputs tx) with
        | [inp], [out] =>
            match truthy (previous_output inp ≫= tx_hash) with
            | None => Ok (None, cache1)
            | Some prevHash =>
                '(prevWrap, cache2) ← getTx prevHash cache1;
                let ptx := prevWrap ≫= transaction in
                match default [] (ptx ≫= outputs) with
                | [] => Ok (None, cache2)
                | outs =>
                    let idx := previous_output inp ≫= out_index in
                    let prevOut := at_index outs idx in
                    let prevData := at_index (default [] (ptx ≫= outputs_data)) idx in
                    if negb (isDaoTypeScript (prevOut ≫= type)) then Ok (None, cache2)
                    else if negb (isPrepareDaoData prevData) then Ok (None, cache2)
                    else
                      match prevOut with
                      | Some prevOut =>
                          outCap ← BigInt (capacity out);
                          inCap ← BigInt (capacity prevOut);
                          Ok (Some (outCap - inCap), cache2)
                      | None => Ok (None, cache2)
                      end
                end
            end
        | _, _ => Ok (None, cache1)
        end
  end.

End Node.
End Settlement.

(** ** The page loop of the older phase-2 script

    The loop of [computeWithdrawPhase2Reward]: as in the script with the
    seen-transaction set, but every hash of an ['input'] object is handed
    to the callback. *)

Module Phase2.

(** The [for (const o of objs)] loop of one page. *)
Fixpoint collect (objs : list Withdraw2.tx_object) (inputTxHashes : list string)
  : list string :=
  match objs with
  | [] => inputTxHashes
  | o :: rest =>
      if Withdraw2.is_string (Withdraw2.nullish (Withdraw2.io_type o) (Withdraw2.ioType o))
           "input"
      then
        match Withdraw2.nullish (Withdraw2.tx_hash o) (Withdraw2.txHash o) with
        | Some h =>
            if negb (String.eqb h "") then collect rest (inputTxHashes ++ [h])
            else collect rest inputTxHashes
        | None => collect rest inputTxHashes
        end
      else collect rest inputTxHashes
  end.

Record scan_state : Type := {
  withdraw2Txs : Z;
  totalReward : Z;
  handed : list string;   (* every hash handed to the callback, in order *)
}.

Section Scan.

Variable CONCURRENCY : Z.

(** Outcome of the callback for one hash: it throws, returns without
    counting, or counts the transaction with [delta = outCap - inCap]. *)
Variable txDelta : string -> result (option Z).

Fixpoint for_hashes (hashes : list string) (st : scan_state) : result scan_state :=
  match hashes with
  | [] => Ok st
  | txHash :: rest =>
      r ← txDelta txHash;
      let st' :=
        match r with
        | Some delta =>
            {| withdraw2Txs := withdraw2Txs st + 1;
               totalReward := if 0 <? delta then totalReward st + delta
                              else totalReward st;
               handed := handed st ++ [txHash] |}
        | None =>
            {| withdraw2Txs := withdraw2Txs st; totalReward := totalReward st;
               handed := handed st ++ [txHash] |}
        end in
      for_hashes rest st'
  end.

Definition mapLimit (hashes : list string) (st : scan_state) : result scan_state :=
  if CONCURRENCY <? 1 then Ok st else for_hashes hashes st.

Fixpoint scan (pages : list Withdraw2.tx_page) (st : scan_state) : result scan_state :=
  match pages with
  | [] => Ok st
  | res :: more =>
      match default [] (Withdraw2.objects res) with
      | [] => Ok st
      | objs =>
          st' ← mapLimit (collect objs []) st;
          if Withdraw2.cursor_present (Withdraw2.last_cursor res)
          then scan more st' else Ok st'
      end
  end.

Definition init : scan_state :=
  {| withdraw2Txs := 0; totalReward := 0; handed := [] |}.

End Scan.
End Phase2.

(** ** Average deposit age (the end of the holder-statistics script) *)

Module DepositAge.

(** One iteration of
    [for (const [k, depTs] of depositAddrMinTs.entries())]. *)
Definition step (tipTs : Z) (acc : Z * Z) (depTs : Z) : Z * Z :=
  let '(sumDeltaMs, addrCount) := acc in
  let delta := tipTs - depTs in
  if 0 <=? delta then (sumDeltaMs + delta, addrCount + 1) else acc.

(** The loop over the entries of the Map, in the order in which the Map
    hands them out (the order of insertion). *)
Definition totals (tipTs : Z) (entries : list (string * Z)) : Z * Z :=
  foldl (fun acc e => step tipTs acc e.2) (0, 0) entries.

(** [sumDeltaMs / addrCount] where [addrCount > 0n]; [None] where the script
    prints [N/A]. *)
Definition avgMs (tipTs : Z) (entries : list (string * Z)) : option Z :=
  let '(sumDeltaMs, addrCount) := totals tipTs entries in
  if 0 <? addrCount then Some (Z.quot sumDeltaMs addrCount) else None.

End DepositAge.

(** ** Matching the responses of a batch by id (miner_reward.js)

    [rpcBatch] answers an array of responses in an order of the node's
    choosing; the script files them by [id] before it adds them up. A
    response is represented by its id and by what it adds: [None] for a
    response with an [error] or a block without cellbase output capacity. *)

Module BatchById.

(** [new Map(results.map((r) => [r.id, r]))]: a later response replaces an
    earlier one with the same id. *)
Definition byId (results : list (Z * option Z)) : gmap Z (option Z) :=
  list_to_map (reverse results).

(** [for (let i = 0; i < actual; i++) { const r = byId.get(i); ... }] *)
Fixpoint add_rewards (byId : gmap Z (option Z)) (i : Z) (actual : nat) (sum : Z) : Z :=
  match actual with
  | O => sum
  | S actual' =>
      let sum' :=
        match byId !! i with
        | Some (Some cap) => sum + cap
        | _ => sum
        end in
      add_rewards byId (i + 1) actual' sum'
  end.

End BatchById.

(** ** Vocabulary of the statements *)

(** The packed epoch, as the layout is worded:
    [(length << 40) | (index << 24) | number]. *)
Definition packEpoch (length index number : Z) : Z :=
  Z.lor (Z.lor (Z.shiftl length 40) (Z.shiftl index 24)) number.

(** Sum of [perBlockSecondary L idx] over [idx = 0 .. n-1]. *)
Fixpoint epoch_sum (L : Z) (n : nat) : result Z :=
  match n with
  | O => Ok 0
  | S n' =>
      t ← epoch_sum L n';
      s ← MinerSecondary.perBlockSecondary L (Z.of_nat n');
      Ok (t + s)
  end.

(** Strings made of hexadecimal digits only. *)
Fixpoint hex_digits (s : string) : bool :=
  match s with
  | EmptyString => true
  | String c rest => bool_decide (is_Some (unhex c)) && hex_digits rest
  end.

(** A byte sequence as the node prints it: lower-case digits after [0x]. *)
Definition hex_digit (d : Z) : ascii :=
  ascii_of_N (Z.to_N (if d <? 10 then 48 + d else 87 + d)).

Fixpoint hex_of_bytes (bs : list Z) : string :=
  match bs with
  | [] => EmptyString
  | b :: rest =>
      String (hex_digit (b / 16)) (String (hex_digit (b mod 16)) (hex_of_bytes rest))
  end.

Definition is_byte (b : Z) : Prop := 0 <= b < 256.

(** [h] once the optional [0x] prefix is dropped. *)
Definition strip0x (s : string) : string :=
  if startsWith "0x" s then slice_from 2 s else s.

(** The 64-bit little-endian unsigned integer at byte offset [o]. *)
Definition u64_at (o : nat) (bs : list Z) : Z :=
  le_value (firstn 8 (skipn o bs)).

(** [f from + f (from + 1) + ...], [n] terms. *)
Fixpoint sum_from (f : Z -> Z) (from : Z) (n : nat) : Z :=
  match n with
  | O => 0
  | S n' => f from + sum_from f (from + 1) n'
  end.

(** The length and the index of a 64-bit packed epoch, as the layout is
    worded: the length is the 24 bits from bit 40 on, the index the 16 bits
    from bit 24 on. *)
Definition epoch_length (e : Z) : Z := e / 2 ^ 40.

Definition epoch_index (e : Z) : Z := (e / 2 ^ 24) mod 2 ^ 16.

(** The miner payout of block [i] as the formula words it:
    [floor(s_i * U_{i-1} / C_{i-1})], with [C] and [U] the integers at byte
    offsets 0 and 24 of the accounting field of block [i - 1], and
    [s_i = floor(R / length) + (index < R mod length ? 1 : 0)] for the
    length and the index of the epoch of block [i]. *)
Definition lagged_payout (chain : Z -> header) (i : Z) : Z :=
  let bs := Buffer_from_hex (strip0x (dao (chain (i - 1)))) in
  let C_prev := u64_at 0 bs in
  let U_prev := u64_at 24 bs in
  match BigInt (epoch (chain i)) with
  | Ok e =>
      let R := MinerSecondary.SECONDARY_EPOCH_REWARD in
      let s_i := R / epoch_length e
                 + (if epoch_index e <? R mod epoch_length e then 1 else 0) in
      s_i * U_prev / C_prev
  | Err _ => 0
  end.

(** Block [i] can be paid: the accounting field of block [i - 1] is 32
    well-formed bytes with a non-zero [C], and the epoch of block [i] reads
    as a 64-bit packed value with a positive length. *)
Definition payable (chain : Z -> header) (i : Z) : bool :=
  let h := strip0x (dao (chain (i - 1))) in
  Nat.eqb (String.length h) 64 && hex_digits h
  && (0 <? u64_at 0 (Buffer_from_hex h))
  && match BigInt (epoch (chain i)) with
     | Ok e => (0 <=? e) && (e <? 2 ^ 64) && (0 <? epoch_length e)
     | Err _ => false
     end.

(** Number of bytes a hexadecimal field stands for. *)
Definition byte_len (hex : string) : Z :=
  Z.of_nat (length (Buffer_from_hex (strip0x hex))).

Definition hex_field (hex : string) : bool := hex_digits (strip0x hex).

(** Occupied bytes with a presence byte, as the design text of the cell size
    model words them: a type script that is present would be charged one
    byte more than its [32 + 1 + len(args)]. The code does not do this; the
    definition is here to be compared with [Capacity.occupiedBytes]. *)
Definition scriptChargeBytes_claimed (sc : script) : Z :=
  32 + 1 + byte_len (args sc).

Definition occupiedBytes_claimed (o : cell_output) (data : string) : Z :=
  8 + from_option scriptChargeBytes_claimed 0 (lock o)
  + match type o with
    | None => 0
    | Some t => 1 + scriptChargeBytes_claimed t
    end
  + byte_len data.

(** [floor(free * AR_k / AR_i) - free]. *)
Definition floor_reward (free AR_k AR_i : Z) : Z :=
  free * AR_k / AR_i - free.

(** Prepare-withdraw data that [parsePrepareBlockNumberHex] refuses: empty,
    or not 8 bytes long. *)
Definition malformed_prepare_data (d : string) : bool :=
  String.eqb d "" || String.eqb d "0x"
  || negb (Nat.eqb (String.length (strip0x d)) 16).

(** A rate cache that holds nothing but rates of the node. *)
Definition coherent (node : string -> result (option header))
    (cache : gmap string Z) : Prop :=
  forall k v, cache !! k = Some v -> Dao.fetchAR node k = Ok v.

(** What a block adds to the miner-reward sum: the cellbase output capacity
    when the node answers one, nothing otherwise. *)
Definition contribution (reward : Z -> option Z) (h : Z) : Z :=
  default 0 (reward h).

(** A checkpoint file is valid for the range [[start, end]] when it is
    absent, or holds a height of [[start, end + 1]] together with the sum
    over the heights below it. *)
Definition valid_checkpoint (reward : Z -> option Z) (start end_ : Z)
    (file : option MinerReward.checkpoint) : Prop :=
  match file with
  | None => True
  | Some ck =>
      start <= MinerReward.nextHeight ck <= end_ + 1
      /\ MinerReward.sum ck
         = sum_from (contribution reward) start
             (Z.to_nat (MinerReward.nextHeight ck - start))
  end.

(** What the callback adds to [totalReward] for a hash it is handed. *)
Definition counted_reward (txRewardSum : string -> result (option Z))
    (txHash : string) : Z :=
  match txRewardSum txHash with
  | Ok (Some reward) => reward
  | _ => 0
  end.

Definition sumZ (l : list Z) : Z := foldr Z.add 0 l.

(** The invariant of the settlement scan: no hash was handed to the
    callback twice, every hash handed over is in [seenTx], and [totalReward]
    is the sum of what the callback adds for each of them. *)
Definition processed_once (txRewardSum : string -> result (option Z))
    (st : Withdraw2.scan_state) : Prop :=
  NoDup (Withdraw2.submitted st)
  /\ (forall h, h ∈ Withdraw2.submitted st -> h ∈ Withdraw2.seenTx st)
  /\ Withdraw2.totalReward st
     = sumZ (counted_reward txRewardSum <$> Withdraw2.submitted st).

(** ** Sample data *)

(** Three consecutive headers, for the examples. *)
Definition sample_chain (n : Z) : header :=
  if n =? 0 then
    {| dao := "0x00e40b54020000000000c16ff2862300000000000000000000a0724e18090000";
       epoch := "0x7080000000000"; timestamp := "0x0" |}
  else if n =? 1 then
    {| dao := "0x00c817a8040000000000c16ff2862300000000000000000000a0724e18090000";
       epoch := "0x7080001000000"; timestamp := "0x0" |}
  else
    {| dao := "0x00ac23fc06000000004024c2b14d2500000000000000000000a0724e18090000";
       epoch := "0x7080002000000"; timestamp := "0x0" |}.

(** A node whose block at height 4 has no cellbase output, for the
    examples. *)
Definition sample_rewards (h : Z) : option Z :=
  if h =? 4 then None else Some (1000 + h).

Definition sample_rpcBatch (calls : list Z) : result (list (option Z)) :=
  Ok (sample_rewards <$> calls).

(** A resolver whose remote call always answers, for the examples. *)
Definition sample_fetch (k : string) : result Z := Ok 7.

(** Two pages of index objects in which hashes repeat, for the examples. *)
Definition input_object (h : string) : Withdraw2.tx_object :=
  {| Withdraw2.io_type := Some "input"%string; Withdraw2.ioType := None;
     Withdraw2.tx_hash := Some h; Withdraw2.txHash := None |}.

Definition output_object (h : string) : Withdraw2.tx_object :=
  {| Withdraw2.io_type := None; Withdraw2.ioType := Some "output"%string;
     Withdraw2.tx_hash := None; Withdraw2.txHash := Some h |}.

Definition sample_pages : list Withdraw2.tx_page :=
  [ {| Withdraw2.objects :=
         Some [input_object "0xa1"; output_object "0xa1"; input_object "0xa1";
               input_object "0xb2"];
       Withdraw2.last_cursor := Some "0x20"%string |};
    {| Withdraw2.objects := Some [input_object "0xb2"; input_object "0xc3"];
       Withdraw2.last_cursor := None |} ].

Definition sample_txRewardSum (txHash : string) : result (option Z) :=
  if String.eqb txHash "0xa1" then Ok (Some 100)
  else if String.eqb txHash "0xb2" then Ok None
  else Ok (Some 5).

(** The DAO type script and two live cells, for the examples. *)
Definition DAO_TYPE : script :=
  {| code_hash := "0x82d76d1b75fe2fd9a27dfbaa65a039221a380d76c926f378d3f81cf3e7e13f2e";
     hash_type := "type"; args := "0x" |}.

Definition sample_lock : script :=
  {| code_hash := "0x9bd7e06f3ecf4be0f2fcd2188b23f1b9fcc88e5d4b65a8637b17723bbda3cce8";
     hash_type := "type"; args := "0x36c329ed630d6ce750712a477543672adab57f4c" |}.

Definition sample_deposit : live_cell :=
  {| output := {| capacity := "0x2e90edd000"; lock := Some sample_lock;
                  type := Some DAO_TYPE |};
     output_data := "0x0000000000000000"; block_number := "0x1" |}.

Definition sample_bad_prepare : live_cell :=
  {| output := {| capacity := "0x2e90edd000"; lock := Some sample_lock;
                  type := Some DAO_TYPE |};
     output_data := "0x01"; block_number := "0x2" |}.

Definition sample_node (bnHex : string) : result (option header) :=
  match StringToBigInt bnHex with
  | Some n => if (0 <=? n) && (n <=? 2) then Ok (Some (sample_chain n)) else Ok None
  | None => Err RpcFailure
  end.

Definition sample_cells (cells : list live_cell) (cursor : option string)
  : result Dao.cells_page :=
  Ok {| Dao.objects := Some cells; Dao.last_cursor := None |}.

(** ** Further vocabulary *)

(** The [n] low bytes of [x], least significant first. *)
Fixpoint le_bytes (n : nat) (x : Z) : list Z :=
  match n with
  | O => []
  | S n' => x mod 256 :: le_bytes n' (x / 256)
  end.

(** An accounting field as the node prints it: the four integers as 8
    little-endian bytes each, in hexadecimal after [0x]. *)
Definition print_dao (C AR S U : Z) : string :=
  "0x" ++ hex_of_bytes (le_bytes 8 C ++ le_bytes 8 AR ++ le_bytes 8 S ++ le_bytes 8 U).

(** What a node that answers every request hands back for the heights
    [from], [from + 1], ..., [n] of them ([None] is [null]). *)
Fixpoint headers_from (answer : Z -> option header) (from : Z) (n : nat)
  : list (option header) :=
  match n with
  | O => []
  | S n' => answer from :: headers_from answer (from + 1) n'
  end.

(** A node that fails on every batch asking for height 6 and answers the
    others as [sample_rpcBatch] does, for the examples. *)
Definition sample_failing_rpcBatch (calls : list Z) : result (list (option Z)) :=
  if bool_decide (6 ∈ calls) then Err RpcFailure else sample_rpcBatch calls.

(** A hexadecimal field as the node prints it, where only its length
    matters: empty, or [0x] followed by an even number of characters. *)
Definition printed_field (s : string) : bool :=
  String.eqb s "" || (startsWith "0x" s && Nat.even (String.length s)).

(** The capacity of a cell, and its free capacity under the Molecule-style
    size model (0 where the script would have thrown before using it). *)
Definition capacity_of (c : live_cell) : Z :=
  match BigInt (capacity (output c)) with
  | Ok cap => cap
  | Err _ => 0
  end.

Definition molecule_free (c : live_cell) : Z :=
  match Molecule.occupiedCapacity (output c) (output_data c) with
  | Ok occ => capacity_of c - occ
  | Err _ => 0
  end.

Definition is_deposit (c : live_cell) : bool :=
  String.eqb (output_data c) Dao.DEPOSIT_DATA.

(** The totals of the by-kind scan, the rate cache left out. *)
Definition by_kind_totals (st : UnclaimedByKind.totals) : Z * Z * Z * Z * Z :=
  (UnclaimedByKind.daoDeposit st, UnclaimedByKind.unclaimedDeposit st,
   UnclaimedByKind.unclaimedPrepare st, UnclaimedByKind.cntDeposit st,
   UnclaimedByKind.cntPrepare st).

(** The outcome of a scan as the user sees it: the totals or the error. *)
Definition by_kind_outcome (r : result UnclaimedByKind.totals)
  : result (Z * Z * Z * Z * Z) :=
  match r with
  | Ok st => Ok (by_kind_totals st)
  | Err e => Err e
  end.

(** [getDaoLiveCells()] drained into a list. *)
Definition drained (get_cells : option string -> result Dao.cells_page)
    (fuel : nat) (cursor : option string) (acc : list live_cell)
  : option (result (list live_cell)) :=
  Dao.for_await_cells get_cells (fun acc c => Ok (acc ++ [c])) fuel cursor acc.

(** A deposit cell that holds exactly its 102 occupied bytes, a
    prepare-withdraw cell of a deposit made at block 1, and the state in
    which the holder-statistics scan starts, for the examples. *)
Definition sample_full_deposit : live_cell :=
  {| output := {| capacity := "0x25ff7a600"; lock := Some sample_lock;
                  type := Some DAO_TYPE |};
     output_data := "0x0000000000000000"; block_number := "0x1" |}.

Definition sample_prepare : live_cell :=
  {| output := {| capacity := "0x2e90edd000"; lock := Some sample_lock;
                  type := Some DAO_TYPE |};
     output_data := "0x0100000000000000"; block_number := "0x2" |}.

Definition sample_stats : UnclaimedStats.stats :=
  {| UnclaimedStats.unclaimedDeposit := 0; UnclaimedStats.unclaimedPrepare := 0;
     UnclaimedStats.cntDeposit := 0; UnclaimedStats.cntPrepare := 0;
     UnclaimedStats.unclaimedDepositCapacity := 0;
     UnclaimedStats.arCache := ∅; UnclaimedStats.tsCache := ∅;
     UnclaimedStats.depositAddrMinTs := ∅;
     UnclaimedStats.depositAddrSet := ∅; UnclaimedStats.prepareAddrSet := ∅;
     UnclaimedStats.totalAddrSet := ∅ |}.

(** The cells the by-kind scan counts: those with free capacity, as deposit
    or as prepare-withdraw cells. *)
Definition counted_deposit (c : live_cell) : bool :=
  (0 <? molecule_free c) && is_deposit c.

Definition counted_prepare (c : live_cell) : bool :=
  (0 <? molecule_free c) && negb (is_deposit c).

(** A node that serves two pages of one cell each, for the examples. *)
Definition sample_two_pages (cursor : option string) : result Dao.cells_page :=
  match cursor with
  | None =>
      Ok {| Dao.objects := Some [sample_deposit];
            Dao.last_cursor := Some "0x20"%string |}
  | Some _ =>
      Ok {| Dao.objects := Some [sample_prepare];
            Dao.last_cursor := Some "0x"%string |}
  end.

(** The invariant of the worker pool of [mapLimit] over an array of [len]
    elements: the indexes handed out are [0 .. min(i, len) - 1], a worker
    that awaits holds an index below [i] and below [len], and a worker has
    returned only after the counter has passed the end of the array. *)
Definition worker_ok (len : nat) (p : MapLimit.pool) (w : MapLimit.worker) : Prop :=
  match w with
  | MapLimit.Awaiting idx => (idx < len /\ idx < MapLimit.next p)%nat
  | MapLimit.Finished => (len < MapLimit.next p)%nat
  | _ => True
  end.

Definition pool_ok (len : nat) (p : MapLimit.pool) : Prop :=
  MapLimit.claimed p = seq 0 (Nat.min (MapLimit.next p) len)
  /\ Forall (worker_ok len p) (MapLimit.workers p).

(** What call [i] of a resolver may hold when it was made for key [k]: it is
    still on its way for [k], or it holds what the remote call gives for
    [k]. *)
Definition call_ok {V : Type} (fetch : string -> result V) (k : string)
    (c : Resolver.call (V:=V)) : Prop :=
  match c with
  | Resolver.Pending k' | Resolver.InFlight k' => k' = k
  | Resolver.Returned v => fetch k = Ok v
  | Resolver.Rejected e => fetch k = Err e
  end.

Definition entered {V : Type} (c : Resolver.call (V:=V)) : bool :=
  match c with
  | Resolver.Pending _ => false
  | _ => true
  end.

(** The invariant of a resolver serving the calls made for [keys]. *)
Definition world_ok {V : Type} (fetch : string -> result V) (keys : list string)
    (w : Resolver.world (V:=V)) : Prop :=
  Forall2 (call_ok fetch) keys (Resolver.calls w)
  /\ (forall k v, Resolver.cache w !! k = Some v -> fetch k = Ok v)
  /\ (length (Resolver.requests w)
      <= length (List.filter entered (Resolver.calls w)))%nat.

(** A remote call that answers for one key and fails for the others, for the
    examples. *)
Definition sample_fetch_one (k : string) : result Z :=
  if String.eqb k "0xaa" then Ok 10 else Err RpcFailure.

(** A transaction cache that holds nothing but answers of the node. *)
Definition tx_coherent (get_transaction : string -> result (option Settlement.tx_wrap))
    (cache : gmap string (option Settlement.tx_wrap)) : Prop :=
  forall k v, cache !! k = Some v -> get_transaction k = Ok v.

(** A prepare transaction confirmed in block 2 whose only output is the
    prepare-withdraw cell [sample_prepare], and the transaction that spends
    it, for the examples. *)
Definition sample_prepare_tx : Settlement.tx_wrap :=
  {| Settlement.transaction :=
       Some {| Settlement.inputs := Some [];
               Settlement.outputs := Some [output sample_prepare];
               Settlement.outputs_data := Some [output_data sample_prepare] |};
     Settlement.status_block_number := Some "0x2"%string |}.

Definition sample_withdraw_tx : Settlement.tx_wrap :=
  {| Settlement.transaction :=
       Some {| Settlement.inputs :=
                 Some [ {| Settlement.previous_output :=
                             Some {| Settlement.tx_hash := Some "0xp1"%string;
                                     Settlement.out_index := Some 0 |} |} ];
               Settlement.outputs :=
                 Some [ {| capacity := "0x30c693b498"; lock := Some sample_lock;
                           type := None |} ];
               Settlement.outputs_data := Some ["0x"%string] |};
     Settlement.status_block_number := Some "0x3"%string |}.

Definition sample_get_transaction (txHash : string)
  : result (option Settlement.tx_wrap) :=
  if String.eqb txHash "0xw1" then Ok (Some sample_withdraw_tx)
  else if String.eqb txHash "0xp1" then Ok (Some sample_prepare_tx)
  else Ok None.

Definition no_caches : Settlement.caches :=
  {| Settlement.txCache := ∅; Settlement.arCache := ∅ |}.

(** What the older phase-2 script adds to [totalReward] and to
    [withdraw2Txs] for a hash it hands to its callback. *)
Definition added_delta (txDelta : string -> result (option Z)) (txHash : string) : Z :=
  match txDelta txHash with
  | Ok (Some delta) => if 0 <? delta then delta else 0
  | _ => 0
  end.

Definition counted_tx (txDelta : string -> result (option Z)) (txHash : string) : Z :=
  match txDelta txHash with
  | Ok (Some _) => 1
  | _ => 0
  end.

(** The transaction that an index object lists as an input: its hash, read
    under the first spelling that is present, when its io type, read
    likewise, is ['input'] and the hash is not empty. *)
Definition listed_input (o : Withdraw2.tx_object) : option string :=
  let io := match Withdraw2.io_type o with
            | Some t => Some t
            | None => Withdraw2.ioType o
            end in
  let h := match Withdraw2.tx_hash o with
           | Some h => Some h
           | None => Withdraw2.txHash o
           end in
  match io, h with
  | Some t, Some h =>
      if String.eqb t "input" && negb (String.eqb h "") then Some h else None
  | _, _ => None
  end.

(** The objects of a run of pages, in the order the node serves them. *)
Definition all_objects (pages : list Withdraw2.tx_page) : list Withdraw2.tx_object :=
  flat_map (fun p => default [] (Withdraw2.objects p)) pages.

(** A page has objects; a page names a next page when it carries a cursor
    other than [''], ['0x'] and ['0x0']. *)
Definition has_objects (p : Withdraw2.tx_page) : Prop :=
  default [] (Withdraw2.objects p) <> [].

Definition names_next (p : Withdraw2.tx_page) : Prop :=
  exists c, Withdraw2.last_cursor p = Some c
            /\ c <> ""%string /\ c <> "0x"%string /\ c <> "0x0"%string.

(** The loop visits [pages] and no page of [rest] when the node answers
    [pages] and then [rest]: every page of [pages] has objects, each but
    the last names a next page, and either the last names none or what
    follows is no page with objects. *)
Definition visits (pages rest : list Withdraw2.tx_page) : Prop :=
  Forall has_objects pages
  /\ (forall i p, pages !! i = Some p -> (S i < length pages)%nat -> names_next p)
  /\ ((exists p, last pages = Some p /\ ~ names_next p)
      \/ match rest with
         | [] => True
         | q :: _ => ~ has_objects q
         end).

(** Earliest deposit times of two addresses, one of them after a tip time
    of 1000, for the examples. *)
Definition sample_minTs : gmap string Z :=
  {[ "a"%string := 400; "b"%string := 1200 ]}.

(** The responses of a batch in request order: the response to call [i]
    carries the id [i]. *)
Definition in_request_order (rs : list (option Z)) : list (Z * option Z) :=
  imap (fun i r => (Z.of_nat i, r)) rs.

(** An unsigned 64-bit integer. *)
Definition u64 (x : Z) : Prop := 0 <= x < 2 ^ 64.

(** The occupied capacity, in shannons, of a cell with a lock and a type
    script: 8 bytes for the capacity field, [32 + 1 + len(args)] for each
    script, and the data, as the corrected cell size model (C6) and the
    end-to-end scenario of the design text count them. *)
Definition occupied_shannons (lock_ type_ : script) (data : string) : Z :=
  (8 + (32 + 1 + byte_len (args lock_)) + (32 + 1 + byte_len (args type_))
   + byte_len data) * 100000000.

(** A field printed by the node: [0x], then an even number of hexadecimal
    digits. *)
Definition node_field (s : string) : bool := printed_field s && hex_field s.

(** What is added to a total for a reward: the reward when it is positive. *)
Definition when_positive (reward : Z) : Z := if 0 <? reward then reward else 0.

(** The deposit cell of the end-to-end scenario of the design text, created
    in block 1 of [sample_chain], with block 2 as the indexer tip: 102 CKB
    of capacity, a lock without arguments, 82 occupied bytes. *)
Definition scenario_lock : script :=
  {| code_hash := "0x9bd7e06f3ecf4be0f2fcd2188b23f1b9fcc88e5d4b65a8637b17723bbda3cce8";
     hash_type := "type"; args := "0x" |}.

Definition scenario_deposit : live_cell :=
  {| output := {| capacity := "0x25ff7a600"; lock := Some scenario_lock;
                  type := Some DAO_TYPE |};
     output_data := "0x0000000000000000"; block_number := "0x1" |}.

Definition scenario_tip : IndexerTip.answer :=
  {| IndexerTip.block_hash := "0xb2"; IndexerTip.block_number := "0x2" |}.

Definition scenario_get_header (hash : string) : result (option header) :=
  if String.eqb hash "0xb2" then Ok (Some (sample_chain 2)) else Ok None.

(** The DAO type script, as [isDaoTypeScript] is meant to tell it: the code
    hash and hash type of [DAO_TYPE], and no arguments under either
    spelling. *)
Definition dao_type_script (t : option script) : Prop :=
  exists s,
    t = Some s
    /\ code_hash s
       = "0x82d76d1b75fe2fd9a27dfbaa65a039221a380d76c926f378d3f81cf3e7e13f2e"%string
    /\ hash_type s = "type"%string
    /\ (args s = ""%string \/ args s = "0x"%string).

(** The cell an input spends, as the node has it: the output, and its data,
    at the index named by the input's [previous_output] in the transaction
    that [get_transaction] answers for the hash named there. *)
Definition spent_cell
    (get_transaction : string -> result (option Settlement.tx_wrap))
    (inp : Settlement.tx_input) (prevOut : cell_output) (prevData : string) : Prop :=
  exists op prevHash idx prevWrap ptx outs,
    Settlement.previous_output inp = Some op
    /\ Settlement.tx_hash op = Some prevHash /\ prevHash <> ""%string
    /\ Settlement.out_index op = Some idx /\ 0 <= idx
    /\ get_transaction prevHash = Ok (Some prevWrap)
    /\ Settlement.transaction prevWrap = Some ptx
    /\ Settlement.outputs ptx = Some outs
    /\ outs !! Z.to_nat idx = Some prevOut
    /\ default [] (Settlement.outputs_data ptx) !! Z.to_nat idx = Some prevData.

(** * Proofs *)

(** ** Arithmetic on BigInts *)

Lemma bigint_div_floor a b :
  0 <= a -> 0 < b -> bigint_div a b = Ok (a / b).
Proof.
  intros Ha Hb. unfold bigint_div.
  destruct (Z.eqb_spec b 0) as [->|_]; [lia|].
  now rewrite Z.quot_div_nonneg by lia.
Qed.

Lemma bigint_div_zero a : bigint_div a 0 = Err RangeError.
Proof. reflexivity. Qed.

(** ** Per-block secondary issuance *)

Section PerBlockSecondary.
Import MinerSecondary.

Let R := SECONDARY_EPOCH_REWARD.

Lemma reward_nonneg : 0 <= R.
Proof. subst R. unfold SECONDARY_EPOCH_REWARD. lia. Qed.

Lemma perBlockSecondary_formula L idx :
  0 < L ->
  perBlockSecondary L idx = Ok (R / L + (if idx <? R mod L then 1 else 0)).
Proof.
  intros HL. unfold perBlockSecondary. fold R.
  destruct (Z.eqb_spec L 0) as [->|_]; [lia|].
  rewrite Z.quot_div_nonneg, Z.rem_mod_nonneg by (auto using reward_nonneg; lia).
  destruct (idx <? R mod L); f_equal; lia.
Qed.

Lemma epoch_sum_prefix L n :
  0 < L ->
  epoch_sum L n = Ok (Z.of_nat n * (R / L) + Z.min (Z.of_nat n) (R mod L)).
Proof.
  intros HL. induction n as [|n IH].
  - simpl. f_equal. pose proof (Z.mod_pos_bound R L HL). lia.
  - cbn [epoch_sum]. rewrite IH, perBlockSecondary_formula by assumption.
    cbn. f_equal.
    destruct (Z.ltb_spec (Z.of_nat n) (R mod L)); lia.
Qed.

End PerBlockSecondary.

(** C2: for every epoch length [L > 0], [perBlockSecondary L index] is
    [floor(R / L) + (index < R mod L ? 1 : 0)] for the fixed epoch reward
    [R], and its sum over the indices [0 .. L-1] is exactly [R]. *)
Theorem C2_perBlockSecondary_sums_to_epoch_reward (L index : Z) :
  0 < L ->
  MinerSecondary.perBlockSecondary L index
    = Ok (MinerSecondary.SECONDARY_EPOCH_REWARD / L
          + (if index <? MinerSecondary.SECONDARY_EPOCH_REWARD mod L then 1 else 0))
  /\ epoch_sum L (Z.to_nat L) = Ok MinerSecondary.SECONDARY_EPOCH_REWARD.
Proof.
  intros HL. split.
  - now apply perBlockSecondary_formula.
  - rewrite epoch_sum_prefix by assumption.
    f_equal. rewrite Z2Nat.id by lia.
    pose proof (Z.mod_pos_bound MinerSecondary.SECONDARY_EPOCH_REWARD L HL).
    rewrite Z.min_r by lia.
    rewrite (Z.div_mod MinerSecondary.SECONDARY_EPOCH_REWARD L) at 3 by lia.
    lia.
Qed.

Lemma C2_witness_epoch_1800 :
  0 < 1800
  /\ MinerSecondary.perBlockSecondary 1800 0 = Ok 34094368341
  /\ epoch_sum 1800 (Z.to_nat 1800) = Ok MinerSecondary.SECONDARY_EPOCH_REWARD.
Proof.
  split; [lia|].
  exact (C2_perBlockSecondary_sums_to_epoch_reward 1800 0 eq_refl).
Defined.

(** ** The packed epoch field *)

Lemma testbit_above n m k :
  0 <= n < 2 ^ m -> 0 <= m <= k -> Z.testbit n k = false.
Proof.
  intros Hn Hk. rewrite <- (Z.mod_small n (2 ^ m)) by lia.
  apply Z.mod_pow2_bits_high. lia.
Qed.

Lemma land_low_mask e m : 0 <= m -> Z.land e (2 ^ m - 1) = e mod 2 ^ m.
Proof.
  intros. rewrite <- Z.land_ones by lia. f_equal. rewrite Z.ones_equiv. lia.
Qed.

(** Integers of at most 53 bits are doubles. *)
Lemma Number_exact n : Z.abs n < 2 ^ 53 -> Number n = n.
Proof.
  intros Hn. unfold Number. cbv zeta.
  destruct (Z.leb_spec (Z.log2 (Z.abs n) + 1) 53) as [_|Hbits]; [reflexivity|].
  exfalso. destruct (Z.eq_dec (Z.abs n) 0) as [H0|H0].
  - rewrite H0 in Hbits. cbn in Hbits. lia.
  - assert (Z.log2 (Z.abs n) < 53) by (apply Z.log2_lt_pow2; lia). lia.
Qed.

Lemma isFinite_exact n : Z.abs n < 2 ^ 53 -> isFinite n = true.
Proof.
  intros Hn. unfold isFinite, INFINITY. apply Z.ltb_lt.
  assert (2 ^ 53 < 2 ^ 1024) by (apply Z.pow_lt_mono_r; lia). lia.
Qed.

Lemma BigInt_of_Number_exact n : Z.abs n < 2 ^ 53 -> BigInt_of_Number n = Ok n.
Proof. intros Hn. unfold BigInt_of_Number. now rewrite isFinite_exact. Qed.

(** Beyond 53 bits the value is rounded, ties to the even significand, and
    from [2^1024 - 2^970] on it is [Infinity]. *)
Lemma Number_rounds :
  Number (2 ^ 53 + 1) = 2 ^ 53
  /\ Number (2 ^ 53 + 3) = 2 ^ 53 + 4
  /\ Number (- (2 ^ 53 + 1)) = - 2 ^ 53
  /\ Number (2 ^ 1024 - 2 ^ 970 - 1) = 2 ^ 1024 - 2 ^ 971
  /\ Number (2 ^ 1024 - 2 ^ 970) = INFINITY.
Proof. repeat split; vm_compute; reflexivity. Qed.

(** From [2^1024] on every BigInt reads as [Infinity]. *)
Lemma Number_overflow n : 2 ^ 1024 <= n -> Number n = INFINITY.
Proof.
  intros Hn. unfold Number. cbv zeta.
  assert (Hpos : 0 < n) by (pose proof (Z.pow_pos_nonneg 2 1024); lia).
  rewrite Z.abs_eq, Z.sgn_pos by lia.
  assert (Hlog : 1024 <= Z.log2 n) by (apply Z.log2_le_pow2; lia).
  destruct (Z.leb_spec (Z.log2 n + 1) 53); [lia|].
  set (sh := Z.log2 n + 1 - 53).
  set (q := Z.shiftr n sh).
  assert (Hq : 2 ^ 52 <= q).
  { unfold q. rewrite Z.shiftr_div_pow2 by lia.
    apply Z.div_le_lower_bound; [lia|].
    rewrite <- Z.pow_add_r by lia. replace (sh + 52) with (Z.log2 n) by lia.
    apply Z.log2_spec; lia. }
  match goal with
  | |- context [if ?b then q + 1 else q] => set (q' := if b then q + 1 else q)
  end.
  assert (Hq' : q <= q').
  { unfold q'. match goal with |- context [if ?b then _ else _] => destruct b end; lia. }
  rewrite Z.shiftl_mul_pow2 by lia.
  assert (2 ^ 1024 <= q' * 2 ^ sh).
  { replace 1024 with (52 + 972) by lia. rewrite Z.pow_add_r by lia.
    assert (2 ^ 972 <= 2 ^ sh) by (apply Z.pow_le_mono_r; lia).
    assert (0 < 2 ^ 972) by (apply Z.pow_pos_nonneg; lia).
    nia. }
  unfold INFINITY. lia.
Qed.

(** Below 93 bits the three fields of a packed epoch are read exactly. *)
Lemma unpackEpoch_exact e :
  0 <= e < 2 ^ 93 ->
  MinerSecondary.unpackEpoch e
  = {| MinerSecondary.number := Z.land e 16777215;
       MinerSecondary.index := Z.land (Z.shiftr e 24) 65535;
       MinerSecondary.length := Z.shiftr e 40 |}.
Proof.
  intros He. unfold MinerSecondary.unpackEpoch.
  change 16777215 with (2 ^ 24 - 1). change 65535 with (2 ^ 16 - 1).
  rewrite !land_low_mask by lia.
  pose proof (Z.mod_pos_bound e (2 ^ 24) ltac:(lia)).
  pose proof (Z.mod_pos_bound (Z.shiftr e 24) (2 ^ 16) ltac:(lia)).
  assert (0 <= Z.shiftr e 40 < 2 ^ 53).
  { rewrite Z.shiftr_div_pow2 by lia. split; [apply Z.div_pos; lia|].
    apply Z.div_lt_upper_bound; [lia|]. rewrite <- Z.pow_add_r by lia. lia. }
  rewrite !Number_exact by lia. reflexivity.
Qed.

Lemma pack_fields l i n :
  0 <= n < 2 ^ 24 -> 0 <= i < 2 ^ 16 -> 0 <= l ->
  {| MinerSecondary.number := Z.land (packEpoch l i n) 16777215;
     MinerSecondary.index := Z.land (Z.shiftr (packEpoch l i n) 24) 65535;
     MinerSecondary.length := Z.shiftr (packEpoch l i n) 40 |}
  = {| MinerSecondary.number := n; MinerSecondary.index := i;
       MinerSecondary.length := l |}.
Proof.
  intros Hn Hi Hl. unfold packEpoch.
  change 16777215 with (2 ^ 24 - 1). change 65535 with (2 ^ 16 - 1).
  rewrite !land_low_mask by lia.
  f_equal; apply Z.bits_inj'; intros k Hk.
  - destruct (Z.ltb_spec k 24).
    + rewrite Z.mod_pow2_bits_low by lia.
      rewrite !Z.lor_spec, !Z.shiftl_spec by lia.
      now rewrite !Z.testbit_neg_r by lia.
    + rewrite Z.mod_pow2_bits_high by lia.
      symmetry. apply (testbit_above n 24); lia.
  - destruct (Z.ltb_spec k 16).
    + rewrite Z.mod_pow2_bits_low, Z.shiftr_spec by lia.
      rewrite !Z.lor_spec, !Z.shiftl_spec by lia.
      rewrite (Z.testbit_neg_r l), (testbit_above n 24) by lia.
      replace (k + 24 - 24) with k by lia. now rewrite Bool.orb_false_r.
    + rewrite Z.mod_pow2_bits_high by lia.
      symmetry. apply (testbit_above i 16); lia.
  - rewrite Z.shiftr_spec by lia.
    rewrite !Z.lor_spec, !Z.shiftl_spec by lia.
    rewrite (testbit_above n 24), (testbit_above i 16) by lia.
    replace (k + 40 - 40) with k by lia. now rewrite !Bool.orb_false_r.
Qed.

Lemma unpack_pack l i n :
  0 <= n < 2 ^ 24 -> 0 <= i < 2 ^ 16 -> 0 <= l < 2 ^ 53 ->
  MinerSecondary.unpackEpoch (packEpoch l i n)
  = {| MinerSecondary.number := n; MinerSecondary.index := i;
       MinerSecondary.length := l |}.
Proof.
  intros Hn Hi Hl. unfold MinerSecondary.unpackEpoch.
  pose proof (pack_fields l i n Hn Hi ltac:(lia)) as Hf.
  injection Hf as -> -> ->. rewrite !Number_exact by lia. reflexivity.
Qed.

(** C5: for every [number < 2^24], [index < 2^16] and [0 < length < 2^24],
    decoding the packed value [(length << 40) | (index << 24) | number]
    gives back exactly [{number, index, length}], also through
    [parseEpochPacked] on any string that [BigInt] reads as that value. *)
Theorem C5_epoch_decode_after_encode (number index length : Z) (epochHex : string) :
  0 <= number < 2 ^ 24 ->
  0 <= index < 2 ^ 16 ->
  0 < length < 2 ^ 24 ->
  BigInt epochHex = Ok (packEpoch length index number) ->
  MinerSecondary.unpackEpoch (packEpoch length index number)
    = {| MinerSecondary.number := number; MinerSecondary.index := index;
         MinerSecondary.length := length |}
  /\ MinerSecondary.parseEpochPacked epochHex
    = Ok {| MinerSecondary.number := number; MinerSecondary.index := index;
            MinerSecondary.length := length |}.
Proof.
  intros Hn Hi Hl Hbig.
  assert (Hup := unpack_pack length index number Hn Hi ltac:(lia)).
  split; [exact Hup|].
  unfold MinerSecondary.parseEpochPacked. rewrite Hbig. cbn. now rewrite Hup.
Qed.

Lemma C5_witness_epoch_50 :
  MinerSecondary.parseEpochPacked "0x7080291000032"
  = Ok {| MinerSecondary.number := 50; MinerSecondary.index := 657;
          MinerSecondary.length := 1800 |}.
Proof.
  apply (C5_epoch_decode_after_encode 50 657 1800 "0x7080291000032");
    [lia | lia | lia | reflexivity].
Defined.

(** ** Hexadecimal decoding *)

Lemma string_pair_ind (P : string -> Prop) :
  P EmptyString ->
  (forall c, P (String c EmptyString)) ->
  (forall a b s, P s -> P (String a (String b s))) ->
  forall s, P s.
Proof.
  intros H0 H1 H2 s.
  enough (P s /\ forall c, P (String c s)) by tauto.
  induction s as [|a s [IH1 IH2]]; split; auto.
Qed.

Lemma unhex_range c d : unhex c = Some d -> 0 <= d < 16.
Proof.
  unfold unhex. intros H.
  repeat match type of H with
  | (if ?b then _ else _) = _ => destruct b eqn:?
  end; inversion H; lia.
Qed.

Lemma Buffer_from_hex_bytes s : Forall is_byte (Buffer_from_hex s).
Proof.
  induction s as [|c|a b s IH] using string_pair_ind; cbn.
  - constructor.
  - destruct (unhex c); constructor.
  - destruct (unhex a) as [x|] eqn:Hx; [|constructor].
    destruct (unhex b) as [y|] eqn:Hy; [|constructor].
    constructor; [|assumption].
    apply unhex_range in Hx, Hy. unfold is_byte. lia.
Qed.

Lemma hex_digits_cons c s :
  hex_digits (String c s) = true -> (exists d, unhex c = Some d) /\ hex_digits s = true.
Proof.
  cbn. intros [H1 H2]%andb_prop. split; [|assumption].
  apply bool_decide_eq_true in H1. destruct H1 as [d Hd]. eauto.
Qed.

Lemma Buffer_from_hex_length s :
  hex_digits s = true ->
  length (Buffer_from_hex s) = (String.length s / 2)%nat.
Proof.
  induction s as [|c|a b s IH] using string_pair_ind; intros H.
  - reflexivity.
  - cbn. destruct (unhex c); reflexivity.
  - apply hex_digits_cons in H as [[x Hx] H].
    apply hex_digits_cons in H as [[y Hy] H].
    cbn [Buffer_from_hex]. rewrite Hx, Hy. cbn [length String.length].
    rewrite IH by assumption.
    change (S (S (String.length s))) with (1 * 2 + String.length s)%nat.
    rewrite Nat.div_add_l by lia. lia.
Qed.

Lemma Buffer_from_hex_slice_from a s :
  hex_digits s = true ->
  Buffer_from_hex (slice_from (2 * a) s) = skipn a (Buffer_from_hex s).
Proof.
  revert s. induction a as [|a IH]; intros s H; [reflexivity|].
  replace (2 * S a)%nat with (S (S (2 * a))) by lia.
  destruct s as [|x [|y s]].
  - reflexivity.
  - cbn. destruct (2 * a)%nat; cbn; destruct (unhex x); reflexivity.
  - apply hex_digits_cons in H as [[dx Hx] H].
    apply hex_digits_cons in H as [[dy Hy] H].
    cbn [slice_from Buffer_from_hex]. rewrite Hx, Hy. cbn [skipn].
    now apply IH.
Qed.

Lemma Buffer_from_hex_substring n s :
  hex_digits s = true ->
  Buffer_from_hex (substring 0 (2 * n) s) = firstn n (Buffer_from_hex s).
Proof.
  revert s. induction n as [|n IH]; intros s H.
  - cbn. destruct s; reflexivity.
  - replace (2 * S n)%nat with (S (S (2 * n))) by lia.
    destruct s as [|x [|y s]].
    + reflexivity.
    + cbn. destruct (2 * n)%nat; cbn; destruct (unhex x); reflexivity.
    + apply hex_digits_cons in H as [[dx Hx] H].
      apply hex_digits_cons in H as [[dy Hy] H].
      cbn [substring Buffer_from_hex]. rewrite Hx, Hy. cbn [firstn].
      f_equal. now apply IH.
Qed.

Lemma substring_slice_from a n s :
  substring a n s = substring 0 n (slice_from a s).
Proof.
  revert s. induction a as [|a IH]; intros s; [reflexivity|].
  destruct s as [|c s]; cbn.
  - destruct n; reflexivity.
  - apply IH.
Qed.

Lemma hex_digits_slice_from a s :
  hex_digits s = true -> hex_digits (slice_from a s) = true.
Proof.
  revert s. induction a as [|a IH]; intros s H; [assumption|].
  destruct s as [|c s]; [reflexivity|].
  apply hex_digits_cons in H as [_ H]. cbn. now apply IH.
Qed.

Lemma Buffer_from_hex_slice a n s :
  hex_digits s = true ->
  Buffer_from_hex (slice (2 * a) (2 * (a + n)) s)
  = firstn n (skipn a (Buffer_from_hex s)).
Proof.
  intros H. unfold slice.
  replace (2 * (a + n) - 2 * a)%nat with (2 * n)%nat by lia.
  rewrite substring_slice_from, Buffer_from_hex_substring
    by now apply hex_digits_slice_from.
  now rewrite Buffer_from_hex_slice_from.
Qed.

Lemma lor_shiftl_add x b k :
  0 <= k -> 0 <= x < 2 ^ k -> 0 <= b ->
  Z.lor x (Z.shiftl b k) = x + b * 2 ^ k.
Proof.
  intros Hk Hx Hb.
  assert (Hland : Z.land x (Z.shiftl b k) = 0).
  { apply Z.bits_inj'. intros j Hj. rewrite Z.land_spec, Z.bits_0.
    destruct (Z.ltb_spec j k).
    - rewrite Z.shiftl_spec_low by lia. apply Bool.andb_false_r.
    - rewrite (testbit_above x k) by lia. reflexivity. }
  rewrite <- Z.lxor_lor by assumption.
  rewrite <- Z.add_nocarry_lxor by assumption.
  now rewrite Z.shiftl_mul_pow2 by lia.
Qed.

Lemma le_value_bound bs :
  Forall is_byte bs -> 0 <= le_value bs < 2 ^ (8 * Z.of_nat (length bs)).
Proof.
  induction 1 as [|b bs Hb _ IH]; cbn [le_value length].
  - cbn. lia.
  - unfold is_byte in Hb.
    replace (8 * Z.of_nat (S (length bs))) with (8 + 8 * Z.of_nat (length bs)) by lia.
    rewrite Z.pow_add_r by lia. change (2 ^ 8) with 256. nia.
Qed.

Lemma u64le_loop_value buf n i x :
  Forall is_byte buf ->
  (i + n <= length buf)%nat ->
  0 <= x < 2 ^ (8 * Z.of_nat i) ->
  MinerSecondary.u64le_loop buf i n x
  = Ok (x + 2 ^ (8 * Z.of_nat i) * le_value (firstn n (skipn i buf))).
Proof.
  intros Hbuf. revert i x. induction n as [|n IH]; intros i x Hlen Hx.
  - cbn [MinerSecondary.u64le_loop firstn le_value].
    now rewrite Z.mul_0_r, Z.add_0_r.
  - cbn [MinerSecondary.u64le_loop].
    destruct (nth_error buf i) as [b|] eqn:Hb.
    2:{ apply nth_error_None in Hb. lia. }
    assert (Hbyte : is_byte b).
    { rewrite Forall_forall in Hbuf. apply Hbuf. apply list_elem_of_In.
      eapply nth_error_In; eauto. }
    unfold is_byte in Hbyte.
    rewrite lor_shiftl_add by lia.
    assert (Hpow : 2 ^ (8 * Z.of_nat (S i)) = 256 * 2 ^ (8 * Z.of_nat i)).
    { replace (8 * Z.of_nat (S i)) with (8 + 8 * Z.of_nat i) by lia.
      now rewrite Z.pow_add_r by lia. }
    assert (Hx' : 0 <= x + b * 2 ^ (8 * Z.of_nat i) < 2 ^ (8 * Z.of_nat (S i))).
    { rewrite Hpow.
      assert (b * 2 ^ (8 * Z.of_nat i) <= 255 * 2 ^ (8 * Z.of_nat i))
        by (apply Z.mul_le_mono_nonneg_r; lia).
      assert (0 <= b * 2 ^ (8 * Z.of_nat i)) by (apply Z.mul_nonneg_nonneg; lia).
      lia. }
    rewrite IH by (assumption || lia).
    f_equal.
    assert (Hskip : skipn i buf = b :: skipn (S i) buf).
    { clear -Hb. revert buf Hb.
      induction i as [|i IHi]; intros [|c buf] Hb; try discriminate.
      - cbn in Hb. injection Hb as ->. reflexivity.
      - cbn [skipn]. apply (IHi buf Hb). }
    rewrite Hskip. cbn [firstn le_value]. rewrite Hpow. ring.
Qed.

Lemma unhex_hex_digit d : 0 <= d < 16 -> unhex (hex_digit d) = Some d.
Proof.
  intros Hd.
  assert (d = 0 \/ d = 1 \/ d = 2 \/ d = 3 \/ d = 4 \/ d = 5 \/ d = 6 \/ d = 7
          \/ d = 8 \/ d = 9 \/ d = 10 \/ d = 11 \/ d = 12 \/ d = 13 \/ d = 14
          \/ d = 15) as Hcases by lia.
  repeat destruct Hcases as [->|Hcases]; try reflexivity. now subst d.
Qed.

Lemma hex_of_bytes_decodes bs :
  Forall is_byte bs ->
  hex_digits (hex_of_bytes bs) = true
  /\ String.length (hex_of_bytes bs) = (2 * length bs)%nat
  /\ Buffer_from_hex (hex_of_bytes bs) = bs.
Proof.
  induction 1 as [|b bs Hb _ (IHd & IHl & IHb)]; [repeat split|].
  unfold is_byte in Hb.
  assert (Hhi : 0 <= b / 16 < 16)
    by (split; [apply Z.div_pos | apply Z.div_lt_upper_bound]; lia).
  assert (Hlo : 0 <= b mod 16 < 16) by (apply Z.mod_pos_bound; lia).
  cbn [hex_of_bytes hex_digits Buffer_from_hex String.length length].
  rewrite !unhex_hex_digit by assumption.
  rewrite IHd, IHl, IHb. repeat split.
  - lia.
  - f_equal. rewrite (Z.div_mod b 16) at 3 by lia. lia.
Qed.


(** ** The accounting field *)

Lemma u64leFromHex16_value s :
  hex_digits s = true -> (16 <= String.length s)%nat ->
  MinerSecondary.u64leFromHex16 s = Ok (u64_at 0 (Buffer_from_hex s)).
Proof.
  intros Hs Hlen. unfold MinerSecondary.u64leFromHex16.
  rewrite u64le_loop_value.
  - cbn [Z.of_nat]. change (2 ^ (8 * 0)) with 1. now rewrite Z.mul_1_l.
  - apply Buffer_from_hex_bytes.
  - rewrite Buffer_from_hex_length by assumption.
    assert (16 / 2 <= String.length s / 2)%nat by (apply Nat.Div0.div_le_mono; lia).
    change (16 / 2)%nat with 8%nat in *. lia.
  - cbn. lia.
Qed.

Lemma substring_length a n s :
  (a + n <= String.length s)%nat -> String.length (substring a n s) = n.
Proof.
  revert n s. induction a as [|a IHa]; intros n s.
  - revert s. induction n as [|n IHn]; intros [|c s] H; cbn in *; try lia.
    f_equal. apply IHn. lia.
  - destruct s as [|c s]; cbn; intros H; [lia|]. apply IHa. lia.
Qed.

Lemma hex_digits_substring a n s :
  hex_digits s = true -> hex_digits (substring a n s) = true.
Proof.
  intros H. rewrite substring_slice_from.
  apply (hex_digits_slice_from a) in H. revert H.
  generalize (slice_from a s). clear. intros s. revert s.
  induction n as [|n IH]; intros [|c s] H; try reflexivity.
  apply andb_prop in H as [H1 H2]. cbn [substring hex_digits].
  rewrite H1. cbn. now apply IH.
Qed.

Lemma parseDao_rejects daoHex :
  String.length (strip0x daoHex) <> 64%nat ->
  MinerSecondary.parseDao daoHex = Err (Thrown "dao field must be 32 bytes").
Proof.
  intros H. unfold MinerSecondary.parseDao. fold (strip0x daoHex).
  destruct (Nat.eqb_spec (String.length (strip0x daoHex)) 64); [contradiction|reflexivity].
Qed.

Lemma parseDao_value daoHex :
  String.length (strip0x daoHex) = 64%nat ->
  hex_digits (strip0x daoHex) = true ->
  MinerSecondary.parseDao daoHex
  = Ok {| MinerSecondary.C := u64_at 0 (Buffer_from_hex (strip0x daoHex));
          MinerSecondary.U := u64_at 24 (Buffer_from_hex (strip0x daoHex)) |}.
Proof.
  intros Hlen Hhex. unfold MinerSecondary.parseDao. fold (strip0x daoHex).
  rewrite Hlen. cbn [Nat.eqb negb].
  set (h := strip0x daoHex) in *.
  rewrite !u64leFromHex16_value;
    try (apply hex_digits_substring; assumption);
    try (unfold slice; rewrite substring_length; cbn; lia).
  cbn [mbind result_bind JS.bind]. f_equal.
  change (0 * 16)%nat with (2 * 0)%nat. change ((0 + 1) * 16)%nat with (2 * (0 + 8))%nat.
  change (3 * 16)%nat with (2 * 24)%nat. change ((3 + 1) * 16)%nat with (2 * (24 + 8))%nat.
  rewrite !Buffer_from_hex_slice by assumption.
  unfold u64_at. now rewrite !skipn_O, !firstn_firstn.
Qed.


Lemma readBigUInt64LE_value buf o :
  (o + 8 <= length buf)%nat -> readBigUInt64LE buf o = Ok (u64_at o buf).
Proof.
  intros H. unfold readBigUInt64LE, u64_at.
  rewrite length_firstn, length_skipn.
  replace (Nat.min 8 (length buf - o)) with 8%nat by lia. reflexivity.
Qed.

Lemma readBigUInt64LE_short buf o :
  (length buf < o + 8)%nat -> readBigUInt64LE buf o = Err RangeError.
Proof.
  intros H. unfold readBigUInt64LE.
  rewrite length_firstn, length_skipn.
  destruct (Nat.eqb_spec (Nat.min 8 (length buf - o)) 8); [lia|reflexivity].
Qed.

Lemma u64_at_nonneg o bs : Forall is_byte bs -> 0 <= u64_at o bs.
Proof.
  intros H. unfold u64_at.
  apply le_value_bound. apply Forall_take, Forall_drop, H.
Qed.

Section ScanProof.
Import MinerSecondary MinerSecondaryScan.

Variable chain : Z -> header.
Variables CONCURRENCY WINDOW_MULT : Z.
Hypothesis workers : 1 <= CONCURRENCY.

Local Abbreviation node := (fun n : Z => Ok (Some (chain n))).

Lemma block_step_payout i total :
  payable chain i = true ->
  block_step {| prevHeader := Some (chain (i - 1)); totalMinerSecondary := total |}
             (Some (chain i))
  = Ok (lagged_payout chain i,
        {| prevHeader := Some (chain i);
           totalMinerSecondary := total + lagged_payout chain i |}).
Proof.
  unfold payable, lagged_payout, block_step. cbn [prevHeader totalMinerSecondary field].
  intros H.
  apply andb_prop in H as [H Hep]. apply andb_prop in H as [H HC].
  apply andb_prop in H as [Hlen Hhex].
  apply Nat.eqb_eq in Hlen. apply Z.ltb_lt in HC.
  destruct (BigInt (epoch (chain i))) as [e|] eqn:He; [|discriminate].
  apply andb_prop in Hep as [Hep HL]. apply andb_prop in Hep as [He0 He64].
  apply Z.leb_le in He0. apply Z.ltb_lt in He64, HL. unfold epoch_length in HL.
  assert (2 ^ 64 < 2 ^ 93) by (apply Z.pow_lt_mono_r; lia).
  cbn [mbind result_bind JS.bind].
  rewrite parseDao_value by assumption.
  cbn [mbind result_bind JS.bind]. unfold parseEpochPacked. rewrite He.
  cbn [mbind result_bind JS.bind]. rewrite unpackEpoch_exact by lia.
  cbn [mbind result_bind JS.bind length index].
  change 65535 with (2 ^ 16 - 1). rewrite land_low_mask by lia.
  rewrite !Z.shiftr_div_pow2 by lia. fold (epoch_length e) (epoch_index e).
  assert (HL' : 0 < epoch_length e < 2 ^ 53).
  { unfold epoch_length. split; [assumption|].
    apply Z.div_lt_upper_bound; [lia|]. rewrite <- Z.pow_add_r by lia. lia. }
  rewrite isFinite_exact by lia. cbn [negb orb].
  destruct (Z.leb_spec (epoch_length e) 0); [lia|].
  rewrite perBlockSecondary_formula by lia.
  cbn [mbind result_bind JS.bind C U].
  rewrite bigint_div_floor; [reflexivity| |lia].
  apply Z.mul_nonneg_nonneg.
  - pose proof reward_nonneg.
    assert (0 <= SECONDARY_EPOCH_REWARD / epoch_length e) by (apply Z.div_pos; lia).
    destruct (_ <? _); lia.
  - apply u64_at_nonneg, Buffer_from_hex_bytes.
Qed.

Lemma fetch_window_chain from count :
  fetch_window node from count
  = Ok (map (fun k => Some (chain (from + Z.of_nat k))) (seq 0 count)).
Proof.
  revert from. induction count as [|count IH]; intros from; [reflexivity|].
  cbn [fetch_window mbind result_bind JS.bind].
  rewrite IH. cbn [mbind result_bind JS.bind seq map].
  rewrite <- seq_shift, map_map. cbn [Z.of_nat]. rewrite Z.add_0_r.
  do 2 f_equal. apply map_ext. intros k.
  replace (from + 1 + Z.of_nat k) with (from + Z.of_nat (S k)) by lia. reflexivity.
Qed.

Lemma sum_from_app f from n m :
  sum_from f from (n + m) = sum_from f from n + sum_from f (from + Z.of_nat n) m.
Proof.
  revert from. induction n as [|n IH]; intros from.
  - cbn [Nat.add sum_from Z.of_nat]. now rewrite Z.add_0_r.
  - cbn [Nat.add sum_from]. rewrite IH.
    replace (from + 1 + Z.of_nat n) with (from + Z.of_nat (S n)) by lia. lia.
Qed.

Lemma window_loop_payouts count from total :
  (forall i, from <= i < from + Z.of_nat count -> payable chain i = true) ->
  window_loop (map (fun k => Some (chain (from + Z.of_nat k))) (seq 0 count))
    {| prevHeader := Some (chain (from - 1)); totalMinerSecondary := total |}
  = Ok {| prevHeader := Some (chain (from + Z.of_nat count - 1));
          totalMinerSecondary := total + sum_from (lagged_payout chain) from count |}.
Proof.
  revert from total. induction count as [|count IH]; intros from total Hok.
  - cbn [seq map window_loop sum_from Z.of_nat].
    now rewrite !Z.add_0_r.
  - cbn [seq map window_loop Z.of_nat]. rewrite Z.add_0_r.
    rewrite block_step_payout by (apply Hok; lia).
    cbn [mbind result_bind JS.bind].
    rewrite <- seq_shift, map_map.
    rewrite (map_ext _ (fun k => Some (chain (from + 1 + Z.of_nat k)))).
    2:{ intros k. do 2 f_equal. lia. }
    replace (chain from) with (chain (from + 1 - 1)) by (f_equal; lia).
    rewrite IH by (intros; apply Hok; lia).
    cbn [sum_from].
    replace (from + 1 + Z.of_nat count - 1) with (from + Z.of_nat (S count) - 1) by lia.
    now rewrite Z.add_assoc.
Qed.

Lemma scan_loop_total end_ fuel cur total :
  cur <= end_ + 1 ->
  (Z.to_nat (end_ + 1 - cur) <= fuel)%nat ->
  (forall i, cur <= i <= end_ -> payable chain i = true) ->
  scan_loop node CONCURRENCY WINDOW_MULT fuel cur end_
    {| prevHeader := Some (chain (cur - 1)); totalMinerSecondary := total |}
  = Some (Ok {| prevHeader := Some (chain end_);
                totalMinerSecondary :=
                  total + sum_from (lagged_payout chain) cur (Z.to_nat (end_ + 1 - cur)) |}).
Proof.
  revert cur total. induction fuel as [|fuel IH]; intros cur total Hcur Hfuel Hok.
  - cbn [scan_loop]. destruct (Z.leb_spec cur end_); [lia|].
    replace cur with (end_ + 1) by lia. rewrite Z.sub_diag, Z.add_simpl_r.
    cbn [Z.to_nat sum_from]. now rewrite Z.add_0_r.
  - cbn [scan_loop]. destruct (Z.leb_spec cur end_) as [Hle|Hgt].
    2:{ replace cur with (end_ + 1) by lia. rewrite Z.sub_diag, Z.add_simpl_r.
        cbn [Z.to_nat sum_from]. now rewrite Z.add_0_r. }
    pose proof (Z.le_max_l 1 (CONCURRENCY * WINDOW_MULT)) as Hws.
    fold (windowSize CONCURRENCY WINDOW_MULT) in Hws |- *.
    set (winTo := Z.min end_ (cur + windowSize CONCURRENCY WINDOW_MULT - 1)).
    assert (HwinTo : cur <= winTo <= end_) by (unfold winTo; lia).
    unfold run_workers. destruct (Z.ltb_spec CONCURRENCY 1); [lia|].
    rewrite fetch_window_chain. cbn [mbind result_bind JS.bind].
    rewrite window_loop_payouts by (intros; apply Hok; lia).
    replace (cur + Z.of_nat (Z.to_nat (winTo - cur + 1)) - 1) with (winTo + 1 - 1) by lia.
    rewrite IH by (try lia; intros; apply Hok; lia).
    replace (Z.to_nat (end_ + 1 - cur))
      with (Z.to_nat (winTo - cur + 1) + Z.to_nat (end_ + 1 - (winTo + 1)))%nat by lia.
    rewrite sum_from_app.
    replace (cur + Z.of_nat (Z.to_nat (winTo - cur + 1))) with (winTo + 1) by lia.
    now rewrite Z.add_assoc.
Qed.
End ScanProof.


Lemma strip0x_prefixed h : strip0x ("0x" ++ h) = h.
Proof. destruct h; reflexivity. Qed.

Lemma parseDaoAR_prefixed h :
  hex_digits h = true ->
  Dao.parseDaoAR ("0x" ++ h)
  = if (32 <=? String.length h)%nat then Ok (u64_at 8 (Buffer_from_hex h))
    else Err RangeError.
Proof.
  intros Hh. unfold Dao.parseDaoAR.
  change (slice_from 2 ("0x" ++ h)) with h.
  pose proof (Buffer_from_hex_length h Hh) as Hlen.
  destruct (Nat.leb_spec 32 (String.length h)).
  - apply readBigUInt64LE_value. rewrite Hlen.
    assert (32 / 2 <= String.length h / 2)%nat by (apply Nat.Div0.div_le_mono; lia).
    change (32 / 2)%nat with 16%nat in *. lia.
  - apply readBigUInt64LE_short. rewrite Hlen.
    assert (String.length h / 2 < 16)%nat by (apply Nat.Div0.div_lt_upper_bound; lia).
    lia.
Qed.

Lemma parseDaoS_prefixed h :
  hex_digits h = true ->
  Dao.parseDaoS ("0x" ++ h)
  = if (48 <=? String.length h)%nat then Ok (u64_at 16 (Buffer_from_hex h))
    else Err RangeError.
Proof.
  intros Hh. unfold Dao.parseDaoS.
  change (slice_from 2 ("0x" ++ h)) with h.
  pose proof (Buffer_from_hex_length h Hh) as Hlen.
  destruct (Nat.leb_spec 48 (String.length h)).
  - apply readBigUInt64LE_value. rewrite Hlen.
    assert (48 / 2 <= String.length h / 2)%nat by (apply Nat.Div0.div_le_mono; lia).
    change (48 / 2)%nat with 24%nat in *. lia.
  - apply readBigUInt64LE_short. rewrite Hlen.
    assert (String.length h / 2 < 24)%nat by (apply Nat.Div0.div_lt_upper_bound; lia).
    lia.
Qed.

(** On the 32 bytes of an accounting field as the node prints them, the
    three decoders read the integers at byte offsets 0, 8, 16 and 24. *)
Lemma decoders_on_32_bytes bs :
  Forall is_byte bs -> length bs = 32%nat ->
  MinerSecondary.parseDao ("0x" ++ hex_of_bytes bs)
  = Ok {| MinerSecondary.C := u64_at 0 bs; MinerSecondary.U := u64_at 24 bs |}
  /\ Dao.parseDaoAR ("0x" ++ hex_of_bytes bs) = Ok (u64_at 8 bs)
  /\ Dao.parseDaoS ("0x" ++ hex_of_bytes bs) = Ok (u64_at 16 bs).
Proof.
  intros Hbs Hlen. destruct (hex_of_bytes_decodes bs Hbs) as (Hd & Hl & Hb).
  rewrite Hlen in Hl. change (2 * 32)%nat with 64%nat in Hl.
  rewrite parseDaoAR_prefixed, parseDaoS_prefixed by assumption.
  rewrite Hl, Hb. split; [|split; reflexivity].
  rewrite parseDao_value; rewrite strip0x_prefixed; try assumption.
  now rewrite Hb.
Qed.

(** C7, as the code has it: on a field of hexadecimal digits after [0x],
    [parseDao] fails unless there are exactly 32 bytes, and on 32 bytes returns
    [C] and [U], the little-endian integers at byte offsets 0 and 24, while
    [parseDaoAR] and [parseDaoS] return the integers at offsets 8 and 16.
    The latter two check no length: they fail only when fewer than 16
    (resp. 24) bytes are present and decode any longer field. *)
Theorem C7_accounting_field_decoders (h : string) :
  hex_digits h = true ->
  (String.length h <> 64%nat ->
     MinerSecondary.parseDao ("0x" ++ h) = Err (Thrown "dao field must be 32 bytes"))
  /\ (String.length h = 64%nat ->
        MinerSecondary.parseDao ("0x" ++ h)
        = Ok {| MinerSecondary.C := u64_at 0 (Buffer_from_hex h);
                MinerSecondary.U := u64_at 24 (Buffer_from_hex h) |}
        /\ Dao.parseDaoAR ("0x" ++ h) = Ok (u64_at 8 (Buffer_from_hex h))
        /\ Dao.parseDaoS ("0x" ++ h) = Ok (u64_at 16 (Buffer_from_hex h)))
  /\ Dao.parseDaoAR ("0x" ++ h)
     = (if (32 <=? String.length h)%nat then Ok (u64_at 8 (Buffer_from_hex h))
        else Err RangeError)
  /\ Dao.parseDaoS ("0x" ++ h)
     = (if (48 <=? String.length h)%nat then Ok (u64_at 16 (Buffer_from_hex h))
        else Err RangeError).
Proof.
  intros Hh.
  pose proof (parseDaoAR_prefixed h Hh) as HAR.
  pose proof (parseDaoS_prefixed h Hh) as HS.
  repeat split; try assumption.
  - intros Hlen. apply parseDao_rejects. now rewrite strip0x_prefixed.
  - rewrite <- (strip0x_prefixed h) at 2 3.
    apply parseDao_value; now rewrite strip0x_prefixed.
  - rewrite HAR, H. reflexivity.
  - rewrite HS, H. reflexivity.
Qed.

Lemma C7_witness_well_formed_field :
  MinerSecondary.parseDao
    "0x00e40b54020000000000c16ff2862300000000000000000000a0724e18090000"
  = Ok {| MinerSecondary.C := 10000000000; MinerSecondary.U := 10000000000000 |}
  /\ Dao.parseDaoAR
       "0x00e40b54020000000000c16ff2862300000000000000000000a0724e18090000"
     = Ok 10000000000000000
  /\ Dao.parseDaoS
       "0x00e40b54020000000000c16ff2862300000000000000000000a0724e18090000"
     = Ok 0.
Proof.
  destruct (C7_accounting_field_decoders
              "00e40b54020000000000c16ff2862300000000000000000000a0724e18090000"
              eq_refl) as (_ & Hfield & _).
  exact (Hfield eq_refl).
Defined.

(** A 40-byte field is decoded by [parseDaoAR] and [parseDaoS] instead of
    being rejected. *)
Lemma C7_counterexample_long_field_is_decoded :
  String.length
    "000000000000000001000000000000000200000000000000030000000000000004000000000000ff"
  = 80%nat
  /\ Dao.parseDaoAR
       "0x000000000000000001000000000000000200000000000000030000000000000004000000000000ff"
     = Ok 1
  /\ Dao.parseDaoS
       "0x000000000000000001000000000000000200000000000000030000000000000004000000000000ff"
     = Ok 2.
Proof. repeat split. Qed.




(** ** Occupied capacity *)

Lemma hexBytesLen_byte_len hex :
  hex_field hex = true -> Capacity.hexBytesLen hex = byte_len hex.
Proof.
  unfold hex_field, Capacity.hexBytesLen, byte_len. intros H.
  rewrite Buffer_from_hex_length by assumption.
  rewrite Nat2Z.inj_div. fold (strip0x hex).
  destruct (String.eqb_spec hex "") as [->|_]; [reflexivity|].
  destruct (String.eqb_spec hex "0x") as [->|_]; reflexivity.
Qed.

Lemma or_0x_byte_len a : byte_len (or_0x a) = byte_len a.
Proof. unfold or_0x. destruct (String.eqb_spec a "") as [->|_]; reflexivity. Qed.

Lemma or_0x_hex_field a : hex_field a = true -> hex_field (or_0x a) = true.
Proof. unfold or_0x. destruct (String.eqb_spec a "") as [->|_]; auto. Qed.

Lemma scriptBytesForOccupied_charge sc :
  hex_field (args sc) = true ->
  Capacity.scriptBytesForOccupied (Some sc) = 32 + 1 + byte_len (args sc).
Proof.
  intros H. cbn [Capacity.scriptBytesForOccupied].
  now rewrite hexBytesLen_byte_len, or_0x_byte_len by now apply or_0x_hex_field.
Qed.

(** C6, as the code has it: for a cell whose hexadecimal fields are well
    formed, [occupiedBytes] is [8 + (32 + 1 + len(lock args)) + t + len(data)]
    where [t] is [0] without a type script and [32 + 1 + len(type args)] with
    one: a type script is charged like the lock script, with no extra byte. *)
Theorem C6_occupiedBytes_charges (cap : string) (lock_ : script)
    (type_ : option script) (data : string) :
  hex_field (args lock_) = true ->
  from_option (fun t => hex_field (args t)) true type_ = true ->
  hex_field data = true ->
  Capacity.occupiedBytes {| capacity := cap; lock := Some lock_; type := type_ |} data
  = 8 + (32 + 1 + byte_len (args lock_))
    + match type_ with
      | None => 0
      | Some t => 32 + 1 + byte_len (args t)
      end
    + byte_len data.
Proof.
  intros Hlock Htype Hdata. unfold Capacity.occupiedBytes. cbn [lock type].
  rewrite scriptBytesForOccupied_charge, hexBytesLen_byte_len by assumption.
  destruct type_ as [t|]; [|reflexivity].
  now rewrite scriptBytesForOccupied_charge by assumption.
Qed.

Lemma C6_witness_dao_cell_is_102_bytes :
  Capacity.occupiedBytes (output sample_deposit) (output_data sample_deposit) = 102.
Proof.
  exact (C6_occupiedBytes_charges "0x2e90edd000" sample_lock (Some DAO_TYPE)
           "0x0000000000000000" eq_refl eq_refl eq_refl).
Defined.

(** A DAO deposit cell occupies 102 bytes, not the 103 that an extra
    presence byte would give. *)
Lemma C6_counterexample_no_presence_byte :
  Capacity.occupiedBytes (output sample_deposit) (output_data sample_deposit) = 102
  /\ occupiedBytes_claimed (output sample_deposit) (output_data sample_deposit) = 103.
Proof. split; reflexivity. Qed.

(** ** Unclaimed reward of a deposit cell *)

Lemma reward_of_floor free AR_k AR_i :
  0 < free -> 0 <= AR_k -> 0 < AR_i ->
  Dao.reward_of free AR_k AR_i = Ok (floor_reward free AR_k AR_i).
Proof.
  intros Hf Hk Hi. unfold Dao.reward_of, floor_reward.
  rewrite bigint_div_floor by nia. reflexivity.
Qed.

Lemma floor_reward_same_rate free AR : 0 < AR -> floor_reward free AR AR = 0.
Proof. intros H. unfold floor_reward. rewrite Z.div_mul by lia. lia. Qed.

(** At a zero deposit rate the division throws: the formula has no value. *)
Lemma reward_of_zero_rate free AR_k : Dao.reward_of free AR_k 0 = Err RangeError.
Proof. reflexivity. Qed.

Lemma add_if_positive_spec total reward :
  Dao.add_if_positive total reward = total + (if 0 <? reward then reward else 0).
Proof. unfold Dao.add_if_positive. destruct (0 <? reward); lia. Qed.

Lemma parseDaoAR_nonneg d ar : Dao.parseDaoAR d = Ok ar -> 0 <= ar.
Proof.
  unfold Dao.parseDaoAR, readBigUInt64LE.
  destruct (Nat.eqb _ _); [|discriminate]. intros [= <-].
  apply le_value_bound, Forall_take, Forall_drop, Buffer_from_hex_bytes.
Qed.


Lemma getAR_coherent node bn cache ar :
  coherent node cache ->
  Dao.fetchAR node bn = Ok ar ->
  exists cache',
    Dao.getARByBlockNumberHex node bn cache = Ok (ar, cache')
    /\ coherent node cache'.
Proof.
  intros Hco Hfetch. unfold Dao.getARByBlockNumberHex.
  destruct (cache !! bn) as [v|] eqn:Hv.
  - apply Hco in Hv. rewrite Hfetch in Hv. injection Hv as <-. eauto.
  - rewrite Hfetch. cbn. eexists; split; [reflexivity|].
    intros k v. rewrite lookup_insert. case_decide; [|apply Hco].
    intros [= <-]. now subst k.
Qed.

Lemma coherent_empty node : coherent node ∅.
Proof. intros k v H. now rewrite lookup_empty in H. Qed.

Section DepositCell.

Variable node : string -> result (option header).
Variables (c : live_cell) (cap AR AR_deposit : Z).
Hypothesis tip_rate : 0 <= AR.
Hypothesis capacity_read : BigInt (capacity (output c)) = Ok cap.
Hypothesis deposit_rate : Dao.fetchAR node (block_number c) = Ok AR_deposit.
Hypothesis deposit_rate_pos : 0 < AR_deposit.

Lemma simple_body_deposit st occ :
  Molecule.occupiedCapacity (output c) (output_data c) = Ok occ ->
  0 < cap - occ ->
  coherent node (UnclaimedSimple.arCache st) ->
  exists cache,
    UnclaimedSimple.body node AR st c
    = Ok {| UnclaimedSimple.daoDeposit := UnclaimedSimple.daoDeposit st + cap;
            UnclaimedSimple.unclaimed :=
              UnclaimedSimple.unclaimed st
              + (let r := floor_reward (cap - occ) AR AR_deposit in
                 if 0 <? r then r else 0);
            UnclaimedSimple.arCache := cache |}.
Proof.
  intros Hocc Hfree Hco. unfold UnclaimedSimple.body.
  rewrite capacity_read, Hocc. cbn [mbind result_bind JS.bind].
  destruct (Z.ltb_spec 0 (cap - occ)); [|lia].
  destruct (UnclaimedSimple.arCache st !! block_number c) as [v|] eqn:Hv.
  - cbn [mbind result_bind JS.bind]. rewrite Hv. cbn [field id mbind result_bind JS.bind].
    apply Hco in Hv. rewrite deposit_rate in Hv. injection Hv as <-.
    rewrite reward_of_floor by assumption. cbn [mbind result_bind JS.bind].
    rewrite add_if_positive_spec. eauto.
  - rewrite deposit_rate. cbn [mbind result_bind JS.bind].
    rewrite lookup_insert_eq. cbn [field id mbind result_bind JS.bind].
    rewrite reward_of_floor by assumption. cbn [mbind result_bind JS.bind].
    rewrite add_if_positive_spec. eauto.
Qed.

Lemma by_kind_body_deposit st occ :
  output_data c = Dao.DEPOSIT_DATA ->
  Molecule.occupiedCapacity (output c) (output_data c) = Ok occ ->
  0 < cap - occ ->
  coherent node (UnclaimedByKind.arCache st) ->
  exists st',
    UnclaimedByKind.body node AR st c = Ok st'
    /\ UnclaimedByKind.unclaimedDeposit st'
       = UnclaimedByKind.unclaimedDeposit st
         + (let r := floor_reward (cap - occ) AR AR_deposit in
            if 0 <? r then r else 0)
    /\ UnclaimedByKind.unclaimedPrepare st' = UnclaimedByKind.unclaimedPrepare st.
Proof.
  intros Hdata Hocc Hfree Hco. unfold UnclaimedByKind.body.
  rewrite capacity_read, Hocc. cbn [mbind result_bind JS.bind].
  destruct (Z.leb_spec (cap - occ) 0); [lia|].
  destruct (String.eqb_spec (output_data c) Dao.DEPOSIT_DATA); [|contradiction].
  destruct (getAR_coherent node _ _ _ Hco deposit_rate) as (cache & -> & _).
  cbn [mbind result_bind JS.bind].
  rewrite reward_of_floor by assumption. cbn [mbind result_bind JS.bind].
  eexists; split; [reflexivity|].
  cbn [UnclaimedByKind.unclaimedDeposit UnclaimedByKind.unclaimedPrepare].
  now rewrite add_if_positive_spec.
Qed.

Lemma stats_body_deposit st :
  output_data c = Dao.DEPOSIT_DATA ->
  0 < cap - Capacity.occupiedCapacity (output c) (output_data c) ->
  coherent node (UnclaimedStats.arCache st) ->
  is_ok (UnclaimedStats.getTimestampByBlockNumberHex node (block_number c)
           (UnclaimedStats.tsCache st)) = true ->
  exists st',
    UnclaimedStats.body node AR st c = Ok st'
    /\ UnclaimedStats.unclaimedDeposit st'
       = UnclaimedStats.unclaimedDeposit st
         + (let r := floor_reward
                       (cap - Capacity.occupiedCapacity (output c) (output_data c))
                       AR AR_deposit in
            if 0 <? r then r else 0)
    /\ UnclaimedStats.unclaimedPrepare st' = UnclaimedStats.unclaimedPrepare st.
Proof.
  intros Hdata Hfree Hco Hts. unfold UnclaimedStats.body.
  rewrite capacity_read. cbn [mbind result_bind JS.bind].
  destruct (String.eqb_spec (output_data c) Dao.DEPOSIT_DATA); [|contradiction].
  destruct (UnclaimedStats.getTimestampByBlockNumberHex _ _ _) as [[depTs ts1]|];
    [|discriminate].
  cbn [mbind result_bind JS.bind].
  destruct (getAR_coherent node _ _ _ Hco deposit_rate) as (cache & -> & _).
  cbn [mbind result_bind JS.bind].
  rewrite reward_of_floor by assumption. cbn [mbind result_bind JS.bind].
  eexists; split; [reflexivity|].
  cbn [UnclaimedStats.unclaimedDeposit UnclaimedStats.unclaimedPrepare].
  now rewrite add_if_positive_spec.
Qed.

End DepositCell.

(** The scans keep their rate cache coherent with the node. *)
Lemma simple_body_coherent node AR st c st' :
  coherent node (UnclaimedSimple.arCache st) ->
  UnclaimedSimple.body node AR st c = Ok st' ->
  coherent node (UnclaimedSimple.arCache st').
Proof.
  intros Hco. unfold UnclaimedSimple.body.
  destruct (BigInt _) as [cap|]; [|discriminate].
  destruct (Molecule.occupiedCapacity _ _) as [occ|]; [|discriminate].
  cbn [mbind result_bind JS.bind].
  assert (Hcache : forall cache,
            match UnclaimedSimple.arCache st !! block_number c with
            | Some _ => Ok (UnclaimedSimple.arCache st)
            | None =>
                ar ← Dao.fetchAR node (block_number c);
                Ok (<[block_number c := ar]> (UnclaimedSimple.arCache st))
            end = Ok cache -> coherent node cache).
  { intros cache. destruct (_ !! _); [now intros [= <-]|].
    destruct (Dao.fetchAR node (block_number c)) as [ar|] eqn:Hfetch; [|discriminate].
    intros [= <-] k v. rewrite lookup_insert. case_decide; [|apply Hco].
    intros [= <-]. now subst k. }
  destruct (match _ !! _ with Some _ => _ | None => _ end) as [cache|];
    [|discriminate].
  specialize (Hcache cache eq_refl). cbn [mbind result_bind JS.bind].
  destruct (0 <? cap - occ).
  - destruct (field id _) as [ard|]; [|discriminate]. cbn [mbind result_bind JS.bind].
    destruct (Dao.reward_of _ _ _); [|discriminate]. now intros [= <-].
  - now intros [= <-].
Qed.

Lemma getAR_keeps_coherent node bn cache ar cache' :
  coherent node cache ->
  Dao.getARByBlockNumberHex node bn cache = Ok (ar, cache') ->
  Dao.fetchAR node bn = Ok ar /\ coherent node cache'.
Proof.
  intros Hco. unfold Dao.getARByBlockNumberHex.
  destruct (cache !! bn) as [v|] eqn:Hv.
  - intros [= <- <-]. split; [now apply Hco|assumption].
  - destruct (Dao.fetchAR node bn) as [v|] eqn:Hfetch; [|discriminate].
    intros [= <- <-]. split; [reflexivity|].
    intros k v'. rewrite lookup_insert. case_decide; [|apply Hco].
    intros [= <-]. now subst k.
Qed.

Lemma by_kind_body_coherent node AR st c st' :
  coherent node (UnclaimedByKind.arCache st) ->
  UnclaimedByKind.body node AR st c = Ok st' ->
  coherent node (UnclaimedByKind.arCache st').
Proof.
  intros Hco. unfold UnclaimedByKind.body.
  destruct (BigInt _) as [cap|]; [|discriminate].
  destruct (Molecule.occupiedCapacity _ _) as [occ|]; [|discriminate].
  cbn [mbind result_bind JS.bind].
  destruct (cap - occ <=? 0); [now intros [= <-]|].
  destruct (String.eqb _ _).
  - destruct (Dao.getARByBlockNumberHex _ _ _) as [[ar cache]|] eqn:Hget; [|discriminate].
    apply getAR_keeps_coherent in Hget as [_ Hco1]; [|assumption].
    cbn [mbind result_bind JS.bind].
    destruct (Dao.reward_of _ _ _); [|discriminate]. now intros [= <-].
  - destruct (Dao.parsePrepareBlockNumberHex _) as [bn|]; [|discriminate].
    cbn [mbind result_bind JS.bind].
    destruct (Dao.getARByBlockNumberHex _ bn _) as [[ar1 cache1]|] eqn:Hget1;
      [|discriminate].
    apply getAR_keeps_coherent in Hget1 as [_ Hco1]; [|assumption].
    cbn [mbind result_bind JS.bind].
    destruct (Dao.getARByBlockNumberHex _ _ cache1) as [[ar2 cache2]|] eqn:Hget2;
      [|discriminate].
    apply getAR_keeps_coherent in Hget2 as [_ Hco2]; [|assumption].
    cbn [mbind result_bind JS.bind].
    destruct (Dao.reward_of _ _ _); [|discriminate]. now intros [= <-].
Qed.


(** ** Malformed prepare-withdraw data *)

Lemma parsePrepare_malformed d :
  malformed_prepare_data d = true ->
  exists msg, Dao.parsePrepareBlockNumberHex d = Err (Thrown msg).
Proof.
  unfold malformed_prepare_data, Dao.parsePrepareBlockNumberHex. fold (strip0x d).
  destruct (String.eqb d "" || String.eqb d "0x"); [eauto|].
  cbn [orb]. intros ->. eauto.
Qed.

Lemma malformed_not_deposit d :
  malformed_prepare_data d = true -> String.eqb d Dao.DEPOSIT_DATA = false.
Proof.
  intros H. destruct (String.eqb_spec d Dao.DEPOSIT_DATA) as [->|]; [|reflexivity].
  discriminate H.
Qed.

Lemma for_cells_app {St} (body : St -> live_cell -> result St) pre c post st :
  Dao.for_cells body (pre ++ c :: post) st
  = (st1 ← Dao.for_cells body pre st; st2 ← body st1 c; Dao.for_cells body post st2).
Proof.
  revert st. induction pre as [|p pre IH]; intros st; [reflexivity|].
  cbn [app Dao.for_cells]. destruct (body st p); cbn [mbind result_bind JS.bind]; auto.
Qed.

Lemma for_cells_aborts {St} (body : St -> live_cell -> result St) pre c post st :
  (forall st1, is_ok (body st1 c) = false) ->
  is_ok (Dao.for_cells body (pre ++ c :: post) st) = false.
Proof.
  intros Hc. rewrite for_cells_app.
  destruct (Dao.for_cells body pre st) as [st1|]; [|reflexivity].
  cbn [mbind result_bind JS.bind]. specialize (Hc st1).
  destruct (body st1 c); [discriminate|reflexivity].
Qed.

Section MalformedPrepare.

Variable node : string -> result (option header).
Variables (AR cap : Z) (c : live_cell).
Hypothesis malformed : malformed_prepare_data (output_data c) = true.
Hypothesis capacity_read : BigInt (capacity (output c)) = Ok cap.

Lemma stats_body_throws st :
  exists msg, UnclaimedStats.body node AR st c = Err (Thrown msg).
Proof.
  unfold UnclaimedStats.body. rewrite capacity_read. cbn [mbind result_bind JS.bind].
  rewrite (malformed_not_deposit _ malformed).
  destruct (parsePrepare_malformed _ malformed) as [msg ->]. eauto.
Qed.

Lemma by_kind_body_throws st occ :
  Molecule.occupiedCapacity (output c) (output_data c) = Ok occ ->
  0 < cap - occ ->
  exists msg, UnclaimedByKind.body node AR st c = Err (Thrown msg).
Proof.
  intros Hocc Hfree. unfold UnclaimedByKind.body.
  rewrite capacity_read, Hocc. cbn [mbind result_bind JS.bind].
  destruct (Z.leb_spec (cap - occ) 0); [lia|].
  rewrite (malformed_not_deposit _ malformed).
  destruct (parsePrepare_malformed _ malformed) as [msg ->]. eauto.
Qed.

Lemma by_kind_body_skips st occ :
  Molecule.occupiedCapacity (output c) (output_data c) = Ok occ ->
  cap - occ <= 0 ->
  UnclaimedByKind.body node AR st c
  = Ok {| UnclaimedByKind.daoDeposit := UnclaimedByKind.daoDeposit st + cap;
          UnclaimedByKind.unclaimedDeposit := UnclaimedByKind.unclaimedDeposit st;
          UnclaimedByKind.unclaimedPrepare := UnclaimedByKind.unclaimedPrepare st;
          UnclaimedByKind.cntDeposit := UnclaimedByKind.cntDeposit st;
          UnclaimedByKind.cntPrepare := UnclaimedByKind.cntPrepare st;
          UnclaimedByKind.arCache := UnclaimedByKind.arCache st |}.
Proof.
  intros Hocc Hfree. unfold UnclaimedByKind.body.
  rewrite capacity_read, Hocc. cbn [mbind result_bind JS.bind].
  destruct (Z.leb_spec (cap - occ) 0); [reflexivity|lia].
Qed.

End MalformedPrepare.




(** ** Checkpointed aggregation *)

Section Checkpointed.
Import MinerReward.

Variables BATCH_SIZE CHECKPOINT_EVERY_BATCH : Z.
Variable rpcBatch : list Z -> result (list (option Z)).
Variable reward : Z -> option Z.
Hypothesis batch_size_pos : 1 <= BATCH_SIZE.
Hypothesis node_answers : forall calls, rpcBatch calls = Ok (reward <$> calls).

Lemma build_calls_length n i base endHeight :
  length (build_calls n i base endHeight)
  = Nat.min n (Z.to_nat (endHeight + 1 - (base + i))).
Proof.
  revert i. induction n as [|n IH]; intros i; [reflexivity|].
  cbn [build_calls]. destruct (Z.ltb_spec endHeight (base + i)).
  - cbn [length]. lia.
  - cbn [length]. rewrite IH. lia.
Qed.

Lemma add_rewards_app pre l s :
  add_rewards (pre ++ l) (length pre) (length l) s
  = s + foldr Z.add 0 (default 0 <$> l).
Proof.
  revert pre s. induction l as [|x l IH]; intros pre s.
  - cbn. lia.
  - cbn [length add_rewards].
    rewrite lookup_app_r by apply Nat.le_refl.
    rewrite Nat.sub_diag. cbn [lookup list_lookup].
    replace (pre ++ x :: l) with ((pre ++ [x]) ++ l) by now rewrite <- app_assoc.
    replace (S (length pre)) with (length (pre ++ [x])) by (rewrite length_app; cbn; lia).
    rewrite IH. destruct x as [cap|]; cbn; lia.
Qed.

Lemma add_rewards_all l s :
  add_rewards l 0 (length l) s = s + foldr Z.add 0 (default 0 <$> l).
Proof. exact (add_rewards_app [] l s). Qed.

Lemma build_calls_sum n i base endHeight :
  foldr Z.add 0 (default 0 <$> (reward <$> build_calls n i base endHeight))
  = sum_from (contribution reward) (base + i) (length (build_calls n i base endHeight)).
Proof.
  revert i. induction n as [|n IH]; intros i; [reflexivity|].
  cbn [build_calls]. destruct (Z.ltb_spec endHeight (base + i)); [reflexivity|].
  cbn [fmap list_fmap foldr length sum_from]. fold (contribution reward (base + i)).
  change (foldr Z.add 0 (list_fmap _ _ (default 0) (list_fmap _ _ reward ?l)))
    with (foldr Z.add 0 (default 0 <$> (reward <$> l))).
  f_equal. rewrite <- Z.add_assoc. apply IH.
Qed.

Lemma batches_total fuel endHeight base s batchCount file :
  (Z.to_nat (endHeight + 1 - base) <= fuel)%nat ->
  exists file',
    batches BATCH_SIZE CHECKPOINT_EVERY_BATCH rpcBatch fuel base endHeight s
      batchCount file
    = Some (file', Ok (s + sum_from (contribution reward) base
                             (Z.to_nat (endHeight + 1 - base)))).
Proof.
  revert base s batchCount file.
  induction fuel as [|fuel IH]; intros base s batchCount file Hfuel.
  - cbn [batches]. destruct (Z.leb_spec base endHeight); [lia|].
    replace (Z.to_nat (endHeight + 1 - base)) with 0%nat by lia.
    cbn [sum_from]. rewrite Z.add_0_r. eauto.
  - cbn [batches]. destruct (Z.leb_spec base endHeight) as [Hle|Hgt].
    2:{ replace (Z.to_nat (endHeight + 1 - base)) with 0%nat by lia.
        cbn [sum_from]. rewrite Z.add_0_r. eauto. }
    rewrite node_answers.
    set (calls := build_calls (Z.to_nat BATCH_SIZE) 0 base endHeight).
    assert (Hlen : length calls
                   = Nat.min (Z.to_nat BATCH_SIZE) (Z.to_nat (endHeight + 1 - base))).
    { unfold calls. rewrite build_calls_length. do 2 f_equal. lia. }
    assert (Hsum : add_rewards (reward <$> calls) 0 (length calls) s
                   = s + sum_from (contribution reward) base (length calls)).
    { transitivity (add_rewards (reward <$> calls) 0 (length (reward <$> calls)) s);
        [now rewrite length_fmap|].
      rewrite add_rewards_all. unfold calls. rewrite build_calls_sum.
      now rewrite Z.add_0_r. }
    rewrite Hsum.
    match goal with |- context [batches _ _ _ fuel ?b _ ?s' ?bc ?f] =>
      destruct (IH b s' bc f) as [file' ->]; [lia|] end.
    eexists. do 3 f_equal. rewrite <- Z.add_assoc. f_equal.
    replace (Z.to_nat (endHeight + 1 - base))
      with (length calls + Z.to_nat (endHeight + 1 - (base + BATCH_SIZE)))%nat by lia.
    rewrite sum_from_app. f_equal.
    destruct (Z.to_nat (endHeight + 1 - (base + BATCH_SIZE))) eqn:Hrest; [reflexivity|].
    f_equal. lia.
Qed.

Lemma main_from_checkpoint fuel start h endHeight eh :
  start <= h <= endHeight + 1 ->
  (Z.to_nat (endHeight + 1 - start) <= fuel)%nat ->
  snd <$> main BATCH_SIZE CHECKPOINT_EVERY_BATCH rpcBatch fuel endHeight
            (Some {| nextHeight := h;
                     sum := sum_from (contribution reward) start (Z.to_nat (h - start));
                     MinerReward.endHeight := eh |})
  = Some (Ok (sum_from (contribution reward) start (Z.to_nat (endHeight + 1 - start)))).
Proof.
  intros Hh Hfuel. unfold main. cbn [from_option nextHeight sum].
  destruct (Z.ltb_spec endHeight h) as [Hdone|Hgo].
  - cbn. do 3 f_equal. lia.
  - destruct (batches_total fuel endHeight h
                (sum_from (contribution reward) start (Z.to_nat (h - start)))
                0 (Some {| nextHeight := h;
                           sum := sum_from (contribution reward) start (Z.to_nat (h - start));
                           MinerReward.endHeight := eh |}))
      as [file' ->]; [lia|].
    cbn. do 2 f_equal.
    replace (Z.to_nat (endHeight + 1 - start))
      with (Z.to_nat (h - start) + Z.to_nat (endHeight + 1 - h))%nat by lia.
    rewrite sum_from_app. do 2 f_equal. lia.
Qed.

Lemma main_fresh fuel endHeight :
  -1 <= endHeight ->
  (Z.to_nat (endHeight + 1) <= fuel)%nat ->
  snd <$> main BATCH_SIZE CHECKPOINT_EVERY_BATCH rpcBatch fuel endHeight None
  = Some (Ok (sum_from (contribution reward) 0 (Z.to_nat (endHeight + 1)))).
Proof.
  intros Hend Hfuel. unfold main. cbn [from_option].
  destruct (Z.ltb_spec endHeight 0) as [Hdone|Hgo].
  - replace endHeight with (-1) by lia. reflexivity.
  - destruct (batches_total fuel endHeight 0 0 0 None) as [file' ->];
      [rewrite Z.sub_0_r; lia|].
    cbn. now rewrite Z.sub_0_r.
Qed.

End Checkpointed.




(** ** Checkpoints left behind by a run that fails *)

Section FailingNode.
Import MinerReward.

Variables BATCH_SIZE CHECKPOINT_EVERY_BATCH : Z.
Variable rpcBatch : list Z -> result (list (option Z)).
Variable reward : Z -> option Z.
Hypothesis batch_size_pos : 1 <= BATCH_SIZE.
(** The node may fail, but what it answers is the chain. *)
Hypothesis node_sound : forall calls rs, rpcBatch calls = Ok rs -> rs = reward <$> calls.

Lemma batches_sound start endHeight fuel base s batchCount file file' out :
  start <= base ->
  s = sum_from (contribution reward) start
        (Z.to_nat (Z.min base (endHeight + 1) - start)) ->
  valid_checkpoint reward start endHeight file ->
  batches BATCH_SIZE CHECKPOINT_EVERY_BATCH rpcBatch fuel base endHeight s
    batchCount file = Some (file', out) ->
  valid_checkpoint reward start endHeight file'
  /\ forall total, out = Ok total ->
       total = sum_from (contribution reward) start (Z.to_nat (endHeight + 1 - start)).
Proof.
  assert (Hexit : forall base s file,
            endHeight < base ->
            s = sum_from (contribution reward) start
                  (Z.to_nat (Z.min base (endHeight + 1) - start)) ->
            valid_checkpoint reward start endHeight file ->
            Some (file, Ok s) = Some (file', out) ->
            valid_checkpoint reward start endHeight file'
            /\ forall total, out = Ok total ->
                 total = sum_from (contribution reward) start
                           (Z.to_nat (endHeight + 1 - start))).
  { intros base0 s0 file0 Hgt Hs0 Hfile0 [= <- <-]. split; [assumption|].
    intros total [= <-]. rewrite Hs0. do 2 f_equal. lia. }
  revert base s batchCount file.
  induction fuel as [|fuel IH]; intros base s batchCount file Hbase Hs Hfile;
    cbn [batches]; destruct (Z.leb_spec base endHeight) as [Hle|Hgt];
    try discriminate; try (now apply (Hexit base)).
  set (calls := build_calls (Z.to_nat BATCH_SIZE) 0 base endHeight).
  destruct (rpcBatch calls) as [rs|e] eqn:Hrpc.
  2:{ intros [= <- <-]. split; [assumption|discriminate]. }
  apply node_sound in Hrpc. subst rs.
  assert (Hlen : Z.of_nat (length calls) = Z.min (base + BATCH_SIZE) (endHeight + 1) - base).
  { unfold calls. rewrite build_calls_length. lia. }
  assert (Hsum : add_rewards (reward <$> calls) 0 (length calls) s
                 = sum_from (contribution reward) start
                     (Z.to_nat (Z.min (base + BATCH_SIZE) (endHeight + 1) - start))).
  { transitivity (add_rewards (reward <$> calls) 0 (length (reward <$> calls)) s);
      [now rewrite length_fmap|].
    rewrite add_rewards_all. unfold calls at 1. rewrite build_calls_sum. fold calls.
    rewrite Z.add_0_r, Hs.
    replace (Z.to_nat (Z.min (base + BATCH_SIZE) (endHeight + 1) - start))
      with (Z.to_nat (Z.min base (endHeight + 1) - start) + length calls)%nat by lia.
    rewrite sum_from_app. do 2 f_equal. lia. }
  apply IH; [lia|exact Hsum|].
  destruct (due _ _); [|assumption].
  cbn [valid_checkpoint nextHeight sum]. rewrite Hsum. split; [lia|]. do 2 f_equal. lia.
Qed.

Lemma main_leaves_valid_checkpoint fuel endHeight file file' out :
  -1 <= endHeight ->
  valid_checkpoint reward 0 endHeight file ->
  main BATCH_SIZE CHECKPOINT_EVERY_BATCH rpcBatch fuel endHeight file = Some (file', out) ->
  valid_checkpoint reward 0 endHeight file'.
Proof.
  intros Hend Hfile. unfold main.
  destruct (Z.ltb_spec endHeight (from_option nextHeight 0 file)) as [|Hgo];
    [now intros [= <- _]|].
  destruct (batches _ _ _ _ _ _ _ _ _) as [[f out']|] eqn:Hrun; [|discriminate].
  apply (batches_sound 0) in Hrun as [Hvalid Htotal]; try assumption.
  - destruct out' as [total|e]; intros [= <- _]; [|assumption].
    cbn [valid_checkpoint nextHeight sum]. split; [lia|].
    rewrite (Htotal total eq_refl). repeat f_equal; lia.
  - destruct file as [ck|]; cbn [from_option valid_checkpoint] in *; lia.
  - destruct file as [ck|]; cbn [from_option valid_checkpoint] in *.
    + destruct Hfile as [Hh ->]. repeat f_equal; lia.
    + now replace (Z.to_nat (Z.min 0 (endHeight + 1) - 0)) with 0%nat by lia.
Qed.

End FailingNode.

(** X10. A run that dies on a failing node leaves a checkpoint from which a later
    run, on a node that answers, reaches the total of the whole range. *)
Lemma resume_after_failed_run
    (BATCH_SIZE EVERY1 EVERY2 : Z) (failing healthy : list Z -> result (list (option Z)))
    (reward : Z -> option Z) (endHeight : Z) (fuel1 fuel2 : nat)
    (file1 : option MinerReward.checkpoint) (out1 : result Z) :
  1 <= BATCH_SIZE ->
  -1 <= endHeight ->
  (forall calls rs, failing calls = Ok rs -> rs = reward <$> calls) ->
  (forall calls, healthy calls = Ok (reward <$> calls)) ->
  MinerReward.main BATCH_SIZE EVERY1 failing fuel1 endHeight None = Some (file1, out1) ->
  (Z.to_nat (endHeight + 1) <= fuel2)%nat ->
  snd <$> MinerReward.main BATCH_SIZE EVERY2 healthy fuel2 endHeight file1
  = Some (Ok (sum_from (contribution reward) 0 (Z.to_nat (endHeight + 1)))).
Proof.
  intros Hbatch Hend Hsound Hhealthy Hrun Hfuel.
  apply (main_leaves_valid_checkpoint BATCH_SIZE EVERY1 failing reward Hbatch Hsound)
    in Hrun; [|assumption|exact I].
  destruct file1 as [[h s eh]|].
  - destruct Hrun as [Hh Hs]. cbn [MinerReward.nextHeight MinerReward.sum] in Hh, Hs.
    subst s.
    pose proof (main_from_checkpoint BATCH_SIZE EVERY2 healthy reward Hbatch Hhealthy
                  fuel2 0 h endHeight eh Hh) as Hresume.
    rewrite !Z.sub_0_r in *. now apply Hresume.
  - now apply main_fresh.
Qed.

(** ** The memoizing resolvers *)

Section ResolverProofs.
Import Resolver.
Context {V : Type}.
Variable fetch : string -> result V.

Lemma requested_snoc (k k' : string) reqs :
  k <> k' ->
  length (List.filter (String.eqb k) (reqs ++ [k']))
  = length (List.filter (String.eqb k) reqs).
Proof.
  intros Hne. rewrite List.filter_app, length_app. cbn.
  destruct (String.eqb_spec k k'); [contradiction|]. cbn. lia.
Qed.

Lemma step_keeps_resolved (w : world) ev k :
  is_Some (cache w !! k) ->
  is_Some (cache (step fetch w ev) !! k)
  /\ requested k (step fetch w ev) = requested k w.
Proof.
  intros Hk. unfold step.
  destruct ev as [i|i]; destruct (calls w !! i) as [[k'|k'|v|e]|];
    try (split; [assumption|reflexivity]).
  - destruct (cache w !! k') as [v|] eqn:Hk'; cbn; [split; [assumption|reflexivity]|].
    split; [assumption|]. unfold requested. cbn [requests].
    apply requested_snoc. intros ->. rewrite Hk' in Hk. now destruct Hk.
  - destruct (fetch k') as [v|e]; cbn; [|split; [assumption|reflexivity]].
    split; [|reflexivity]. rewrite lookup_insert. case_decide; [eauto|assumption].
Qed.

Lemma run_keeps_resolved sched (w : world) k :
  is_Some (cache w !! k) ->
  requested k (run fetch sched w) = requested k w.
Proof.
  revert w. induction sched as [|ev sched IH]; intros w Hk; [reflexivity|].
  cbn [run fold_left]. destruct (step_keeps_resolved w ev k Hk) as [Hk' Hreq].
  fold (run fetch sched (step fetch w ev)). now rewrite IH.
Qed.

Lemma awaits_insert (k : string) (l : list call) i (x y : call (V:=V)) :
  l !! i = Some x -> awaits k x = false -> awaits k y = true ->
  length (List.filter (awaits k) (<[i := y]> l))
  = S (length (List.filter (awaits k) l)).
Proof.
  revert i. induction l as [|c l IH]; intros [|i] Hi Hx Hy; try discriminate.
  - cbn in Hi. injection Hi as ->. cbn. rewrite Hx, Hy. reflexivity.
  - cbn in Hi. change (<[S i := y]> (c :: l)) with (c :: <[i := y]> l).
    cbn [List.filter]. destruct (awaits k c); cbn [length]; now rewrite (IH i).
Qed.

Lemma enter_uncached (w : world) i k :
  cache w !! k = None ->
  calls w !! i = Some (Pending k) ->
  requests (step fetch w (Enter i)) = requests w ++ [k]
  /\ in_flight k (step fetch w (Enter i)) = S (in_flight k w).
Proof.
  intros Hk Hi. unfold step. rewrite Hi, Hk. cbn [requests]. split; [reflexivity|].
  unfold in_flight. cbn [calls].
  apply (awaits_insert k _ i (Pending k)); [assumption|reflexivity|].
  cbn. apply String.eqb_refl.
Qed.

End ResolverProofs.

(** C9, as the code has it: a resolver memoizes resolved values only. Once
    the cache holds a key, no later call issues a request for it, whatever
    the interleaving; but a call that enters while the cache does not hold
    its key issues its own request and adds one more fetch in flight for
    that key, whether or not a fetch for it is already in flight. *)
Theorem C9_resolver_memoizes_resolved_values {V : Type}
    (fetch : string -> result V) (w : Resolver.world) (k : string) :
  (is_Some (Resolver.cache w !! k) ->
   forall sched,
     Resolver.requested k (Resolver.run fetch sched w) = Resolver.requested k w)
  /\ (Resolver.cache w !! k = None ->
      forall i, Resolver.calls w !! i = Some (Resolver.Pending k) ->
        Resolver.requests (Resolver.step fetch w (Resolver.Enter i))
        = Resolver.requests w ++ [k]
        /\ Resolver.in_flight k (Resolver.step fetch w (Resolver.Enter i))
           = S (Resolver.in_flight k w)).
Proof.
  split.
  - intros Hk sched. now apply run_keeps_resolved.
  - intros Hk i Hi. now apply enter_uncached.
Qed.

(** After the first fetch has settled, the second caller is served from the
    cache: one request in all. *)
Lemma C9_witness_sequential_calls :
  Resolver.requested "0xaa"
    (Resolver.run sample_fetch [Resolver.Enter 1]
       (Resolver.run sample_fetch [Resolver.Enter 0; Resolver.Settle 0]
          (Resolver.start ["0xaa"; "0xaa"])))
  = 1%nat.
Proof.
  exact (proj1 (C9_resolver_memoizes_resolved_values sample_fetch
                  (Resolver.run sample_fetch [Resolver.Enter 0; Resolver.Settle 0]
                     (Resolver.start ["0xaa"; "0xaa"]))
                  "0xaa")
               (ex_intro _ 7 eq_refl) [Resolver.Enter 1]).
Defined.

(** Two callers for one key, the second entering before the first fetch has
    settled: two requests, both in flight at once. *)
Lemma C9_counterexample_two_fetches_in_flight :
  Resolver.in_flight "0xaa"
    (Resolver.run sample_fetch [Resolver.Enter 0; Resolver.Enter 1]
       (Resolver.start ["0xaa"; "0xaa"]))
  = 2%nat
  /\ Resolver.requests
       (Resolver.run sample_fetch [Resolver.Enter 0; Resolver.Enter 1]
          (Resolver.start ["0xaa"; "0xaa"]))
     = ["0xaa"; "0xaa"]%string.
Proof. split; reflexivity. Qed.

(** ** The seen-transaction set *)

#[local] Set Warnings "-clear-no-such-hyp".

Section SeenTx.
Import Withdraw2.

Variable CONCURRENCY : Z.
Variable txRewardSum : string -> result (option Z).

(** What one page adds to [inputTxHashes]: hashes that are new to [seenTx],
    each once. *)
Lemma collect_fresh objs seen acc :
  exists new,
    collect objs seen acc = (list_to_set new ∪ seen, acc ++ new)
    /\ NoDup new
    /\ forall h, h ∈ new -> h ∉ seen.
Proof.
  revert seen acc. induction objs as [|o objs IH]; intros seen acc.
  - exists []. cbn. rewrite app_nil_r. split; [f_equal; set_solver|].
    split; [constructor|]. intros h Hh. inversion Hh.
  - cbn [collect].
    assert (Hskip : exists new,
               collect objs seen acc = (list_to_set new ∪ seen, acc ++ new)
               /\ NoDup new /\ forall h, h ∈ new -> h ∉ seen) by apply IH.
    destruct (is_string _ _); [|exact Hskip].
    destruct (nullish (tx_hash o) (txHash o)) as [h|]; [|exact Hskip].
    destruct (String.eqb h ""); cbn [negb andb]; [exact Hskip|].
    case_bool_decide as Hseen; cbn [negb]; [exact Hskip|].
    destruct (IH ({[h]} ∪ seen) (acc ++ [h])) as (new & -> & Hnd & Hfresh).
    exists (h :: new). rewrite <- app_assoc. cbn [app]. split; [f_equal; set_solver|].
    split.
    + constructor; [|assumption]. intros Hin. apply Hfresh in Hin. set_solver.
    + intros h' [->|Hin]%elem_of_cons; [assumption|].
      apply Hfresh in Hin. set_solver.
Qed.

Lemma for_hashes_totals hashes st st' :
  for_hashes txRewardSum hashes st = Ok st' ->
  seenTx st' = seenTx st
  /\ submitted st' = submitted st ++ hashes
  /\ totalReward st'
     = totalReward st + sumZ (counted_reward txRewardSum <$> hashes).
Proof.
  revert st. induction hashes as [|h hashes IH]; intros st.
  - intros [= <-]. rewrite app_nil_r. cbn. repeat split; lia.
  - cbn [for_hashes].
    destruct (txRewardSum h) as [r|] eqn:Hh; [|discriminate].
    assert (Hc : counted_reward txRewardSum h = default 0 r)
      by (unfold counted_reward; now rewrite Hh).
    cbn [mbind result_bind JS.bind]. intros Hrest. apply IH in Hrest.
    destruct Hrest as (-> & -> & ->).
    change (sumZ (counted_reward txRewardSum <$> h :: hashes))
      with (counted_reward txRewardSum h
            + sumZ (counted_reward txRewardSum <$> hashes)).
    rewrite Hc.
    destruct r as [reward|]; cbn [seenTx submitted totalReward default];
      rewrite <- app_assoc; repeat split; cbn; lia.
Qed.

Lemma sumZ_app l1 l2 : sumZ (l1 ++ l2) = sumZ l1 + sumZ l2.
Proof. unfold sumZ. induction l1 as [|x l1 IH]; cbn; lia. Qed.

Lemma scan_processes_once pages st st' :
  processed_once txRewardSum st ->
  scan CONCURRENCY txRewardSum pages st = Ok st' ->
  processed_once txRewardSum st'.
Proof.
  revert st. induction pages as [|res pages IH]; intros st Hst; cbn [scan].
  - now intros [= <-].
  - destruct (default [] (objects res)) as [|o objs]; [now intros [= <-]|].
    destruct (collect_fresh (o :: objs) (seenTx st) []) as (new & -> & Hnd & Hfresh).
    cbn [app]. unfold mapLimit.
    destruct Hst as (Hsub & Hseen & Htotal).
    destruct (CONCURRENCY <? 1).
    + cbn [mbind result_bind JS.bind].
      assert (Hst1 : processed_once txRewardSum
                {| seenTx := list_to_set new ∪ seenTx st;
                   withdraw2Txs := withdraw2Txs st; totalReward := totalReward st;
                   submitted := submitted st |}).
      { split; [assumption|]. split; [|assumption].
        intros h Hh. cbn. apply Hseen in Hh. set_solver. }
      destruct (cursor_present _); [now apply IH|]. now intros [= <-].
    + destruct (for_hashes _ _ _) as [st1|] eqn:Hrun; [|discriminate].
      cbn [mbind result_bind JS.bind].
      apply for_hashes_totals in Hrun as (Hs1 & Hsub1 & Htot1).
      cbn [seenTx submitted totalReward] in Hs1, Hsub1, Htot1.
      assert (Hst1 : processed_once txRewardSum st1).
      { unfold processed_once. rewrite Hs1, Hsub1, Htot1, Htotal. split; [|split].
        - apply NoDup_app. split; [assumption|]. split; [|assumption].
          intros h Hh Hnew. apply Hseen in Hh. now apply Hfresh in Hnew.
        - intros h [Hh|Hh]%elem_of_app; [apply Hseen in Hh|]; set_solver.
        - now rewrite fmap_app, sumZ_app. }
      destruct (cursor_present _); [now apply IH|]. now intros [= <-].
Qed.

End SeenTx.


Section ScanReturns.
Import Withdraw2.
Variable CONCURRENCY : Z.
Variable txRewardSum : string -> result (option Z).
Hypothesis callback_returns : forall h, is_ok (txRewardSum h) = true.

Lemma for_hashes_returns hashes st :
  is_ok (for_hashes txRewardSum hashes st) = true.
Proof.
  revert st. induction hashes as [|h hashes IH]; intros st; [reflexivity|].
  cbn [for_hashes]. specialize (callback_returns h).
  destruct (txRewardSum h) as [r|]; [|discriminate].
  cbn [mbind result_bind JS.bind]. apply IH.
Qed.

(** When no callback throws, the scan returns its totals. *)
Lemma scan_returns pages st :
  is_ok (scan CONCURRENCY txRewardSum pages st) = true.
Proof.
  revert st. induction pages as [|res pages IH]; intros st; [reflexivity|].
  cbn [scan]. destruct (default [] (objects res)) as [|o objs]; [reflexivity|].
  destruct (collect _ _ _) as [seen hashes]. unfold mapLimit.
  destruct (CONCURRENCY <? 1); cbn [mbind result_bind JS.bind].
  - destruct (cursor_present _); [apply IH|reflexivity].
  - pose proof (for_hashes_returns hashes
                  {| seenTx := seen; withdraw2Txs := withdraw2Txs st;
                     totalReward := totalReward st; submitted := submitted st |}) as Hrun.
    destruct (for_hashes _ _ _) as [st1|]; [|discriminate].
    cbn [mbind result_bind JS.bind].
    destruct (cursor_present _); [apply IH|reflexivity].
Qed.
End ScanReturns.

(** C10: over the whole scan, across index objects and pages, no
    transaction hash is handed to the reward callback twice, every hash
    handed over has been entered in the seen set, and the cumulative total
    is the sum, over the hashes handed over, of what the callback adds for
    each: no reward enters it twice. *)
Theorem C10_each_transaction_processed_at_most_once
    (CONCURRENCY : Z) (txRewardSum : string -> result (option Z))
    (pages : list Withdraw2.tx_page) (st : Withdraw2.scan_state) :
  Withdraw2.scan CONCURRENCY txRewardSum pages Withdraw2.init = Ok st ->
  NoDup (Withdraw2.submitted st)
  /\ (forall h, h ∈ Withdraw2.submitted st -> h ∈ Withdraw2.seenTx st)
  /\ Withdraw2.totalReward st
     = sumZ (counted_reward txRewardSum <$> Withdraw2.submitted st).
Proof.
  apply scan_processes_once. split; [constructor|]. split; [|reflexivity].
  intros h Hh. inversion Hh.
Qed.

Lemma C10_witness_repeated_hashes :
  match Withdraw2.scan 60 sample_txRewardSum sample_pages Withdraw2.init with
  | Ok st =>
      Withdraw2.submitted st = ["0xa1"; "0xb2"; "0xc3"]%string
      /\ Withdraw2.totalReward st = 105
      /\ NoDup (Withdraw2.submitted st)
  | Err _ => False
  end.
Proof.
  destruct (Withdraw2.scan 60 sample_txRewardSum sample_pages Withdraw2.init)
    as [st|e] eqn:Hscan.
  - destruct (C10_each_transaction_processed_at_most_once _ _ _ _ Hscan)
      as (Hnodup & _ & _).
    vm_compute in Hscan. injection Hscan as <-.
    split; [reflexivity|]. split; [reflexivity|exact Hnodup].
  - vm_compute in Hscan. discriminate Hscan.
Defined.


(** * Further properties of the code *)

(** ** The header codec *)

Lemma shiftr_range e k m : 0 <= k -> 0 <= m -> 0 <= e < 2 ^ (k + m) -> 0 <= Z.shiftr e k < 2 ^ m.
Proof.
  intros Hk Hm He. rewrite Z.shiftr_div_pow2 by lia. split.
  - apply Z.div_pos; lia.
  - apply Z.div_lt_upper_bound; [lia|]. rewrite <- Z.pow_add_r by lia. lia.
Qed.

(** X1. The three fields decoded from a 64-bit packed epoch fit their 24, 16 and
    24 bits, and packing them again gives the packed value back. *)
Theorem epoch_fields_pack_back (e : Z) :
  0 <= e < 2 ^ 64 ->
  let ep := MinerSecondary.unpackEpoch e in
  0 <= MinerSecondary.number ep < 2 ^ 24
  /\ 0 <= MinerSecondary.index ep < 2 ^ 16
  /\ 0 <= MinerSecondary.length ep < 2 ^ 24
  /\ packEpoch (MinerSecondary.length ep) (MinerSecondary.index ep)
       (MinerSecondary.number ep) = e.
Proof.
  intros He ep. subst ep. rewrite unpackEpoch_exact by lia. unfold packEpoch.
  cbn [MinerSecondary.number MinerSecondary.index MinerSecondary.length].
  change 16777215 with (2 ^ 24 - 1). change 65535 with (2 ^ 16 - 1).
  rewrite !land_low_mask by lia.
  split; [apply Z.mod_pos_bound; lia|].
  split; [apply Z.mod_pos_bound; lia|].
  split; [apply (shiftr_range e 40 24); lia|].
  apply Z.bits_inj'. intros k Hk.
  rewrite !Z.lor_spec.
  destruct (Z.ltb_spec k 24).
  - rewrite !Z.shiftl_spec_low by lia. cbn [orb].
    now rewrite Z.mod_pow2_bits_low by lia.
  - rewrite (Z.mod_pow2_bits_high e 24 k) by lia. rewrite Bool.orb_false_r.
    rewrite !Z.shiftl_spec by lia.
    destruct (Z.ltb_spec k 40).
    + rewrite (Z.testbit_neg_r _ (k - 40)) by lia. cbn [orb].
      rewrite Z.mod_pow2_bits_low, Z.shiftr_spec by lia. f_equal. lia.
    + rewrite Z.mod_pow2_bits_high by lia. rewrite Bool.orb_false_r.
      rewrite Z.shiftr_spec by lia. f_equal. lia.
Qed.

Lemma epoch_fields_pack_back_witness :
  packEpoch 1800 657 50 = 1979131952627762.
Proof.
  exact (proj2 (proj2 (proj2 (epoch_fields_pack_back 1979131952627762
                                 ltac:(lia))))).
Defined.

Lemma le_value_le_bytes n x :
  0 <= x -> le_value (le_bytes n x) = x mod 256 ^ Z.of_nat n.
Proof.
  revert x. induction n as [|n IH]; intros x Hx.
  - cbn. now rewrite Z.mod_1_r.
  - cbn [le_bytes le_value]. rewrite IH by (apply Z.div_pos; lia).
    rewrite Nat2Z.inj_succ, Z.pow_succ_r by lia.
    rewrite Z.rem_mul_r by lia. lia.
Qed.

Lemma le_bytes_are_bytes n x : Forall is_byte (le_bytes n x).
Proof.
  revert x. induction n as [|n IH]; intros x; constructor; [|apply IH].
  unfold is_byte. apply Z.mod_pos_bound. lia.
Qed.

Lemma le_bytes_length n x : length (le_bytes n x) = n.
Proof. revert x. induction n as [|n IH]; intros x; cbn; [|rewrite IH]; reflexivity. Qed.

Lemma u64_at_le_bytes x pre post :
  0 <= x < 2 ^ 64 ->
  u64_at (length pre) (pre ++ le_bytes 8 x ++ post) = x.
Proof.
  intros Hx. unfold u64_at.
  rewrite drop_app_length.
  rewrite (take_app_length' (le_bytes 8 x) post 8) by (symmetry; apply le_bytes_length).
  rewrite le_value_le_bytes by lia.
  apply Z.mod_small. change (256 ^ Z.of_nat 8) with (2 ^ 64). lia.
Qed.

(** X2. Decoding what the node prints for four 64-bit integers gives them back:
    [parseDao] the first and the last, [parseDaoAR] the second, [parseDaoS]
    the third. *)
Theorem accounting_field_round_trip (C AR S U : Z) :
  0 <= C < 2 ^ 64 -> 0 <= AR < 2 ^ 64 -> 0 <= S < 2 ^ 64 -> 0 <= U < 2 ^ 64 ->
  MinerSecondary.parseDao (print_dao C AR S U)
  = Ok {| MinerSecondary.C := C; MinerSecondary.U := U |}
  /\ Dao.parseDaoAR (print_dao C AR S U) = Ok AR
  /\ Dao.parseDaoS (print_dao C AR S U) = Ok S.
Proof.
  intros HC HAR HS HU. unfold print_dao.
  set (bs := le_bytes 8 C ++ le_bytes 8 AR ++ le_bytes 8 S ++ le_bytes 8 U).
  assert (Hbytes : Forall is_byte bs)
    by (unfold bs; repeat apply Forall_app_2; apply le_bytes_are_bytes).
  assert (Hlen : length bs = 32%nat)
    by (unfold bs; rewrite !length_app, !le_bytes_length; reflexivity).
  destruct (decoders_on_32_bytes bs Hbytes Hlen) as (-> & -> & ->).
  assert (HC' : u64_at 0 bs = C) by apply (u64_at_le_bytes C [] _ HC).
  assert (HAR' : u64_at 8 bs = AR).
  { unfold bs. apply (u64_at_le_bytes AR (le_bytes 8 C) _ HAR). }
  assert (HS' : u64_at 16 bs = S).
  { unfold bs. rewrite (app_assoc (le_bytes 8 C)).
    apply (u64_at_le_bytes S (le_bytes 8 C ++ le_bytes 8 AR) _ HS). }
  assert (HU' : u64_at 24 bs = U).
  { unfold bs. rewrite (app_assoc (le_bytes 8 C)), (app_assoc (_ ++ _)).
    rewrite <- (app_nil_r (le_bytes 8 U)).
    apply (u64_at_le_bytes U ((le_bytes 8 C ++ le_bytes 8 AR) ++ le_bytes 8 S) [] HU). }
  now rewrite HC', HAR', HS', HU'.
Qed.

Lemma accounting_field_round_trip_witness :
  Dao.parseDaoAR (print_dao 10000000000 10000000000000000 7 10000000000000)
  = Ok 10000000000000000.
Proof.
  exact (proj1 (proj2 (accounting_field_round_trip 10000000000 10000000000000000 7
                         10000000000000 ltac:(lia) ltac:(lia) ltac:(lia) ltac:(lia)))).
Defined.

Lemma u64le_loop_reads buf n i x v :
  MinerSecondary.u64le_loop buf i n x = Ok v -> (n = 0 \/ i + n <= length buf)%nat.
Proof.
  revert i x. induction n as [|n IH]; intros i x; [now left|].
  cbn [MinerSecondary.u64le_loop].
  destruct (nth_error buf i) as [b|] eqn:Hb; [|discriminate].
  intros Hrest. right. apply IH in Hrest.
  assert (i < length buf)%nat by (apply nth_error_Some; congruence). lia.
Qed.

Lemma u64leFromHex16_range s v :
  MinerSecondary.u64leFromHex16 s = Ok v -> 0 <= v < 2 ^ 64.
Proof.
  unfold MinerSecondary.u64leFromHex16. intros Hv.
  pose proof (u64le_loop_reads _ _ _ _ _ Hv) as [Hn|Hlen]; [discriminate|].
  rewrite u64le_loop_value in Hv;
    [|apply Buffer_from_hex_bytes|assumption|cbn; lia].
  injection Hv as <-. cbn [Z.of_nat]. change (2 ^ (8 * 0)) with 1.
  rewrite Z.mul_1_l, Z.add_0_l.
  pose proof (le_value_bound (firstn 8 (skipn 0 (Buffer_from_hex s)))) as Hb.
  rewrite length_firstn, length_skipn in Hb.
  replace (Nat.min 8 (length (Buffer_from_hex s) - 0)) with 8%nat in Hb by lia.
  apply Hb, Forall_take, Forall_drop, Buffer_from_hex_bytes.
Qed.

Lemma readBigUInt64LE_range buf o v :
  Forall is_byte buf -> readBigUInt64LE buf o = Ok v -> 0 <= v < 2 ^ 64.
Proof.
  intros Hbuf. unfold readBigUInt64LE.
  destruct (Nat.eqb_spec (length (firstn 8 (skipn o buf))) 8) as [Hlen|];
    [|discriminate].
  intros [= <-].
  pose proof (le_value_bound (firstn 8 (skipn o buf))) as Hb.
  rewrite Hlen in Hb. apply Hb, Forall_take, Forall_drop, Hbuf.
Qed.

(** X3. Whatever string they are given, the decoders return 64-bit unsigned
    integers when they return at all. *)
Theorem decoded_fields_are_u64 (daoHex : string) :
  (forall cu, MinerSecondary.parseDao daoHex = Ok cu ->
     0 <= MinerSecondary.C cu < 2 ^ 64 /\ 0 <= MinerSecondary.U cu < 2 ^ 64)
  /\ (forall ar, Dao.parseDaoAR daoHex = Ok ar -> 0 <= ar < 2 ^ 64)
  /\ (forall s, Dao.parseDaoS daoHex = Ok s -> 0 <= s < 2 ^ 64).
Proof.
  split; [|split].
  - intros cu. unfold MinerSecondary.parseDao.
    destruct (negb _); [discriminate|].
    destruct (MinerSecondary.u64leFromHex16 (slice (0 * 16) _ _)) as [c|] eqn:Hc;
      cbn [mbind result_bind JS.bind]; [|discriminate].
    destruct (MinerSecondary.u64leFromHex16 (slice (3 * 16) _ _)) as [u|] eqn:Hu;
      cbn [mbind result_bind JS.bind]; [|discriminate].
    intros [= Hcu]. subst cu. cbn [MinerSecondary.C MinerSecondary.U].
    split; eapply u64leFromHex16_range; eassumption.
  - intros ar. apply readBigUInt64LE_range, Buffer_from_hex_bytes.
  - intros s. apply readBigUInt64LE_range, Buffer_from_hex_bytes.
Qed.

Lemma hex_digits_no_prefix h :
  hex_digits h = true -> strip0x h = h.
Proof.
  unfold strip0x, startsWith. destruct h as [|a [|b h]]; try reflexivity.
  - cbn [String.prefix]. destruct (ascii_dec "0" a); reflexivity.
  - intros H. apply hex_digits_cons in H as [_ H].
    apply hex_digits_cons in H as [[d Hd] _].
    cbn [String.prefix]. destruct (ascii_dec "0" a); [|reflexivity].
    destruct (ascii_dec "x" b) as [<-|]; [|reflexivity].
    vm_compute in Hd. discriminate Hd.
Qed.

(** X4. [parseDao] reads the same field with or without the [0x] prefix;
    [parseDaoAR] and [parseDaoS] drop two characters unconditionally, so on
    a field printed without the prefix they return the integers one byte
    further, at offsets 9 and 17. *)
Theorem prefix_is_optional_for_parseDao_only (h : string) :
  hex_digits h = true ->
  String.length h = 64%nat ->
  MinerSecondary.parseDao h = MinerSecondary.parseDao ("0x" ++ h)
  /\ Dao.parseDaoAR h = Ok (u64_at 9 (Buffer_from_hex h))
  /\ Dao.parseDaoS h = Ok (u64_at 17 (Buffer_from_hex h)).
Proof.
  intros Hh Hlen.
  assert (Hbuf : length (Buffer_from_hex h) = 32%nat)
    by (rewrite Buffer_from_hex_length, Hlen by assumption; reflexivity).
  split; [|split].
  - rewrite !parseDao_value;
      rewrite ?strip0x_prefixed, ?hex_digits_no_prefix; auto.
  - unfold Dao.parseDaoAR. change 2%nat with (2 * 1)%nat.
    rewrite (Buffer_from_hex_slice_from 1 h Hh).
    rewrite readBigUInt64LE_value by (rewrite length_skipn; lia).
    unfold u64_at. now rewrite skipn_skipn.
  - unfold Dao.parseDaoS. change 2%nat with (2 * 1)%nat.
    rewrite (Buffer_from_hex_slice_from 1 h Hh).
    rewrite readBigUInt64LE_value by (rewrite length_skipn; lia).
    unfold u64_at. now rewrite skipn_skipn.
Qed.

Lemma prefix_is_optional_for_parseDao_only_witness :
  Dao.parseDaoAR "00e40b54020000000000c16ff2862300000000000000000000a0724e18090000"
  = Ok 39062500000000.
Proof.
  exact (proj1 (proj2 (prefix_is_optional_for_parseDao_only
    "00e40b54020000000000c16ff2862300000000000000000000a0724e18090000"
    eq_refl eq_refl))).
Defined.

Lemma decoded_fields_are_u64_witness : 0 <= 10000000000000000 < 2 ^ 64.
Proof.
  exact (proj1 (proj2 (decoded_fields_are_u64
           "0x00e40b54020000000000c16ff2862300000000000000000000a0724e18090000"))
           10000000000000000 eq_refl).
Defined.
(** ** Secondary issuance per block and per epoch *)

(** X5. Within an epoch no block is issued more than an earlier one, two blocks
    differ by at most one shannon, and from index [R mod L] on every block is
    issued exactly [R / L]. *)
Theorem perBlockSecondary_non_increasing (L i j : Z) :
  0 < L -> i <= j ->
  exists s t,
    MinerSecondary.perBlockSecondary L i = Ok s
    /\ MinerSecondary.perBlockSecondary L j = Ok t
    /\ 0 <= t <= s /\ s <= t + 1
    /\ (MinerSecondary.SECONDARY_EPOCH_REWARD mod L <= j ->
        t = MinerSecondary.SECONDARY_EPOCH_REWARD / L).
Proof.
  intros HL Hij. rewrite !perBlockSecondary_formula by assumption.
  eexists _, _. split; [reflexivity|]. split; [reflexivity|].
  pose proof reward_nonneg.
  assert (0 <= MinerSecondary.SECONDARY_EPOCH_REWARD / L) by (apply Z.div_pos; lia).
  destruct (Z.ltb_spec i (MinerSecondary.SECONDARY_EPOCH_REWARD mod L)),
           (Z.ltb_spec j (MinerSecondary.SECONDARY_EPOCH_REWARD mod L)); lia.
Qed.

Lemma perBlockSecondary_non_increasing_witness :
  exists s t,
    MinerSecondary.perBlockSecondary 1800 3 = Ok s
    /\ MinerSecondary.perBlockSecondary 1800 1799 = Ok t
    /\ 0 <= t <= s /\ s <= t + 1
    /\ (MinerSecondary.SECONDARY_EPOCH_REWARD mod 1800 <= 1799 ->
        t = MinerSecondary.SECONDARY_EPOCH_REWARD / 1800).
Proof.
  exact (perBlockSecondary_non_increasing 1800 3 1799 ltac:(lia) ltac:(lia)).
Defined.

(** ** The estimated total (secondary_issuance_total.js) *)

Lemma partial_epoch_estimate L i :
  0 < L -> 0 <= i <= L ->
  let R := MinerSecondary.SECONDARY_EPOCH_REWARD in
  i * (R / L) <= R * i / L <= i * (R / L) + Z.min i (R mod L).
Proof.
  intros HL Hi R. pose proof reward_nonneg as HR. fold R in HR.
  pose proof (Z.div_mod R L ltac:(lia)) as Hdm.
  pose proof (Z.mod_pos_bound R L HL) as Hm.
  assert (HRi : R * i = i * (R / L) * L + (R mod L) * i) by nia.
  rewrite HRi, Z.div_add_l by lia.
  assert (0 <= (R mod L) * i / L) by (apply Z.div_pos; nia).
  assert ((R mod L) * i / L <= i).
  { apply Z.div_le_upper_bound; nia. }
  assert ((R mod L) * i / L <= R mod L).
  { apply Z.div_le_upper_bound; nia. }
  lia.
Qed.



(** X7. A tip header whose packed epoch has length 0 stops both scripts: the
    estimate divides by zero, and the streamed scan leaves with exit code 1
    before it calls [perBlockSecondary]. *)
Theorem zero_epoch_length_stops_both_scripts
    (e : Z) (epochHex : string) (st : MinerSecondaryScan.scan_state)
    (prev cur : header) :
  0 <= e < 2 ^ 40 ->
  BigInt epochHex = Ok e ->
  epoch cur = epochHex ->
  MinerSecondaryScan.prevHeader st = Some prev ->
  is_ok (MinerSecondary.parseDao (dao prev)) = true ->
  SecondaryTotal.main epochHex = Err RangeError
  /\ MinerSecondaryScan.block_step st (Some cur) = Err (Exit 1).
Proof.
  intros He Hbig Hcur Hprev Hdao.
  assert (Hlen : Z.shiftr e 40 = 0).
  { rewrite Z.shiftr_div_pow2 by lia. apply Z.div_small. lia. }
  split.
  - unfold SecondaryTotal.main, MinerSecondary.parseEpochPacked. rewrite Hbig.
    cbn [mbind result_bind JS.bind]. rewrite unpackEpoch_exact by lia.
    cbn [mbind result_bind JS.bind
         MinerSecondary.number MinerSecondary.index MinerSecondary.length].
    rewrite Hlen.
    change 16777215 with (2 ^ 24 - 1). change 65535 with (2 ^ 16 - 1).
    rewrite !land_low_mask by lia.
    pose proof (Z.mod_pos_bound e (2 ^ 24) ltac:(lia)).
    pose proof (Z.mod_pos_bound (Z.shiftr e 24) (2 ^ 16) ltac:(lia)).
    rewrite !BigInt_of_Number_exact by lia. reflexivity.
  - unfold MinerSecondaryScan.block_step. rewrite Hprev.
    cbn [field mbind result_bind JS.bind].
    destruct (MinerSecondary.parseDao (dao prev)) as [cu|]; [|discriminate].
    cbn [mbind result_bind JS.bind]. rewrite Hcur.
    unfold MinerSecondary.parseEpochPacked. rewrite Hbig.
    cbn [mbind result_bind JS.bind]. rewrite unpackEpoch_exact by lia.
    cbn [mbind result_bind JS.bind
         MinerSecondary.number MinerSecondary.index MinerSecondary.length].
    rewrite Hlen. reflexivity.
Qed.

Lemma zero_epoch_length_stops_both_scripts_witness :
  SecondaryTotal.main "0x5000032" = Err RangeError
  /\ MinerSecondaryScan.block_step
       {| MinerSecondaryScan.prevHeader := Some (sample_chain 0);
          MinerSecondaryScan.totalMinerSecondary := 0 |}
       (Some {| dao := dao (sample_chain 1); epoch := "0x5000032";
                timestamp := "0x0" |})
     = Err (Exit 1).
Proof.
  exact (zero_epoch_length_stops_both_scripts 83886130 "0x5000032"
           {| MinerSecondaryScan.prevHeader := Some (sample_chain 0);
              MinerSecondaryScan.totalMinerSecondary := 0 |}
           (sample_chain 0)
           {| dao := dao (sample_chain 1); epoch := "0x5000032"; timestamp := "0x0" |}
           ltac:(lia) eq_refl eq_refl eq_refl eq_refl).
Defined.

(** An epoch whose length is beyond the doubles reads as [Infinity]: the
    estimate throws at [BigInt(length)] and the streamed scan leaves with
    exit code 1. *)
Lemma oversized_epoch_length_stops_both_scripts
    (e : Z) (epochHex : string) (st : MinerSecondaryScan.scan_state)
    (prev cur : header) :
  2 ^ 1064 <= e ->
  BigInt epochHex = Ok e ->
  epoch cur = epochHex ->
  MinerSecondaryScan.prevHeader st = Some prev ->
  is_ok (MinerSecondary.parseDao (dao prev)) = true ->
  SecondaryTotal.main epochHex = Err RangeError
  /\ MinerSecondaryScan.block_step st (Some cur) = Err (Exit 1).
Proof.
  intros He Hbig Hcur Hprev Hdao.
  assert (Hlen : Number (Z.shiftr e 40) = INFINITY).
  { apply Number_overflow. rewrite Z.shiftr_div_pow2 by lia.
    apply Z.div_le_lower_bound; [lia|]. rewrite <- Z.pow_add_r by lia. exact He. }
  split.
  - unfold SecondaryTotal.main, MinerSecondary.parseEpochPacked. rewrite Hbig.
    cbn [mbind result_bind JS.bind]. unfold MinerSecondary.unpackEpoch.
    cbn [MinerSecondary.number MinerSecondary.index MinerSecondary.length].
    rewrite Hlen.
    change 16777215 with (2 ^ 24 - 1). change 65535 with (2 ^ 16 - 1).
    rewrite !land_low_mask by lia.
    pose proof (Z.mod_pos_bound e (2 ^ 24) ltac:(lia)).
    pose proof (Z.mod_pos_bound (Z.shiftr e 24) (2 ^ 16) ltac:(lia)).
    rewrite !Number_exact by lia.
    rewrite (BigInt_of_Number_exact (Z.max 0 _)) by lia.
    cbn [mbind result_bind JS.bind].
    rewrite (BigInt_of_Number_exact (_ mod _)) by lia. reflexivity.
  - unfold MinerSecondaryScan.block_step. rewrite Hprev.
    cbn [field mbind result_bind JS.bind].
    destruct (MinerSecondary.parseDao (dao prev)) as [cu|]; [|discriminate].
    cbn [mbind result_bind JS.bind]. rewrite Hcur.
    unfold MinerSecondary.parseEpochPacked. rewrite Hbig.
    cbn [mbind result_bind JS.bind]. unfold MinerSecondary.unpackEpoch.
    cbn [MinerSecondary.length]. rewrite Hlen. reflexivity.
Qed.

(** ** The windowed fetch of the streamed scan *)

Section Windows.
Import MinerSecondary MinerSecondaryScan.

Variable answer : Z -> option header.
Variables CONCURRENCY WINDOW_MULT : Z.
Hypothesis workers : 1 <= CONCURRENCY.

Local Abbreviation answering := (fun n : Z => Ok (answer n)).

Lemma fetch_window_answers from count :
  fetch_window answering from count = Ok (headers_from answer from count).
Proof.
  revert from. induction count as [|count IH]; intros from; [reflexivity|].
  cbn [fetch_window headers_from mbind result_bind JS.bind].
  now rewrite IH.
Qed.

Lemma headers_from_app from n m :
  headers_from answer from (n + m)
  = headers_from answer from n ++ headers_from answer (from + Z.of_nat n) m.
Proof.
  revert from. induction n as [|n IH]; intros from.
  - cbn [Nat.add headers_from Z.of_nat app]. now rewrite Z.add_0_r.
  - cbn [Nat.add headers_from]. rewrite IH. cbn [app].
    replace (from + 1 + Z.of_nat n) with (from + Z.of_nat (S n)) by lia. reflexivity.
Qed.

Lemma window_loop_app out1 out2 st :
  window_loop (out1 ++ out2) st = (st' ← window_loop out1 st; window_loop out2 st').
Proof.
  revert st. induction out1 as [|h out1 IH]; intros st; [reflexivity|].
  cbn [app window_loop]. destruct (block_step st h) as [[m st']|e];
    cbn [mbind result_bind JS.bind]; [apply IH|reflexivity].
Qed.

Lemma scan_loop_is_one_fold fuel cur end_ st :
  (Z.to_nat (end_ + 1 - cur) <= fuel)%nat ->
  scan_loop answering CONCURRENCY WINDOW_MULT fuel cur end_ st
  = Some (window_loop (headers_from answer cur (Z.to_nat (end_ + 1 - cur))) st).
Proof.
  revert cur st. induction fuel as [|fuel IH]; intros cur st Hfuel.
  - cbn [scan_loop]. destruct (Z.leb_spec cur end_); [lia|].
    replace (Z.to_nat (end_ + 1 - cur)) with 0%nat by lia. reflexivity.
  - cbn [scan_loop]. destruct (Z.leb_spec cur end_) as [Hle|Hgt].
    2:{ replace (Z.to_nat (end_ + 1 - cur)) with 0%nat by lia. reflexivity. }
    pose proof (Z.le_max_l 1 (CONCURRENCY * WINDOW_MULT)) as Hws.
    fold (windowSize CONCURRENCY WINDOW_MULT) in Hws |- *.
    set (winTo := Z.min end_ (cur + windowSize CONCURRENCY WINDOW_MULT - 1)).
    assert (HwinTo : cur <= winTo <= end_) by (unfold winTo; lia).
    unfold run_workers. destruct (Z.ltb_spec CONCURRENCY 1); [lia|].
    rewrite fetch_window_answers. cbn [mbind result_bind JS.bind].
    replace (Z.to_nat (end_ + 1 - cur))
      with (Z.to_nat (winTo - cur + 1) + Z.to_nat (end_ + 1 - (winTo + 1)))%nat by lia.
    rewrite headers_from_app, window_loop_app.
    replace (cur + Z.of_nat (Z.to_nat (winTo - cur + 1))) with (winTo + 1) by lia.
    destruct (window_loop _ st) as [st'|e]; cbn [mbind result_bind JS.bind];
      [|reflexivity].
    apply IH. lia.
Qed.

End Windows.



Lemma scan_loop_ends getHeaderByNumber CONCURRENCY WINDOW_MULT fuel cur end_ st :
  (Z.to_nat (end_ + 1 - cur) <= fuel)%nat ->
  is_Some (MinerSecondaryScan.scan_loop getHeaderByNumber CONCURRENCY WINDOW_MULT
             fuel cur end_ st).
Proof.
  revert cur st. induction fuel as [|fuel IH]; intros cur st Hfuel.
  - cbn [MinerSecondaryScan.scan_loop]. destruct (Z.leb_spec cur end_); [lia|]. eauto.
  - cbn [MinerSecondaryScan.scan_loop]. destruct (Z.leb_spec cur end_) as [Hle|Hgt]; [|eauto].
    pose proof (Z.le_max_l 1 (CONCURRENCY * WINDOW_MULT)) as Hws.
    fold (MinerSecondaryScan.windowSize CONCURRENCY WINDOW_MULT) in Hws |- *.
    destruct (mbind _ _) as [st'|e]; [|eauto].
    apply IH. lia.
Qed.


(** ** Settings and reruns of the checkpointed miner-reward scan *)

Lemma resume_after_failed_run_witness :
  snd <$> MinerReward.main 3 1 sample_rpcBatch 10 9
            (Some {| MinerReward.nextHeight := 6; MinerReward.sum := 5011;
                     MinerReward.endHeight := 9 |})
  = Some (Ok (sum_from (contribution sample_rewards) 0 (Z.to_nat (9 + 1)))).
Proof.
  refine (resume_after_failed_run 3 1 1 sample_failing_rpcBatch sample_rpcBatch
            sample_rewards 9 10 10 _ (Err RpcFailure)
            ltac:(lia) ltac:(lia) _ (fun calls => eq_refl) eq_refl ltac:(cbn; lia)).
  intros calls rs. unfold sample_failing_rpcBatch, sample_rpcBatch.
  destruct (bool_decide (6 ∈ calls)); [discriminate|]. now intros [= <-].
Defined.

Section Settings.
Import MinerReward.

Variables BATCH_SIZE CHECKPOINT_EVERY_BATCH : Z.
Variable rpcBatch : list Z -> result (list (option Z)).

Lemma batches_without_progress fuel base endHeight s batchCount file :
  BATCH_SIZE <= 0 ->
  is_ok (rpcBatch []) = true ->
  base <= endHeight ->
  batches BATCH_SIZE CHECKPOINT_EVERY_BATCH rpcBatch fuel base endHeight s
    batchCount file = None.
Proof.
  intros HB Hrpc. revert base s batchCount file.
  induction fuel as [|fuel IH]; intros base s batchCount file Hbase;
    cbn [batches]; destruct (Z.leb_spec base endHeight); try lia; [reflexivity|].
  replace (Z.to_nat BATCH_SIZE) with 0%nat by lia. cbn [build_calls].
  destruct (rpcBatch []) as [rs|e]; [|discriminate].
  apply IH. lia.
Qed.

Lemma batches_keep_file_without_saves fuel base endHeight s batchCount file file' out :
  CHECKPOINT_EVERY_BATCH = 0 ->
  batches BATCH_SIZE CHECKPOINT_EVERY_BATCH rpcBatch fuel base endHeight s
    batchCount file = Some (file', out) ->
  file' = file.
Proof.
  intros ->. revert base s batchCount file.
  induction fuel as [|fuel IH]; intros base s batchCount file;
    cbn [batches]; destruct (base <=? endHeight); try discriminate;
    try (now intros [= <- _]).
  destruct (rpcBatch _) as [rs|e]; [|now intros [= <- _]].
  cbn [due Z.eqb negb andb]. apply IH.
Qed.

End Settings.



(** X12. With [CHECKPOINT_EVERY_BATCH = 0] no batch ever saves a checkpoint: a run
    that fails leaves the checkpoint file exactly as it found it. *)
Theorem no_checkpoint_saved_when_every_is_zero
    (BATCH_SIZE : Z) (rpcBatch : list Z -> result (list (option Z)))
    (endHeight : Z) (file file' : option MinerReward.checkpoint)
    (fuel : nat) (e : error) :
  MinerReward.main BATCH_SIZE 0 rpcBatch fuel endHeight file = Some (file', Err e) ->
  file' = file.
Proof.
  unfold MinerReward.main.
  destruct (endHeight <? _); [discriminate|].
  destruct (MinerReward.batches _ _ _ _ _ _ _ _ _) as [[f [total|e']]|] eqn:Hrun;
    try discriminate.
  intros [= <- _].
  now apply (batches_keep_file_without_saves BATCH_SIZE 0 rpcBatch) in Hrun.
Qed.

Lemma no_checkpoint_saved_when_every_is_zero_witness :
  exists file',
    MinerReward.main 3 0 sample_failing_rpcBatch 10 9 None = Some (file', Err RpcFailure)
    /\ file' = None.
Proof.
  exists None. split; [reflexivity|].
  exact (no_checkpoint_saved_when_every_is_zero 3 sample_failing_rpcBatch 9 None None
           10 RpcFailure eq_refl).
Defined.

(** X13. A run that completes writes the checkpoint [{end + 1, total, end}];
    started again on that file, for the same end or a lower one, the script
    reports the stored total and leaves the file alone without asking the
    node anything. *)
Theorem completed_run_is_not_repeated
    (BATCH_SIZE EVERY : Z) (rpcBatch : list Z -> result (list (option Z)))
    (endHeight total : Z) (file file1 : option MinerReward.checkpoint) (fuel : nat) :
  from_option MinerReward.nextHeight 0 file <= endHeight ->
  MinerReward.main BATCH_SIZE EVERY rpcBatch fuel endHeight file
    = Some (file1, Ok total) ->
  file1 = Some {| MinerReward.nextHeight := endHeight + 1; MinerReward.sum := total;
                  MinerReward.endHeight := endHeight |}
  /\ forall BATCH_SIZE' EVERY' rpcBatch' fuel' endHeight',
       endHeight' <= endHeight ->
       MinerReward.main BATCH_SIZE' EVERY' rpcBatch' fuel' endHeight' file1
       = Some (file1, Ok total).
Proof.
  intros Hleft. unfold MinerReward.main at 1.
  destruct (Z.ltb_spec endHeight (from_option MinerReward.nextHeight 0 file)); [lia|].
  destruct (MinerReward.batches _ _ _ _ _ _ _ _ _) as [[f [t|e']]|]; try discriminate.
  intros [= <- <-]. split; [reflexivity|].
  intros B' E' rpc' fuel' end' Hend'. unfold MinerReward.main.
  cbn [from_option MinerReward.nextHeight MinerReward.sum].
  destruct (Z.ltb_spec end' (endHeight + 1)); [reflexivity|lia].
Qed.

Lemma completed_run_is_not_repeated_witness :
  MinerReward.main 200 1 sample_failing_rpcBatch 0 7
    (Some {| MinerReward.nextHeight := 10; MinerReward.sum := 9041;
             MinerReward.endHeight := 9 |})
  = Some (Some {| MinerReward.nextHeight := 10; MinerReward.sum := 9041;
                  MinerReward.endHeight := 9 |}, Ok 9041).
Proof.
  destruct (completed_run_is_not_repeated 3 1 sample_rpcBatch 9 9041 None _ 10
              ltac:(cbn; lia) eq_refl) as [_ Hagain].
  exact (Hagain 200 1 sample_failing_rpcBatch 0%nat 7 ltac:(lia)).
Defined.
(** ** The two cell-size models *)

Lemma startsWith_0x s :
  startsWith "0x" s = true -> s = ("0x" ++ slice_from 2 s)%string.
Proof.
  unfold startsWith. destruct s as [|a [|b h]]; cbn [String.prefix].
  - discriminate.
  - destruct (ascii_dec "0" a); discriminate.
  - destruct (ascii_dec "0" a) as [<-|]; [|discriminate].
    destruct (ascii_dec "x" b) as [<-|]; [|discriminate].
    reflexivity.
Qed.

Lemma printed_field_sizes s :
  printed_field s = true ->
  Molecule.hexBytesLen_x2 s = 2 * Capacity.hexBytesLen s.
Proof.
  unfold printed_field, Molecule.hexBytesLen_x2, Capacity.hexBytesLen.
  destruct (String.eqb s "" || String.eqb s "0x") eqn:Hempty; [reflexivity|].
  apply orb_false_elim in Hempty as [-> _]. cbn [orb].
  intros H. apply andb_prop in H as [Hpre Heven]. rewrite Hpre.
  rewrite (startsWith_0x s Hpre) in Heven |- *.
  change (slice_from 2 ("0x" ++ slice_from 2 s)) with (slice_from 2 s).
  change (String.length ("0x" ++ slice_from 2 s)) with (S (S (String.length (slice_from 2 s))))
    in Heven |- *.
  change (Nat.even (S (S (String.length (slice_from 2 s)))))
    with (Nat.even (String.length (slice_from 2 s))) in Heven.
  apply Nat.even_spec in Heven as [k Hk]. rewrite Hk.
  replace (Z.of_nat (2 * k)) with (Z.of_nat k * 2) by lia.
  rewrite Z.div_mul by lia. lia.
Qed.

Lemma printed_field_or_0x a : printed_field a = true -> printed_field (or_0x a) = true.
Proof. unfold or_0x. destruct (String.eqb_spec a ""); [reflexivity|auto]. Qed.

(** X15. On fields printed by the node, the Molecule-style size used by the two
    treasury-burn scripts is the occupied size of ckb_capacity.js plus a
    constant: 37 bytes for a cell without type script, 57 bytes for a cell
    with one. The scripts that use it therefore see that many CKB less free
    capacity in every cell than the holder-statistics script does. *)
Theorem molecule_size_exceeds_occupied_size (cap : string) (lock_ : script)
    (type_ : option script) (data : string) :
  printed_field (args lock_) = true ->
  from_option (fun t => printed_field (args t)) true type_ = true ->
  printed_field data = true ->
  let o := {| capacity := cap; lock := Some lock_; type := type_ |} in
  let overhead := match type_ with Some _ => 57 | None => 37 end in
  Molecule.occupiedCapacity o data
  = Ok (Capacity.occupiedCapacity o data + overhead * 100000000).
Proof.
  intros Hlock Htype Hdata o overhead.
  unfold Molecule.occupiedCapacity, Capacity.occupiedCapacity.
  assert (Hsize : Molecule.cellSizeBytes_x2 o data
                  = 2 * (Capacity.occupiedBytes o data + overhead)).
  { unfold Molecule.cellSizeBytes_x2, Capacity.occupiedBytes,
      Molecule.scriptSizeBytes_x2, Capacity.scriptBytesForOccupied, o, overhead.
    cbn [lock type from_option].
    rewrite (printed_field_sizes data Hdata).
    rewrite (printed_field_sizes _ (printed_field_or_0x _ Hlock)).
    destruct type_ as [t|]; cbn [from_option] in Htype |- *.
    - rewrite (printed_field_sizes _ (printed_field_or_0x _ Htype)). lia.
    - lia. }
  rewrite Hsize. unfold Molecule.BigInt_of_x2.
  rewrite Z.even_mul. cbn [Z.even orb mbind result_bind JS.bind].
  rewrite (Z.mul_comm 2), Z.div_mul by lia.
  unfold Molecule.SHANNONS_PER_BYTE, Capacity.SHANNONS_PER_CKB. f_equal. lia.
Qed.

Lemma molecule_size_exceeds_occupied_size_witness :
  Molecule.occupiedCapacity (output sample_deposit) (output_data sample_deposit)
  = Ok (Capacity.occupiedCapacity (output sample_deposit) (output_data sample_deposit)
        + 57 * 100000000).
Proof.
  exact (molecule_size_exceeds_occupied_size "0x2e90edd000" sample_lock (Some DAO_TYPE)
           "0x0000000000000000" eq_refl eq_refl eq_refl).
Defined.
(** ** The deposit reward under the two cell-size models *)

Lemma print_dao_rate C AR S U :
  u64 C -> u64 AR -> u64 S -> u64 U ->
  Dao.parseDaoAR (print_dao C AR S U) = Ok AR
  /\ Dao.parseDaoS (print_dao C AR S U) = Ok S.
Proof.
  unfold u64. intros HC HAR HS HU. unfold print_dao.
  set (bs := le_bytes 8 C ++ le_bytes 8 AR ++ le_bytes 8 S ++ le_bytes 8 U).
  assert (Hbytes : Forall is_byte bs)
    by (unfold bs; repeat apply Forall_app_2; apply le_bytes_are_bytes).
  assert (Hlen : length bs = 32%nat)
    by (unfold bs; rewrite !length_app, !le_bytes_length; reflexivity).
  destruct (decoders_on_32_bytes bs Hbytes Hlen) as (_ & -> & ->).
  split; f_equal.
  - unfold bs. apply (u64_at_le_bytes AR (le_bytes 8 C) _ HAR).
  - unfold bs. rewrite (app_assoc (le_bytes 8 C)).
    apply (u64_at_le_bytes S (le_bytes 8 C ++ le_bytes 8 AR) _ HS).
Qed.

Lemma fetchAR_printed node bn h C AR S U :
  node bn = Ok (Some h) -> dao h = print_dao C AR S U ->
  u64 C -> u64 AR -> u64 S -> u64 U ->
  Dao.fetchAR node bn = Ok AR.
Proof.
  intros Hnode Hdao HC HAR HS HU. unfold Dao.fetchAR. rewrite Hnode.
  cbn [mbind result_bind JS.bind field]. rewrite Hdao.
  now apply print_dao_rate.
Qed.

Lemma node_field_or_0x a : node_field a = true -> node_field (or_0x a) = true.
Proof.
  unfold node_field. intros H. apply andb_prop in H as [Hp Hh].
  now rewrite printed_field_or_0x, or_0x_hex_field.
Qed.

Lemma occupiedCapacity_shannons cap lock_ type_ data :
  node_field (args lock_) = true -> node_field (args type_) = true ->
  node_field data = true ->
  Capacity.occupiedCapacity
    {| capacity := cap; lock := Some lock_; type := Some type_ |} data
  = occupied_shannons lock_ type_ data.
Proof.
  unfold node_field. intros Hl Ht Hd.
  apply andb_prop in Hl as [_ Hl]. apply andb_prop in Ht as [_ Ht].
  apply andb_prop in Hd as [_ Hd].
  unfold Capacity.occupiedCapacity, Capacity.occupiedBytes, occupied_shannons.
  cbn [lock type].
  now rewrite !scriptBytesForOccupied_charge, hexBytesLen_byte_len by assumption.
Qed.

Lemma molecule_occupiedCapacity_shannons cap lock_ type_ data :
  node_field (args lock_) = true -> node_field (args type_) = true ->
  node_field data = true ->
  Molecule.occupiedCapacity
    {| capacity := cap; lock := Some lock_; type := Some type_ |} data
  = Ok (occupied_shannons lock_ type_ data + 5700000000).
Proof.
  intros Hl Ht Hd.
  rewrite <- (occupiedCapacity_shannons cap) by assumption.
  unfold node_field in Hl, Ht, Hd.
  apply andb_prop in Hl as [Hl _]. apply andb_prop in Ht as [Ht _].
  apply andb_prop in Hd as [Hd _].
  set (o := {| capacity := cap; lock := Some lock_; type := Some type_ |}).
  unfold Molecule.occupiedCapacity, Capacity.occupiedCapacity.
  assert (Hsize : Molecule.cellSizeBytes_x2 o data
                  = 2 * (Capacity.occupiedBytes o data + 57)).
  { unfold Molecule.cellSizeBytes_x2, Capacity.occupiedBytes,
      Molecule.scriptSizeBytes_x2, Capacity.scriptBytesForOccupied, o.
    cbn [lock type from_option].
    rewrite (printed_field_sizes data Hd).
    rewrite (printed_field_sizes _ (printed_field_or_0x _ Hl)).
    rewrite (printed_field_sizes _ (printed_field_or_0x _ Ht)). lia. }
  rewrite Hsize. unfold Molecule.BigInt_of_x2.
  rewrite Z.even_mul. cbn [Z.even orb mbind result_bind JS.bind].
  rewrite (Z.mul_comm 2), Z.div_mul by lia.
  unfold Molecule.SHANNONS_PER_BYTE, Capacity.SHANNONS_PER_CKB. f_equal. lia.
Qed.

Lemma tip_rate_read get_indexer_tip get_header tip h C AR S U :
  get_indexer_tip = Ok (Some tip) ->
  get_header (IndexerTip.block_hash tip) = Ok (Some h) ->
  dao h = print_dao C AR S U ->
  u64 C -> u64 AR -> u64 S -> u64 U ->
  is_ok (BigInt (IndexerTip.block_number tip)) = true ->
  exists dec,
    Dao.getIndexerARandS get_indexer_tip get_header
    = Ok {| IndexerTip.AR := AR; IndexerTip.S := S;
            IndexerTip.heightHex := IndexerTip.block_number tip;
            IndexerTip.heightDec := dec;
            IndexerTip.hash := IndexerTip.block_hash tip |}.
Proof.
  intros Htip Hh Hdao HC HAR HS HU Hbn. unfold Dao.getIndexerARandS.
  rewrite Htip. cbn [mbind result_bind JS.bind field]. rewrite Hh.
  cbn [mbind result_bind JS.bind field]. rewrite Hdao.
  destruct (print_dao_rate C AR S U HC HAR HS HU) as [-> ->].
  cbn [mbind result_bind JS.bind].
  destruct (BigInt (IndexerTip.block_number tip)) as [dec|]; [|discriminate].
  now exists dec.
Qed.

Section DepositUnderBothModels.

Variable node : string -> result (option header).
Variables (c : live_cell) (cap occ AR AR_deposit : Z).
Hypothesis tip_rate : 0 <= AR.
Hypothesis capacity_read : BigInt (capacity (output c)) = Ok cap.
Hypothesis deposit_rate : Dao.fetchAR node (block_number c) = Ok AR_deposit.
Hypothesis deposit_rate_pos : 0 < AR_deposit.
Hypothesis deposit_data : output_data c = Dao.DEPOSIT_DATA.
Hypothesis molecule_size :
  Molecule.occupiedCapacity (output c) (output_data c) = Ok occ.

Lemma simple_body_adds st :
  coherent node (UnclaimedSimple.arCache st) ->
  exists st',
    UnclaimedSimple.body node AR st c = Ok st'
    /\ UnclaimedSimple.unclaimed st'
       = UnclaimedSimple.unclaimed st
         + (if cap - occ <=? 0 then 0
            else when_positive (floor_reward (cap - occ) AR AR_deposit)).
Proof.
  intros Hco. destruct (Z.leb_spec (cap - occ) 0) as [Hfree|Hfree].
  - unfold UnclaimedSimple.body. rewrite capacity_read, molecule_size.
    cbn [mbind result_bind JS.bind].
    destruct (Z.ltb_spec 0 (cap - occ)); [lia|].
    destruct (UnclaimedSimple.arCache st !! block_number c) as [v|];
      [|rewrite deposit_rate]; cbn [mbind result_bind JS.bind];
      (eexists; split; [reflexivity|cbn; lia]).
  - destruct (simple_body_deposit node c cap AR AR_deposit tip_rate capacity_read
                deposit_rate deposit_rate_pos st occ molecule_size Hfree Hco)
      as [cache ->].
    eexists; split; [reflexivity|]. reflexivity.
Qed.

Lemma by_kind_body_adds st :
  coherent node (UnclaimedByKind.arCache st) ->
  exists st',
    UnclaimedByKind.body node AR st c = Ok st'
    /\ UnclaimedByKind.unclaimedDeposit st'
       = UnclaimedByKind.unclaimedDeposit st
         + (if cap - occ <=? 0 then 0
            else when_positive (floor_reward (cap - occ) AR AR_deposit)).
Proof.
  intros Hco. destruct (Z.leb_spec (cap - occ) 0) as [Hfree|Hfree].
  - rewrite (by_kind_body_skips node AR cap c capacity_read st occ molecule_size Hfree).
    eexists; split; [reflexivity|cbn; lia].
  - destruct (by_kind_body_deposit node c cap AR AR_deposit tip_rate capacity_read
                deposit_rate deposit_rate_pos st occ deposit_data molecule_size Hfree Hco)
      as (st' & -> & Hd & _).
    eexists; split; [reflexivity|]. exact Hd.
Qed.

End DepositUnderBothModels.

(** C1 (a defect of the two treasury-burn scripts). Take a deposit cell
    with a lock and a type script, [free = capacity - occupiedCapacity] its
    free capacity, [AR_tip] the accumulated rate in the header of the indexer
    tip - the rate [getIndexerARandS] hands to the scan - and [AR_deposit],
    not zero, the rate in the header of the cell's own block. For
    [free > 0] the holder-statistics script adds
    [floor(free * AR_tip / AR_deposit) - free] to its deposit total exactly
    when it is positive, and the reward is [0] at equal rates, as stated.
    The two treasury-burn scripts size the cell with their own
    [occupiedCapacity], 57 bytes larger: a cell with up to 57 CKB of free
    capacity adds nothing, whatever its reward, and a cell with more is
    priced on [free - 57 CKB]. *)
Theorem C1_molecule_sizing_drops_deposit_reward
    (get_indexer_tip : result (option IndexerTip.answer))
    (get_header node : string -> result (option header))
    (tip : IndexerTip.answer) (tipHeader depositHeader : header)
    (c : live_cell) (lock_ type_ : script)
    (cap C_tip AR_tip S_tip U_tip C_dep AR_deposit S_dep U_dep : Z) :
  get_indexer_tip = Ok (Some tip) ->
  get_header (IndexerTip.block_hash tip) = Ok (Some tipHeader) ->
  dao tipHeader = print_dao C_tip AR_tip S_tip U_tip ->
  u64 C_tip -> u64 AR_tip -> u64 S_tip -> u64 U_tip ->
  is_ok (BigInt (IndexerTip.block_number tip)) = true ->
  node (block_number c) = Ok (Some depositHeader) ->
  dao depositHeader = print_dao C_dep AR_deposit S_dep U_dep ->
  u64 C_dep -> u64 AR_deposit -> u64 S_dep -> u64 U_dep ->
  0 < AR_deposit ->
  output_data c = "0x0000000000000000"%string ->
  lock (output c) = Some lock_ ->
  type (output c) = Some type_ ->
  node_field (args lock_) = true ->
  node_field (args type_) = true ->
  BigInt (capacity (output c)) = Ok cap ->
  let free := cap - occupied_shannons lock_ type_ (output_data c) in
  let reward := floor_reward free AR_tip AR_deposit in
  0 < free ->
  (exists info,
     Dao.getIndexerARandS get_indexer_tip get_header = Ok info
     /\ IndexerTip.AR info = AR_tip)
  /\ (AR_tip = AR_deposit -> reward = 0)
  /\ (forall st,
        coherent node (UnclaimedStats.arCache st) ->
        is_ok (UnclaimedStats.getTimestampByBlockNumberHex node (block_number c)
                 (UnclaimedStats.tsCache st)) = true ->
        exists st',
          UnclaimedStats.body node AR_tip st c = Ok st'
          /\ UnclaimedStats.unclaimedDeposit st'
             = UnclaimedStats.unclaimedDeposit st + when_positive reward)
  /\ (forall st,
        coherent node (UnclaimedSimple.arCache st) ->
        exists st',
          UnclaimedSimple.body node AR_tip st c = Ok st'
          /\ UnclaimedSimple.unclaimed st'
             = UnclaimedSimple.unclaimed st
               + (if free <=? 5700000000 then 0
                  else when_positive
                         (floor_reward (free - 5700000000) AR_tip AR_deposit)))
  /\ (forall st,
        coherent node (UnclaimedByKind.arCache st) ->
        exists st',
          UnclaimedByKind.body node AR_tip st c = Ok st'
          /\ UnclaimedByKind.unclaimedDeposit st'
             = UnclaimedByKind.unclaimedDeposit st
               + (if free <=? 5700000000 then 0
                  else when_positive
                         (floor_reward (free - 5700000000) AR_tip AR_deposit))).
Proof.
  intros Htip Hhdr Htdao HCt HARt HSt HUt Hbn Hnode Hddao HCd HARd HSd HUd Hpos
    Hdata Hlock Htype Hlargs Htargs Hcap free reward Hfree.
  assert (Hrate : Dao.fetchAR node (block_number c) = Ok AR_deposit)
    by (eapply fetchAR_printed; eassumption).
  assert (HAR0 : 0 <= AR_tip) by (unfold u64 in HARt; lia).
  assert (Hd : node_field (output_data c) = true) by (rewrite Hdata; reflexivity).
  assert (Hocc : Capacity.occupiedCapacity (output c) (output_data c)
                 = occupied_shannons lock_ type_ (output_data c)).
  { destruct c as [[capHex l t] data bn]. cbn [output lock type output_data] in *.
    subst l t. now apply occupiedCapacity_shannons. }
  assert (Hmol : Molecule.occupiedCapacity (output c) (output_data c)
                 = Ok (occupied_shannons lock_ type_ (output_data c) + 5700000000)).
  { destruct c as [[capHex l t] data bn]. cbn [output lock type output_data] in *.
    subst l t. now apply molecule_occupiedCapacity_shannons. }
  split; [|split; [|split; [|split]]].
  - destruct (tip_rate_read _ _ _ _ _ _ _ _ Htip Hhdr Htdao HCt HARt HSt HUt Hbn)
      as [dec ->].
    eexists; split; reflexivity.
  - intros ->. now apply floor_reward_same_rate.
  - intros st Hco Hts.
    destruct (stats_body_deposit node c cap AR_tip AR_deposit HAR0 Hcap Hrate Hpos st
                Hdata ltac:(rewrite Hocc; exact Hfree) Hco Hts)
      as (st' & Hbody & Hsum & _).
    exists st'. split; [exact Hbody|]. rewrite Hsum, Hocc. reflexivity.
  - intros st Hco.
    destruct (simple_body_adds node c cap _ AR_tip AR_deposit HAR0 Hcap Hrate Hpos
                Hmol st Hco) as (st' & Hbody & Hsum).
    exists st'. split; [exact Hbody|]. rewrite Hsum. fold free.
    replace (cap - (occupied_shannons lock_ type_ (output_data c) + 5700000000))
      with (free - 5700000000) by (unfold free; lia).
    destruct (Z.leb_spec (free - 5700000000) 0), (Z.leb_spec free 5700000000);
      try lia; reflexivity.
  - intros st Hco.
    destruct (by_kind_body_adds node c cap _ AR_tip AR_deposit HAR0 Hcap Hrate Hpos
                Hdata Hmol st Hco) as (st' & Hbody & Hsum).
    exists st'. split; [exact Hbody|]. rewrite Hsum. fold free.
    replace (cap - (occupied_shannons lock_ type_ (output_data c) + 5700000000))
      with (free - 5700000000) by (unfold free; lia).
    destruct (Z.leb_spec (free - 5700000000) 0), (Z.leb_spec free 5700000000);
      try lia; reflexivity.
Qed.

Lemma C1_witness_scenario_deposit :
  (exists st',
     UnclaimedStats.body sample_node 10500000000000000 sample_stats scenario_deposit
     = Ok st'
     /\ UnclaimedStats.unclaimedDeposit st' = 100000000)
  /\ (exists st',
        UnclaimedSimple.body sample_node 10500000000000000
          {| UnclaimedSimple.daoDeposit := 0; UnclaimedSimple.unclaimed := 0;
             UnclaimedSimple.arCache := ∅ |} scenario_deposit
        = Ok st'
        /\ UnclaimedSimple.unclaimed st' = 0)
  /\ (exists st',
        UnclaimedByKind.body sample_node 10500000000000000 UnclaimedByKind.init
          scenario_deposit
        = Ok st'
        /\ UnclaimedByKind.unclaimedDeposit st' = 0).
Proof.
  destruct (C1_molecule_sizing_drops_deposit_reward
              (Ok (Some scenario_tip)) scenario_get_header sample_node
              scenario_tip (sample_chain 2) (sample_chain 1)
              scenario_deposit scenario_lock DAO_TYPE
              10200000000
              30000000000 10500000000000000 0 10000000000000
              20000000000 10000000000000000 0 10000000000000
              eq_refl eq_refl eq_refl
              ltac:(unfold u64; lia) ltac:(unfold u64; lia) ltac:(unfold u64; lia)
              ltac:(unfold u64; lia) eq_refl eq_refl eq_refl
              ltac:(unfold u64; lia) ltac:(unfold u64; lia) ltac:(unfold u64; lia)
              ltac:(unfold u64; lia) ltac:(lia) eq_refl eq_refl eq_refl eq_refl eq_refl
              eq_refl ltac:(now vm_compute))
    as (_ & _ & Hstats & Hsimple & Hkind).
  split; [|split].
  - exact (Hstats sample_stats (coherent_empty sample_node) eq_refl).
  - exact (Hsimple {| UnclaimedSimple.daoDeposit := 0; UnclaimedSimple.unclaimed := 0;
                      UnclaimedSimple.arCache := ∅ |} (coherent_empty sample_node)).
  - exact (Hkind UnclaimedByKind.init (coherent_empty sample_node)).
Defined.

(** The three scripts run on a node that serves this one cell: the
    holder-statistics script reports 1 CKB of unclaimed reward, the two
    treasury-burn scripts report none. *)
Lemma scenario_reports :
  match UnclaimedStats.main (Ok (Some scenario_tip)) scenario_get_header sample_node
          (sample_cells [scenario_deposit]) 1 with
  | Some (Ok st) => Some (UnclaimedStats.unclaimedDeposit st)
  | _ => None
  end = Some 100000000
  /\ match UnclaimedSimple.main (Ok (Some scenario_tip)) scenario_get_header sample_node
             (sample_cells [scenario_deposit]) 1 with
     | Some (Ok st) => Some (UnclaimedSimple.unclaimed st)
     | _ => None
     end = Some 0
  /\ match UnclaimedByKind.main (Ok (Some scenario_tip)) scenario_get_header sample_node
             (sample_cells [scenario_deposit]) 1 with
     | Some (Ok st) => Some (UnclaimedByKind.unclaimedDeposit st)
     | _ => None
     end = Some 0.
Proof. repeat split; vm_compute; reflexivity. Qed.

(** ** Rewards as interest on the free capacity *)

(** X16. For a cell with free capacity the reward [(free * AR_k) / AR_i - free]
    is the interest [floor(free * (AR_k - AR_i) / AR_i)] when the rate has
    not gone down, hence never negative; when the rate has not gone up it is
    never positive, so nothing is added to the total. *)
Theorem reward_is_interest_on_free_capacity (free AR_k AR_i total : Z) :
  0 <= free -> 0 < AR_i -> 0 <= AR_k ->
  exists r,
    Dao.reward_of free AR_k AR_i = Ok r
    /\ (AR_i <= AR_k -> r = free * (AR_k - AR_i) / AR_i /\ 0 <= r)
    /\ (AR_k <= AR_i -> r <= 0 /\ Dao.add_if_positive total r = total).
Proof.
  intros Hfree Hi Hk. unfold Dao.reward_of.
  rewrite bigint_div_floor by nia. cbn [mbind result_bind JS.bind].
  eexists; split; [reflexivity|]. split.
  - intros Hle.
    replace (free * AR_k) with (free * (AR_k - AR_i) + free * AR_i) by lia.
    rewrite Z.div_add by lia.
    assert (0 <= free * (AR_k - AR_i) / AR_i) by (apply Z.div_pos; nia).
    lia.
  - intros Hle.
    assert (free * AR_k / AR_i <= free) by (apply Z.div_le_upper_bound; nia).
    split; [lia|]. unfold Dao.add_if_positive.
    destruct (Z.ltb_spec 0 (free * AR_k / AR_i - free)); [lia|reflexivity].
Qed.

Lemma reward_is_interest_on_free_capacity_witness :
  exists r,
    Dao.reward_of 9800000000 10500000000000000 10000000000000000 = Ok r
    /\ (10000000000000000 <= 10500000000000000 ->
        r = 9800000000 * (10500000000000000 - 10000000000000000) / 10000000000000000
        /\ 0 <= r)
    /\ (10500000000000000 <= 10000000000000000 ->
        r <= 0 /\ Dao.add_if_positive 0 r = 0).
Proof.
  exact (reward_is_interest_on_free_capacity 9800000000 10500000000000000
           10000000000000000 0 ltac:(lia) ltac:(lia) ltac:(lia)).
Defined.

Lemma reward_of_no_free free AR_k AR_i :
  free <= 0 -> 0 < AR_i -> AR_i <= AR_k ->
  exists r, Dao.reward_of free AR_k AR_i = Ok r /\ r <= 0.
Proof.
  intros Hfree Hi Hk. unfold Dao.reward_of, bigint_div.
  destruct (Z.eqb_spec AR_i 0); [lia|]. cbn [mbind result_bind JS.bind].
  eexists; split; [reflexivity|].
  replace (free * AR_k) with (- ((- free) * AR_k)) by lia.
  rewrite Z.quot_opp_l by lia.
  rewrite Z.quot_div_nonneg by nia.
  assert (- free <= - free * AR_k / AR_i) by (apply Z.div_le_lower_bound; nia).
  lia.
Qed.

(** X17. The holder-statistics script has no [free <= 0] guard. A deposit cell
    with no free capacity is still counted, with its capacity and its
    address, but as long as the rate has not gone down since the deposit its
    reward is not positive and the unclaimed totals stay as they were. *)
Theorem deposit_without_free_capacity_earns_nothing
    (node : string -> result (option header)) (c : live_cell)
    (cap AR AR_deposit : Z) (st : UnclaimedStats.stats) :
  output_data c = Dao.DEPOSIT_DATA ->
  BigInt (capacity (output c)) = Ok cap ->
  cap - Capacity.occupiedCapacity (output c) (output_data c) <= 0 ->
  Dao.fetchAR node (block_number c) = Ok AR_deposit ->
  0 < AR_deposit <= AR ->
  coherent node (UnclaimedStats.arCache st) ->
  is_ok (UnclaimedStats.getTimestampByBlockNumberHex node (block_number c)
           (UnclaimedStats.tsCache st)) = true ->
  exists st',
    UnclaimedStats.body node AR st c = Ok st'
    /\ UnclaimedStats.unclaimedDeposit st' = UnclaimedStats.unclaimedDeposit st
    /\ UnclaimedStats.unclaimedPrepare st' = UnclaimedStats.unclaimedPrepare st
    /\ UnclaimedStats.cntDeposit st' = UnclaimedStats.cntDeposit st + 1
    /\ UnclaimedStats.unclaimedDepositCapacity st'
       = UnclaimedStats.unclaimedDepositCapacity st + cap
    /\ UnclaimedStats.lockKey (lock (output c)) ∈ UnclaimedStats.depositAddrSet st'.
Proof.
  intros Hdata Hcap Hfree Hrate HAR Hco Hts. unfold UnclaimedStats.body.
  rewrite Hcap. cbn [mbind result_bind JS.bind].
  destruct (String.eqb_spec (output_data c) Dao.DEPOSIT_DATA); [|contradiction].
  destruct (UnclaimedStats.getTimestampByBlockNumberHex _ _ _) as [[depTs ts1]|];
    [|discriminate].
  cbn [mbind result_bind JS.bind].
  destruct (getAR_coherent node _ _ _ Hco Hrate) as (cache & -> & _).
  cbn [mbind result_bind JS.bind].
  destruct (reward_of_no_free _ AR AR_deposit Hfree ltac:(lia) ltac:(lia))
    as (r & -> & Hr).
  cbn [mbind result_bind JS.bind].
  eexists; split; [reflexivity|].
  cbn [UnclaimedStats.unclaimedDeposit UnclaimedStats.unclaimedPrepare
       UnclaimedStats.cntDeposit UnclaimedStats.unclaimedDepositCapacity
       UnclaimedStats.depositAddrSet].
  repeat split; [|set_solver].
  unfold Dao.add_if_positive. destruct (Z.ltb_spec 0 r); [lia|reflexivity].
Qed.

Lemma deposit_without_free_capacity_earns_nothing_witness :
  exists st',
    UnclaimedStats.body sample_node 10500000000000000 sample_stats sample_full_deposit
    = Ok st'
    /\ UnclaimedStats.unclaimedDeposit st' = UnclaimedStats.unclaimedDeposit sample_stats
    /\ UnclaimedStats.unclaimedPrepare st' = UnclaimedStats.unclaimedPrepare sample_stats
    /\ UnclaimedStats.cntDeposit st' = UnclaimedStats.cntDeposit sample_stats + 1
    /\ UnclaimedStats.unclaimedDepositCapacity st'
       = UnclaimedStats.unclaimedDepositCapacity sample_stats + 10200000000
    /\ UnclaimedStats.lockKey (lock (output sample_full_deposit))
       ∈ UnclaimedStats.depositAddrSet st'.
Proof.
  exact (deposit_without_free_capacity_earns_nothing sample_node sample_full_deposit
           10200000000 10500000000000000 10000000000000000 sample_stats
           eq_refl eq_refl ltac:(now vm_compute) eq_refl ltac:(lia)
           (coherent_empty sample_node) eq_refl).
Defined.

(** ** Unclaimed reward of a prepare-withdraw cell *)

Lemma fetchAR_nonneg node bn ar : Dao.fetchAR node bn = Ok ar -> 0 <= ar.
Proof.
  unfold Dao.fetchAR. destruct (node bn) as [h|]; [|discriminate].
  cbn [mbind result_bind JS.bind]. destruct (field dao h) as [d|]; [|discriminate].
  cbn [mbind result_bind JS.bind]. apply parseDaoAR_nonneg.
Qed.

Section PrepareCell.

Variable node : string -> result (option header).
Variables (c : live_cell) (cap AR_i AR_j : Z) (depositBnHex : string).
Hypothesis not_deposit : output_data c <> Dao.DEPOSIT_DATA.
Hypothesis deposit_block : Dao.parsePrepareBlockNumberHex (output_data c) = Ok depositBnHex.
Hypothesis capacity_read : BigInt (capacity (output c)) = Ok cap.
Hypothesis deposit_rate : Dao.fetchAR node depositBnHex = Ok AR_i.
Hypothesis prepare_rate : Dao.fetchAR node (block_number c) = Ok AR_j.
Hypothesis deposit_rate_pos : 0 < AR_i.

Lemma prepare_rates cache :
  coherent node cache ->
  exists cache1 cache2,
    Dao.getARByBlockNumberHex node depositBnHex cache = Ok (AR_i, cache1)
    /\ Dao.getARByBlockNumberHex node (block_number c) cache1 = Ok (AR_j, cache2).
Proof.
  intros Hco.
  destruct (getAR_coherent node _ _ _ Hco deposit_rate) as (cache1 & H1 & Hco1).
  destruct (getAR_coherent node _ _ _ Hco1 prepare_rate) as (cache2 & H2 & _).
  eauto.
Qed.

Lemma by_kind_body_prepare AR st occ :
  Molecule.occupiedCapacity (output c) (output_data c) = Ok occ ->
  0 < cap - occ ->
  coherent node (UnclaimedByKind.arCache st) ->
  exists st',
    UnclaimedByKind.body node AR st c = Ok st'
    /\ UnclaimedByKind.unclaimedPrepare st'
       = UnclaimedByKind.unclaimedPrepare st
         + (let r := floor_reward (cap - occ) AR_j AR_i in if 0 <? r then r else 0)
    /\ UnclaimedByKind.unclaimedDeposit st' = UnclaimedByKind.unclaimedDeposit st
    /\ UnclaimedByKind.cntPrepare st' = UnclaimedByKind.cntPrepare st + 1.
Proof.
  intros Hocc Hfree Hco. unfold UnclaimedByKind.body.
  rewrite capacity_read, Hocc. cbn [mbind result_bind JS.bind].
  destruct (Z.leb_spec (cap - occ) 0); [lia|].
  destruct (String.eqb_spec (output_data c) Dao.DEPOSIT_DATA); [contradiction|].
  rewrite deposit_block. cbn [mbind result_bind JS.bind].
  destruct (prepare_rates _ Hco) as (cache1 & cache2 & -> & H2).
  cbn [mbind result_bind JS.bind]. rewrite H2. cbn [mbind result_bind JS.bind].
  rewrite reward_of_floor by eauto using fetchAR_nonneg.
  cbn [mbind result_bind JS.bind].
  eexists; split; [reflexivity|].
  cbn [UnclaimedByKind.unclaimedDeposit UnclaimedByKind.unclaimedPrepare
       UnclaimedByKind.cntPrepare].
  now rewrite add_if_positive_spec.
Qed.

Lemma stats_body_prepare AR st :
  0 < cap - Capacity.occupiedCapacity (output c) (output_data c) ->
  coherent node (UnclaimedStats.arCache st) ->
  exists st',
    UnclaimedStats.body node AR st c = Ok st'
    /\ UnclaimedStats.unclaimedPrepare st'
       = UnclaimedStats.unclaimedPrepare st
         + (let r := floor_reward
                       (cap - Capacity.occupiedCapacity (output c) (output_data c))
                       AR_j AR_i in
            if 0 <? r then r else 0)
    /\ UnclaimedStats.unclaimedDeposit st' = UnclaimedStats.unclaimedDeposit st
    /\ UnclaimedStats.cntPrepare st' = UnclaimedStats.cntPrepare st + 1.
Proof.
  intros Hfree Hco. unfold UnclaimedStats.body.
  rewrite capacity_read. cbn [mbind result_bind JS.bind].
  destruct (String.eqb_spec (output_data c) Dao.DEPOSIT_DATA); [contradiction|].
  rewrite deposit_block. cbn [mbind result_bind JS.bind].
  destruct (prepare_rates _ Hco) as (cache1 & cache2 & -> & H2).
  cbn [mbind result_bind JS.bind]. rewrite H2. cbn [mbind result_bind JS.bind].
  rewrite reward_of_floor by eauto using fetchAR_nonneg.
  cbn [mbind result_bind JS.bind].
  eexists; split; [reflexivity|].
  cbn [UnclaimedStats.unclaimedDeposit UnclaimedStats.unclaimedPrepare
       UnclaimedStats.cntPrepare].
  now rewrite add_if_positive_spec.
Qed.

End PrepareCell.

Lemma bodies_ignore_tip_rate_on_prepare node c AR AR' :
  output_data c <> Dao.DEPOSIT_DATA ->
  (forall st, UnclaimedByKind.body node AR st c = UnclaimedByKind.body node AR' st c)
  /\ (forall st, UnclaimedStats.body node AR st c = UnclaimedStats.body node AR' st c).
Proof.
  intros Hdata. split; intros st.
  - unfold UnclaimedByKind.body.
    destruct (String.eqb_spec (output_data c) Dao.DEPOSIT_DATA); [contradiction|].
    reflexivity.
  - unfold UnclaimedStats.body.
    destruct (String.eqb_spec (output_data c) Dao.DEPOSIT_DATA); [contradiction|].
    reflexivity.
Qed.



(** ** What the scans account for *)

Lemma add_if_positive_ge total r : total <= Dao.add_if_positive total r.
Proof. unfold Dao.add_if_positive. destruct (Z.ltb_spec 0 r); lia. Qed.

Lemma by_kind_body_accounts node AR st c st' :
  UnclaimedByKind.body node AR st c = Ok st' ->
  UnclaimedByKind.daoDeposit st' = UnclaimedByKind.daoDeposit st + capacity_of c
  /\ UnclaimedByKind.unclaimedDeposit st <= UnclaimedByKind.unclaimedDeposit st'
  /\ UnclaimedByKind.unclaimedPrepare st <= UnclaimedByKind.unclaimedPrepare st'
  /\ UnclaimedByKind.cntDeposit st'
     = UnclaimedByKind.cntDeposit st + (if counted_deposit c then 1 else 0)
  /\ UnclaimedByKind.cntPrepare st'
     = UnclaimedByKind.cntPrepare st + (if counted_prepare c then 1 else 0).
Proof.
  unfold UnclaimedByKind.body, counted_deposit, counted_prepare, molecule_free,
    capacity_of, is_deposit.
  destruct (BigInt _) as [cap|]; [|discriminate].
  destruct (Molecule.occupiedCapacity _ _) as [occ|]; [|discriminate].
  cbn [mbind result_bind JS.bind].
  destruct (Z.leb_spec (cap - occ) 0) as [Hfree|Hfree];
    destruct (Z.ltb_spec 0 (cap - occ)); try lia; cbn [andb].
  { intros [= <-]. cbn. lia. }
  destruct (String.eqb (output_data c) Dao.DEPOSIT_DATA); cbn [negb].
  - destruct (Dao.getARByBlockNumberHex _ _ _) as [[AR_i cache]|]; [|discriminate].
    cbn [mbind result_bind JS.bind].
    destruct (Dao.reward_of _ _ _) as [r|]; [|discriminate].
    intros [= <-]. cbn. pose proof (add_if_positive_ge (UnclaimedByKind.unclaimedDeposit st) r).
    lia.
  - destruct (Dao.parsePrepareBlockNumberHex _) as [bn|]; [|discriminate].
    cbn [mbind result_bind JS.bind].
    destruct (Dao.getARByBlockNumberHex _ bn _) as [[AR_i cache1]|]; [|discriminate].
    cbn [mbind result_bind JS.bind].
    destruct (Dao.getARByBlockNumberHex _ _ cache1) as [[AR_j cache2]|]; [|discriminate].
    cbn [mbind result_bind JS.bind].
    destruct (Dao.reward_of _ _ _) as [r|]; [|discriminate].
    intros [= <-]. cbn. pose proof (add_if_positive_ge (UnclaimedByKind.unclaimedPrepare st) r).
    lia.
Qed.

Lemma simple_body_accounts node AR st c st' :
  UnclaimedSimple.body node AR st c = Ok st' ->
  UnclaimedSimple.daoDeposit st' = UnclaimedSimple.daoDeposit st + capacity_of c
  /\ UnclaimedSimple.unclaimed st <= UnclaimedSimple.unclaimed st'.
Proof.
  unfold UnclaimedSimple.body, capacity_of.
  destruct (BigInt _) as [cap|]; [|discriminate].
  destruct (Molecule.occupiedCapacity _ _) as [occ|]; [|discriminate].
  cbn [mbind result_bind JS.bind].
  destruct (match _ !! _ with Some _ => _ | None => _ end) as [cache|];
    [|discriminate].
  cbn [mbind result_bind JS.bind].
  destruct (0 <? cap - occ).
  - destruct (field id _) as [ard|]; [|discriminate]. cbn [mbind result_bind JS.bind].
    destruct (Dao.reward_of _ _ _) as [r|]; [|discriminate]. intros [= <-]. cbn.
    pose proof (add_if_positive_ge (UnclaimedSimple.unclaimed st) r). lia.
  - intros [= <-]. cbn. lia.
Qed.

Lemma count_cons {A} (f : A -> bool) x l :
  Z.of_nat (length (List.filter f (x :: l)))
  = (if f x then 1 else 0) + Z.of_nat (length (List.filter f l)).
Proof. cbn [List.filter]. destruct (f x); cbn [length]; lia. Qed.



(** ** Pagination *)

Lemma for_cells_append {St} (body : St -> live_cell -> result St) l1 l2 st :
  Dao.for_cells body (l1 ++ l2) st
  = (st' ← Dao.for_cells body l1 st; Dao.for_cells body l2 st').
Proof.
  revert st. induction l1 as [|c l1 IH]; intros st; [reflexivity|].
  cbn [app Dao.for_cells]. destruct (body st c) as [st1|];
    cbn [mbind result_bind JS.bind]; [apply IH|reflexivity].
Qed.

Lemma for_cells_collects cells acc :
  Dao.for_cells (fun acc c => Ok (acc ++ [c])) cells acc = Ok (acc ++ cells).
Proof.
  revert acc. induction cells as [|c cells IH]; intros acc; cbn [Dao.for_cells].
  - now rewrite app_nil_r.
  - cbn [mbind result_bind JS.bind]. rewrite IH. now rewrite <- app_assoc.
Qed.

Lemma drained_fold get_cells {St} (body : St -> live_cell -> result St)
    fuel cursor acc l st :
  drained get_cells fuel cursor acc = Some (Ok l) ->
  exists new,
    l = acc ++ new
    /\ Dao.for_await_cells get_cells body fuel cursor st
       = Some (Dao.for_cells body new st).
Proof.
  unfold drained. revert cursor acc st.
  induction fuel as [|fuel IH]; intros cursor acc st; cbn [Dao.for_await_cells];
    [discriminate|].
  destruct (get_cells _) as [res|]; [|discriminate].
  destruct (Dao.objects res) as [[|c cells]|].
  - intros [= <-]. exists []. now rewrite app_nil_r.
  - rewrite for_cells_collects.
    destruct (Dao.cursor_present (Dao.last_cursor res)).
    + intros Hrest.
      destruct (Dao.for_cells body (c :: cells) st) as [st1|e] eqn:Hpage.
      * destruct (IH _ _ st1 Hrest) as (new & -> & Hnew).
        exists ((c :: cells) ++ new). split; [now rewrite app_assoc|].
        rewrite for_cells_append, Hpage. exact Hnew.
      * destruct (IH _ _ st Hrest) as (new & -> & _).
        exists ((c :: cells) ++ new). split; [now rewrite app_assoc|].
        now rewrite for_cells_append, Hpage.
    + intros [= <-]. exists (c :: cells). split; [reflexivity|].
      now destruct (Dao.for_cells body (c :: cells) st).
  - intros [= <-]. exists []. now rewrite app_nil_r.
Qed.

(** X20. When the node serves its pages without failing, each of the three scans
    is one fold of its loop body over the cells of [getDaoLiveCells()], in
    the order in which the pages hand them out: pagination does not show in
    the result, and a scan that fails does so on the first cell whose body
    throws. *)
Theorem scans_fold_over_the_served_cells
    (get_cells : option string -> result Dao.cells_page)
    (fuel : nat) (cells : list live_cell)
    (node : string -> result (option header)) (AR : Z) (heightHex : string) :
  drained get_cells fuel None [] = Some (Ok cells) ->
  UnclaimedSimple.scan node get_cells AR fuel
  = Some (Dao.for_cells (UnclaimedSimple.body node AR) cells
            {| UnclaimedSimple.daoDeposit := 0; UnclaimedSimple.unclaimed := 0;
               UnclaimedSimple.arCache := ∅ |})
  /\ UnclaimedByKind.scan node get_cells AR fuel
     = Some (Dao.for_cells (UnclaimedByKind.body node AR) cells UnclaimedByKind.init)
  /\ UnclaimedStats.scan node get_cells AR fuel heightHex
     = Some (st0 ← UnclaimedStats.init node heightHex;
             Dao.for_cells (UnclaimedStats.body node AR) cells st0).
Proof.
  intros Hcells. split; [|split].
  - unfold UnclaimedSimple.scan.
    destruct (drained_fold get_cells (UnclaimedSimple.body node AR) _ _ _ _
                {| UnclaimedSimple.daoDeposit := 0; UnclaimedSimple.unclaimed := 0;
                   UnclaimedSimple.arCache := ∅ |} Hcells) as (new & -> & ->).
    reflexivity.
  - unfold UnclaimedByKind.scan.
    destruct (drained_fold get_cells (UnclaimedByKind.body node AR) _ _ _ _
                UnclaimedByKind.init Hcells) as (new & -> & ->).
    reflexivity.
  - unfold UnclaimedStats.scan.
    destruct (UnclaimedStats.init node heightHex) as [st0|e];
      cbn [mbind result_bind JS.bind]; [|reflexivity].
    destruct (drained_fold get_cells (UnclaimedStats.body node AR) _ _ _ _
                st0 Hcells) as (new & -> & ->).
    reflexivity.
Qed.

Lemma scans_fold_over_the_served_cells_witness :
  UnclaimedByKind.scan sample_node sample_two_pages 10500000000000000 3
  = Some (Dao.for_cells (UnclaimedByKind.body sample_node 10500000000000000)
            [sample_deposit; sample_prepare] UnclaimedByKind.init).
Proof.
  exact (proj1 (proj2 (scans_fold_over_the_served_cells sample_two_pages 3
                         [sample_deposit; sample_prepare] sample_node
                         10500000000000000 "0x2" eq_refl))).
Defined.

(** ** Holder statistics *)

Lemma is_ok_inv {A} (r : result A) : is_ok r = true -> exists a, r = Ok a.
Proof. destruct r; [eauto|discriminate]. Qed.

Lemma stats_body_sets node AR st c st' :
  UnclaimedStats.body node AR st c = Ok st' ->
  UnclaimedStats.totalAddrSet st
  = UnclaimedStats.depositAddrSet st ∪ UnclaimedStats.prepareAddrSet st ->
  dom (UnclaimedStats.depositAddrMinTs st) = UnclaimedStats.depositAddrSet st ->
  UnclaimedStats.totalAddrSet st'
  = UnclaimedStats.depositAddrSet st' ∪ UnclaimedStats.prepareAddrSet st'
  /\ dom (UnclaimedStats.depositAddrMinTs st') = UnclaimedStats.depositAddrSet st'
  /\ UnclaimedStats.totalAddrSet st'
     = {[UnclaimedStats.lockKey (lock (output c))]} ∪ UnclaimedStats.totalAddrSet st
  /\ UnclaimedStats.cntDeposit st' + UnclaimedStats.cntPrepare st'
     = UnclaimedStats.cntDeposit st + UnclaimedStats.cntPrepare st + 1
  /\ UnclaimedStats.unclaimedDepositCapacity st'
     = UnclaimedStats.unclaimedDepositCapacity st
       + (if is_deposit c then capacity_of c else 0).
Proof.
  unfold UnclaimedStats.body, capacity_of, is_deposit.
  destruct (BigInt _) as [cap|]; [|discriminate].
  cbn [mbind result_bind JS.bind].
  destruct (String.eqb (output_data c) Dao.DEPOSIT_DATA).
  - destruct (UnclaimedStats.getTimestampByBlockNumberHex _ _ _) as [[depTs ts1]|];
      [|discriminate].
    cbn [mbind result_bind JS.bind].
    destruct (Dao.getARByBlockNumberHex _ _ _) as [[AR_i cache]|]; [|discriminate].
    cbn [mbind result_bind JS.bind].
    destruct (Dao.reward_of _ _ _) as [r|]; [|discriminate].
    intros [= <-] Htotal Hdom. cbn.
    split; [set_solver|]. split; [|split; [reflexivity|lia]].
    destruct (UnclaimedStats.depositAddrMinTs st !! _) as [old|] eqn:Hold.
    + assert (UnclaimedStats.lockKey (lock (output c))
              ∈ dom (UnclaimedStats.depositAddrMinTs st))
        by (apply elem_of_dom; eauto).
      destruct (depTs <? old); [rewrite dom_insert_L|]; set_solver.
    + rewrite dom_insert_L. set_solver.
  - destruct (Dao.parsePrepareBlockNumberHex _) as [bn|]; [|discriminate].
    cbn [mbind result_bind JS.bind].
    destruct (Dao.getARByBlockNumberHex _ bn _) as [[AR_i cache1]|]; [|discriminate].
    cbn [mbind result_bind JS.bind].
    destruct (Dao.getARByBlockNumberHex _ _ cache1) as [[AR_j cache2]|]; [|discriminate].
    cbn [mbind result_bind JS.bind].
    destruct (Dao.reward_of _ _ _) as [r|]; [|discriminate].
    intros [= <-] Htotal Hdom. cbn.
    split; [set_solver|]. split; [assumption|]. split; [reflexivity|lia].
Qed.

(** X21. The holder statistics stay consistent through the scan: the set of all
    addresses is the union of the deposit and the prepare-withdraw addresses
    and holds the lock of every cell seen, the addresses with an earliest
    deposit time are exactly the deposit addresses, every cell is counted
    once as a deposit or as a prepare-withdraw cell, and the deposit
    capacity is the sum of the capacities of the deposit cells. *)
Theorem holder_statistics_are_consistent
    (node : string -> result (option header)) (AR : Z) (cells : list live_cell)
    (st st' : UnclaimedStats.stats) :
  Dao.for_cells (UnclaimedStats.body node AR) cells st = Ok st' ->
  UnclaimedStats.totalAddrSet st
  = UnclaimedStats.depositAddrSet st ∪ UnclaimedStats.prepareAddrSet st ->
  dom (UnclaimedStats.depositAddrMinTs st) = UnclaimedStats.depositAddrSet st ->
  UnclaimedStats.totalAddrSet st'
  = UnclaimedStats.depositAddrSet st' ∪ UnclaimedStats.prepareAddrSet st'
  /\ dom (UnclaimedStats.depositAddrMinTs st') = UnclaimedStats.depositAddrSet st'
  /\ UnclaimedStats.totalAddrSet st'
     = list_to_set ((fun c => UnclaimedStats.lockKey (lock (output c))) <$> cells)
       ∪ UnclaimedStats.totalAddrSet st
  /\ UnclaimedStats.cntDeposit st' + UnclaimedStats.cntPrepare st'
     = UnclaimedStats.cntDeposit st + UnclaimedStats.cntPrepare st
       + Z.of_nat (length cells)
  /\ UnclaimedStats.unclaimedDepositCapacity st'
     = UnclaimedStats.unclaimedDepositCapacity st
       + sumZ ((fun c => if is_deposit c then capacity_of c else 0) <$> cells).
Proof.
  revert st. induction cells as [|c cells IH]; intros st; cbn [Dao.for_cells].
  - intros [= <-] Htotal Hdom. cbn. repeat split; try assumption; try lia. set_solver.
  - destruct (UnclaimedStats.body node AR st c) as [st1|] eqn:Hbody; [|discriminate].
    cbn [mbind result_bind JS.bind]. intros Hrest Htotal Hdom.
    destruct (stats_body_sets _ _ _ _ _ Hbody Htotal Hdom)
      as (Htotal1 & Hdom1 & Hkey & Hcnt & Hcap).
    destruct (IH _ Hrest Htotal1 Hdom1) as (Htotal' & Hdom' & Hkeys & Hcnt' & Hcap').
    split; [assumption|]. split; [assumption|].
    split; [rewrite Hkeys, Hkey, fmap_cons; cbn [list_to_set]; set_solver|].
    rewrite fmap_cons. cbn [length sumZ foldr].
    fold (sumZ ((fun c => if is_deposit c then capacity_of c else 0) <$> cells)).
    lia.
Qed.

Lemma holder_statistics_are_consistent_witness :
  exists st',
    Dao.for_cells (UnclaimedStats.body sample_node 10500000000000000)
      [sample_deposit; sample_prepare; sample_full_deposit] sample_stats = Ok st'
    /\ UnclaimedStats.totalAddrSet st'
       = UnclaimedStats.depositAddrSet st' ∪ UnclaimedStats.prepareAddrSet st'
    /\ dom (UnclaimedStats.depositAddrMinTs st') = UnclaimedStats.depositAddrSet st'
    /\ UnclaimedStats.cntDeposit st' + UnclaimedStats.cntPrepare st' = 3.
Proof.
  destruct (is_ok_inv
              (Dao.for_cells (UnclaimedStats.body sample_node 10500000000000000)
                 [sample_deposit; sample_prepare; sample_full_deposit] sample_stats)
              ltac:(vm_compute; reflexivity)) as [st' Hscan].
  exists st'. split; [exact Hscan|].
  destruct (holder_statistics_are_consistent sample_node 10500000000000000 _ _ _ Hscan
              (eq_sym (left_id_L (∅ : gset string) (∪) ∅)) (dom_empty_L (D:=gset string)))
    as (Htotal & Hdom & _ & Hcnt & _).
  split; [exact Htotal|]. split; [exact Hdom|exact Hcnt].
Defined.

(** ** The rate cache does not show *)

Lemma getAR_outcome node bn cache :
  coherent node cache ->
  match Dao.getARByBlockNumberHex node bn cache with
  | Ok (ar, cache') => Dao.fetchAR node bn = Ok ar /\ coherent node cache'
  | Err e => Dao.fetchAR node bn = Err e
  end.
Proof.
  intros Hco.
  destruct (Dao.getARByBlockNumberHex node bn cache) as [[ar cache']|e] eqn:Hget.
  - now apply (getAR_keeps_coherent node bn cache).
  - revert Hget. unfold Dao.getARByBlockNumberHex.
    destruct (cache !! bn); [discriminate|].
    destruct (Dao.fetchAR node bn); [discriminate|]. now intros [= <-].
Qed.

Lemma getAR_any_cache node bn cache1 cache2 :
  coherent node cache1 -> coherent node cache2 ->
  match Dao.getARByBlockNumberHex node bn cache1,
        Dao.getARByBlockNumberHex node bn cache2 with
  | Ok (a1, k1), Ok (a2, k2) => a1 = a2 /\ coherent node k1 /\ coherent node k2
  | Err e1, Err e2 => e1 = e2
  | _, _ => False
  end.
Proof.
  intros Hc1 Hc2.
  pose proof (getAR_outcome node bn cache1 Hc1) as H1.
  pose proof (getAR_outcome node bn cache2 Hc2) as H2.
  destruct (Dao.getARByBlockNumberHex node bn cache1) as [[a1 k1]|e1],
    (Dao.getARByBlockNumberHex node bn cache2) as [[a2 k2]|e2].
  - destruct H1 as [H1 K1], H2 as [H2 K2]. split; [congruence|auto].
  - destruct H1 as [H1 _]. congruence.
  - destruct H2 as [H2 _]. congruence.
  - congruence.
Qed.

Lemma by_kind_body_any_cache node AR st1 st2 c :
  coherent node (UnclaimedByKind.arCache st1) ->
  coherent node (UnclaimedByKind.arCache st2) ->
  by_kind_totals st1 = by_kind_totals st2 ->
  by_kind_outcome (UnclaimedByKind.body node AR st1 c)
  = by_kind_outcome (UnclaimedByKind.body node AR st2 c).
Proof.
  intros Hc1 Hc2 Ht. destruct st1 as [d1 ud1 up1 cd1 cp1 cache1],
    st2 as [d2 ud2 up2 cd2 cp2 cache2].
  cbv [by_kind_totals UnclaimedByKind.daoDeposit UnclaimedByKind.unclaimedDeposit
       UnclaimedByKind.unclaimedPrepare UnclaimedByKind.cntDeposit
       UnclaimedByKind.cntPrepare] in Ht.
  injection Ht as -> -> -> -> ->.
  cbn [UnclaimedByKind.arCache] in Hc1, Hc2.
  unfold UnclaimedByKind.body.
  cbn [UnclaimedByKind.daoDeposit UnclaimedByKind.unclaimedDeposit
       UnclaimedByKind.unclaimedPrepare UnclaimedByKind.cntDeposit
       UnclaimedByKind.cntPrepare UnclaimedByKind.arCache].
  destruct (BigInt _) as [cap|]; [|reflexivity].
  destruct (Molecule.occupiedCapacity _ _) as [occ|]; [|reflexivity].
  cbn [mbind result_bind JS.bind].
  destruct (cap - occ <=? 0); [reflexivity|].
  destruct (String.eqb (output_data c) Dao.DEPOSIT_DATA).
  - pose proof (getAR_any_cache node (block_number c) cache1 cache2 Hc1 Hc2) as H.
    destruct (Dao.getARByBlockNumberHex node (block_number c) cache1) as [[a1 k1]|e1],
      (Dao.getARByBlockNumberHex node (block_number c) cache2) as [[a2 k2]|e2];
      cbn [mbind result_bind JS.bind by_kind_outcome]; try contradiction;
      [|now subst].
    destruct H as (-> & _ & _). now destruct (Dao.reward_of _ _ _).
  - destruct (Dao.parsePrepareBlockNumberHex _) as [bn|]; [|reflexivity].
    cbn [mbind result_bind JS.bind].
    pose proof (getAR_any_cache node bn cache1 cache2 Hc1 Hc2) as H.
    destruct (Dao.getARByBlockNumberHex node bn cache1) as [[a1 k1]|e1],
      (Dao.getARByBlockNumberHex node bn cache2) as [[a2 k2]|e2];
      cbn [mbind result_bind JS.bind by_kind_outcome]; try contradiction;
      [|now subst].
    destruct H as (-> & Hk1 & Hk2).
    pose proof (getAR_any_cache node (block_number c) k1 k2 Hk1 Hk2) as H.
    destruct (Dao.getARByBlockNumberHex node (block_number c) k1) as [[b1 m1]|e1],
      (Dao.getARByBlockNumberHex node (block_number c) k2) as [[b2 m2]|e2];
      cbn [mbind result_bind JS.bind by_kind_outcome]; try contradiction;
      [|now subst].
    destruct H as (-> & _ & _). now destruct (Dao.reward_of _ _ _).
Qed.

(** X23. Memoizing the rates changes nothing but the number of requests: two
    by-kind scans of the same cells that start from the same totals with
    different rate caches, each holding nothing but rates of the node, end
    with the same totals or with the same error. *)
Theorem rate_cache_does_not_show
    (node : string -> result (option header)) (AR : Z) (cells : list live_cell)
    (st1 st2 : UnclaimedByKind.totals) :
  coherent node (UnclaimedByKind.arCache st1) ->
  coherent node (UnclaimedByKind.arCache st2) ->
  by_kind_totals st1 = by_kind_totals st2 ->
  by_kind_outcome (Dao.for_cells (UnclaimedByKind.body node AR) cells st1)
  = by_kind_outcome (Dao.for_cells (UnclaimedByKind.body node AR) cells st2).
Proof.
  revert st1 st2. induction cells as [|c cells IH]; intros st1 st2 Hc1 Hc2 Ht.
  - cbn [Dao.for_cells by_kind_outcome]. now rewrite Ht.
  - cbn [Dao.for_cells].
    pose proof (by_kind_body_any_cache node AR st1 st2 c Hc1 Hc2 Ht) as Hstep.
    destruct (UnclaimedByKind.body node AR st1 c) as [st1'|e1] eqn:Hb1,
      (UnclaimedByKind.body node AR st2 c) as [st2'|e2] eqn:Hb2;
      cbn [by_kind_outcome] in Hstep; try discriminate Hstep;
      cbn [mbind result_bind JS.bind by_kind_outcome].
    + apply IH; [| |congruence].
      * exact (by_kind_body_coherent node AR st1 c st1' Hc1 Hb1).
      * exact (by_kind_body_coherent node AR st2 c st2' Hc2 Hb2).
    + exact Hstep.
Qed.

Lemma rate_cache_does_not_show_witness :
  by_kind_outcome
    (Dao.for_cells (UnclaimedByKind.body sample_node 10500000000000000)
       [sample_deposit; sample_prepare] UnclaimedByKind.init)
  = by_kind_outcome
      (Dao.for_cells (UnclaimedByKind.body sample_node 10500000000000000)
         [sample_deposit; sample_prepare]
         {| UnclaimedByKind.daoDeposit := 0; UnclaimedByKind.unclaimedDeposit := 0;
            UnclaimedByKind.unclaimedPrepare := 0; UnclaimedByKind.cntDeposit := 0;
            UnclaimedByKind.cntPrepare := 0;
            UnclaimedByKind.arCache := {[ "0x1"%string := 10000000000000000 ]} |}).
Proof.
  apply rate_cache_does_not_show; [apply coherent_empty| |reflexivity].
  intros k v Hkv. cbn [UnclaimedByKind.arCache] in Hkv.
  apply lookup_singleton_Some in Hkv as [<- <-]. reflexivity.
Defined.
(** ** The retrying [rpc] helper *)

Section RpcProofs.
Import Rpc.

Context {V : Type}.
Variable exchange : nat -> result V.

Lemma rpc_loop_success i n k lastErr made s v :
  (k < n)%nat ->
  exchange (i + k)%nat = Ok v ->
  (forall j, (j < k)%nat -> is_ok (exchange (i + j)%nat) = false) ->
  rpc_loop exchange i n lastErr made s
  = {| result_of := Returned v; attempts := (made + S k)%nat;
       slept := s + 150 * Z.of_nat k * (2 * Z.of_nat i + Z.of_nat k - 1) |}.
Proof.
  revert i n lastErr made s. induction k as [|k IH]; intros i n lastErr made s Hk Hok Hfail;
    (destruct n as [|n]; [lia|]); cbn [rpc_loop].
  - rewrite Nat.add_0_r in Hok. rewrite Hok. f_equal; lia.
  - specialize (Hfail 0%nat ltac:(lia)) as Hfirst. rewrite Nat.add_0_r in Hfirst.
    destruct (exchange i) as [v0|e]; [discriminate|].
    rewrite (IH (S i) n (Some e) (S made)); try lia.
    + f_equal; [lia|nia].
    + now replace (S i + k)%nat with (i + S k)%nat by lia.
    + intros j Hj. replace (S i + j)%nat with (i + S j)%nat by lia. apply Hfail. lia.
Qed.

Lemma rpc_loop_streamed_success i n k made s v :
  (k < n)%nat ->
  exchange (i + k)%nat = Ok v ->
  (forall j, (j < k)%nat -> is_ok (exchange (i + j)%nat) = false) ->
  rpc_loop_streamed exchange i n made s
  = {| result_of := Returned v; attempts := (made + S k)%nat;
       slept := s + 100 * Z.of_nat k * (2 * Z.of_nat i + Z.of_nat k - 1) |}.
Proof.
  revert i n made s. induction k as [|k IH]; intros i n made s Hk Hok Hfail;
    (destruct n as [|n]; [lia|]); cbn [rpc_loop_streamed].
  - rewrite Nat.add_0_r in Hok. rewrite Hok. f_equal; lia.
  - specialize (Hfail 0%nat ltac:(lia)) as Hfirst. rewrite Nat.add_0_r in Hfirst.
    destruct (exchange i) as [v0|e]; [discriminate|].
    destruct (Nat.eqb_spec n 0); [lia|].
    rewrite (IH (S i) n (S made)); try lia.
    + f_equal; [lia|nia].
    + now replace (S i + k)%nat with (i + S k)%nat by lia.
    + intros j Hj. replace (S i + j)%nat with (i + S j)%nat by lia. apply Hfail. lia.
Qed.

Lemma rpc_loop_failure i n lastErr made s :
  (forall j, (j <= n)%nat -> is_ok (exchange (i + j)%nat) = false) ->
  exists e,
    exchange (i + n)%nat = Err e
    /\ rpc_loop exchange i (S n) lastErr made s
       = {| result_of := Threw e; attempts := (made + S n)%nat;
            slept := s + 150 * (Z.of_nat n + 1) * (2 * Z.of_nat i + Z.of_nat n) |}.
Proof.
  revert i lastErr made s. induction n as [|n IH]; intros i lastErr made s Hfail;
    cbn [rpc_loop].
  - specialize (Hfail 0%nat ltac:(lia)). rewrite Nat.add_0_r in Hfail |- *.
    destruct (exchange i) as [v|e]; [discriminate|].
    exists e. split; [reflexivity|]. cbn [rpc_loop]. f_equal; lia.
  - pose proof (Hfail 0%nat ltac:(lia)) as Hfirst. rewrite Nat.add_0_r in Hfirst.
    destruct (exchange i) as [v|e0]; [discriminate|].
    destruct (IH (S i) (Some e0) (S made) (s + 300 * Z.of_nat i)) as (e & He & Hloop).
    { intros j Hj. replace (S i + j)%nat with (i + S j)%nat by lia. apply Hfail. lia. }
    exists e. split; [now replace (i + S n)%nat with (S i + n)%nat by lia|].
    cbn [rpc_loop] in Hloop. rewrite Hloop. f_equal; [lia|nia].
Qed.

Lemma rpc_loop_streamed_failure i n made s :
  (forall j, (j <= n)%nat -> is_ok (exchange (i + j)%nat) = false) ->
  exists e,
    exchange (i + n)%nat = Err e
    /\ rpc_loop_streamed exchange i (S n) made s
       = {| result_of := Threw e; attempts := (made + S n)%nat;
            slept := s + 100 * Z.of_nat n * (2 * Z.of_nat i + Z.of_nat n - 1) |}.
Proof.
  revert i made s. induction n as [|n IH]; intros i made s Hfail;
    cbn [rpc_loop_streamed].
  - specialize (Hfail 0%nat ltac:(lia)). rewrite Nat.add_0_r in Hfail |- *.
    destruct (exchange i) as [v|e]; [discriminate|].
    exists e. split; [reflexivity|]. cbn [Nat.eqb]. f_equal; lia.
  - pose proof (Hfail 0%nat ltac:(lia)) as Hfirst. rewrite Nat.add_0_r in Hfirst.
    destruct (exchange i) as [v|e0]; [discriminate|].
    cbn [Nat.eqb].
    destruct (IH (S i) (S made) (s + 200 * Z.of_nat i)) as (e & He & Hloop).
    { intros j Hj. replace (S i + j)%nat with (i + S j)%nat by lia. apply Hfail. lia. }
    exists e. split; [now replace (i + S n)%nat with (S i + n)%nat by lia|].
    cbn [rpc_loop_streamed] in Hloop. rewrite Hloop. f_equal; [lia|nia].
Qed.

End RpcProofs.

Lemma rpc_first_success {V : Type}
    (exchange : nat -> result V) (retries : Z) (a : nat) (v : V) :
  (1 <= a)%nat ->
  Z.of_nat a <= retries ->
  exchange a = Ok v ->
  (forall j, (1 <= j < a)%nat -> is_ok (exchange j) = false) ->
  Rpc.rpc exchange retries
  = {| Rpc.result_of := Rpc.Returned v; Rpc.attempts := a;
       Rpc.slept := 150 * Z.of_nat a * (Z.of_nat a - 1) |}
  /\ Rpc.rpc_streamed exchange retries
     = {| Rpc.result_of := Rpc.Returned v; Rpc.attempts := a;
          Rpc.slept := 100 * Z.of_nat a * (Z.of_nat a - 1) |}.
Proof.
  intros Ha Hretries Hok Hfail. unfold Rpc.rpc, Rpc.rpc_streamed.
  destruct a as [|k]; [lia|]. change (S k) with (1 + k)%nat in Hok.
  split.
  - rewrite (rpc_loop_success exchange 1 _ k None 0%nat 0 v); try assumption; try lia.
    + f_equal. nia.
    + intros j Hj. apply Hfail. lia.
  - rewrite (rpc_loop_streamed_success exchange 1 _ k 0%nat 0 v); try assumption;
      try lia.
    + f_equal. nia.
    + intros j Hj. apply Hfail. lia.
Qed.

Lemma rpc_all_fail {V : Type} (exchange : nat -> result V) (retries : Z) :
  (forall j, (1 <= j)%nat -> Z.of_nat j <= retries -> is_ok (exchange j) = false) ->
  1 <= retries ->
  exists e,
    exchange (Z.to_nat retries) = Err e
    /\ Rpc.rpc exchange retries
       = {| Rpc.result_of := Rpc.Threw e; Rpc.attempts := Z.to_nat retries;
            Rpc.slept := 150 * retries * (retries + 1) |}
    /\ Rpc.rpc_streamed exchange retries
       = {| Rpc.result_of := Rpc.Threw e; Rpc.attempts := Z.to_nat retries;
            Rpc.slept := 100 * retries * (retries - 1) |}.
Proof.
  intros Hfail Hretries. unfold Rpc.rpc, Rpc.rpc_streamed.
  destruct (Z.to_nat retries) as [|n] eqn:Hn; [lia|].
  assert (Hall : forall j, (j <= n)%nat -> is_ok (exchange (1 + j)%nat) = false)
    by (intros j Hj; apply Hfail; lia).
  destruct (rpc_loop_failure exchange 1 n None 0%nat 0 Hall) as (e & He & ->).
  destruct (rpc_loop_streamed_failure exchange 1 n 0%nat 0 Hall) as (e' & He' & ->).
  assert (e' = e) as -> by congruence.
  exists e. split; [exact He|]. split; f_equal; nia.
Qed.

(** X24. The retry loop of [rpc]. When attempt [a <= retries] is the first to
    succeed, the call returns its result after exactly [a] attempts, having
    slept [300 * (1 + ... + (a - 1))] milliseconds ([200 * ...] in the
    streamed scan). When all [retries >= 1] attempts fail it throws the
    error of the last one; the scripts that keep [lastErr] sleep after the
    last failure too, the streamed scan throws at once. With
    [retries <= 0] no attempt is made: the former throw [undefined], the
    latter returns [undefined]. *)
Theorem rpc_retries_until_the_first_success {V : Type}
    (exchange : nat -> result V) (retries : Z) :
  (forall (a : nat) (v : V),
     (1 <= a)%nat -> Z.of_nat a <= retries ->
     exchange a = Ok v ->
     (forall j, (1 <= j < a)%nat -> is_ok (exchange j) = false) ->
     Rpc.rpc exchange retries
     = {| Rpc.result_of := Rpc.Returned v; Rpc.attempts := a;
          Rpc.slept := 150 * Z.of_nat a * (Z.of_nat a - 1) |}
     /\ Rpc.rpc_streamed exchange retries
        = {| Rpc.result_of := Rpc.Returned v; Rpc.attempts := a;
             Rpc.slept := 100 * Z.of_nat a * (Z.of_nat a - 1) |})
  /\ ((forall j, (1 <= j)%nat -> Z.of_nat j <= retries -> is_ok (exchange j) = false) ->
      1 <= retries ->
      exists e,
        exchange (Z.to_nat retries) = Err e
        /\ Rpc.rpc exchange retries
           = {| Rpc.result_of := Rpc.Threw e; Rpc.attempts := Z.to_nat retries;
                Rpc.slept := 150 * retries * (retries + 1) |}
        /\ Rpc.rpc_streamed exchange retries
           = {| Rpc.result_of := Rpc.Threw e; Rpc.attempts := Z.to_nat retries;
                Rpc.slept := 100 * retries * (retries - 1) |})
  /\ (retries <= 0 ->
      Rpc.rpc exchange retries
      = {| Rpc.result_of := Rpc.ThrewUndefined; Rpc.attempts := 0; Rpc.slept := 0 |}
      /\ Rpc.rpc_streamed exchange retries
         = {| Rpc.result_of := Rpc.ReturnedUndefined; Rpc.attempts := 0;
              Rpc.slept := 0 |}).
Proof.
  split; [|split].
  - intros a v. apply rpc_first_success.
  - apply rpc_all_fail.
  - intros Hretries. unfold Rpc.rpc, Rpc.rpc_streamed.
    replace (Z.to_nat retries) with 0%nat by lia. split; reflexivity.
Qed.

Lemma rpc_retries_until_the_first_success_witness :
  Rpc.rpc (fun i => if (i <? 3)%nat then Err RpcFailure else Ok 7) 5
  = {| Rpc.result_of := Rpc.Returned 7; Rpc.attempts := 3;
       Rpc.slept := 150 * Z.of_nat 3 * (Z.of_nat 3 - 1) |}
  /\ exists e,
       Rpc.rpc_streamed
         (fun i => if (i =? 5)%nat then Err (Thrown "timeout") else @Err Z RpcFailure) 5
       = {| Rpc.result_of := Rpc.Threw e; Rpc.attempts := Z.to_nat 5;
            Rpc.slept := 100 * 5 * (5 - 1) |}.
Proof.
  split.
  - refine (proj1 (proj1 (rpc_retries_until_the_first_success
                            (fun i => if (i <? 3)%nat then Err RpcFailure else Ok 7) 5)
                     3%nat 7 ltac:(lia) ltac:(lia) eq_refl _)).
    intros j Hj. destruct (Nat.ltb_spec j 3); [reflexivity|lia].
  - destruct (proj1 (proj2 (rpc_retries_until_the_first_success
                              (fun i => if (i =? 5)%nat then Err (Thrown "timeout")
                                        else @Err Z RpcFailure) 5))
                (fun j _ _ => ltac:(cbv beta; now destruct (j =? 5)%nat)) ltac:(lia))
      as (e & _ & _ & Hstreamed).
    exists e. exact Hstreamed.
Defined.
(** ** The worker pool of [mapLimit] *)

Section MapLimitProofs.
Import MapLimit.

Variable len : nat.
Variable fn : nat -> result unit.

Lemma worker_ok_later p q w :
  (next p <= next q)%nat -> worker_ok len p w -> worker_ok len q w.
Proof. unfold worker_ok. destruct w; lia. Qed.

Lemma claim_ok p w : pool_ok len p -> pool_ok len (claim len p w).
Proof.
  intros [Hclaimed Hworkers]. unfold claim.
  destruct (Nat.leb_spec len (next p)) as [Hdone|Hmore]; split; cbn [next claimed workers].
  - rewrite Hclaimed. f_equal. lia.
  - apply Forall_insert.
    + eapply Forall_impl; [exact Hworkers|].
      intros x. apply worker_ok_later. cbn [next]. lia.
    + cbn [worker_ok next]. lia.
  - rewrite Hclaimed.
    replace (Nat.min (next p) len) with (next p) by lia.
    replace (Nat.min (S (next p)) len) with (S (next p)) by lia.
    now rewrite seq_S.
  - apply Forall_insert.
    + eapply Forall_impl; [exact Hworkers|].
      intros x. apply worker_ok_later. cbn [next]. lia.
    + cbn [worker_ok next]. lia.
Qed.

Lemma turn_ok p w : pool_ok len p -> pool_ok len (turn len fn p w).
Proof.
  intros Hp. unfold turn.
  destruct (workers p !! w) as [[|idx| |e]|]; try assumption.
  - now apply claim_ok.
  - destruct (fn idx); [now apply claim_ok|].
    destruct Hp as [Hclaimed Hworkers]. split; [assumption|].
    cbn [workers]. apply Forall_insert; [|exact I].
    eapply Forall_impl; [exact Hworkers|]. intros x. now apply worker_ok_later.
Qed.

Lemma run_ok sched p : pool_ok len p -> pool_ok len (run len fn sched p).
Proof.
  revert p. induction sched as [|w sched IH]; intros p Hp; [assumption|].
  cbn [run fold_left]. apply IH. now apply turn_ok.
Qed.

Lemma turn_workers p w : length (workers (turn len fn p w)) = length (workers p).
Proof.
  unfold turn, claim.
  destruct (workers p !! w) as [[|idx| |e]|]; try reflexivity.
  - destruct (len <=? next p)%nat; cbn [workers]; apply length_insert.
  - destruct (fn idx); [|cbn [workers]; apply length_insert].
    destruct (len <=? next p)%nat; cbn [workers]; apply length_insert.
Qed.

Lemma run_workers_length sched p :
  length (workers (run len fn sched p)) = length (workers p).
Proof.
  revert p. induction sched as [|w sched IH]; intros p; [reflexivity|].
  cbn [run fold_left]. fold (run len fn sched (turn len fn p w)).
  now rewrite IH, turn_workers.
Qed.

Lemma start_ok limit : pool_ok len (start len fn limit).
Proof.
  unfold start. apply run_ok. split; cbn [claimed next workers].
  - reflexivity.
  - apply Forall_forall. intros w Hw. apply elem_of_replicate in Hw as [-> _]. exact I.
Qed.

End MapLimitProofs.

(** X25. Whatever the order in which the workers take their turns, [mapLimit]
    hands the indexes [0, 1, 2, ...] to [fn] in increasing order, each at
    most once and none beyond the end of the array; never more than [limit]
    calls of [fn] are awaited at a time; and once some worker has returned,
    every element of the array has been handed to [fn]. With [limit <= 0]
    there is no worker and nothing is handed out. *)
Theorem mapLimit_hands_out_each_index_once
    (len : nat) (fn : nat -> result unit) (limit : Z) (sched : list nat) :
  let p := MapLimit.run len fn sched (MapLimit.start len fn limit) in
  MapLimit.claimed p = seq 0 (length (MapLimit.claimed p))
  /\ (length (MapLimit.claimed p) <= len)%nat
  /\ NoDup (MapLimit.claimed p)
  /\ (MapLimit.in_flight p <= Z.to_nat limit)%nat
  /\ ((exists w, MapLimit.workers p !! w = Some MapLimit.Finished) ->
      MapLimit.claimed p = seq 0 len)
  /\ (limit <= 0 -> MapLimit.claimed p = []).
Proof.
  intros p.
  destruct (run_ok len fn sched _ (start_ok len fn limit)) as [Hclaimed Hworkers].
  fold p in Hclaimed, Hworkers.
  assert (Hlen : length (MapLimit.claimed p) = Nat.min (MapLimit.next p) len)
    by (rewrite Hclaimed; apply length_seq).
  split; [now rewrite Hlen|]. split; [lia|].
  split; [rewrite Hclaimed; apply NoDup_ListNoDup, seq_NoDup|].
  split; [|split].
  - unfold MapLimit.in_flight. etransitivity; [apply filter_length_le|].
    unfold p, MapLimit.start. cbv zeta.
    now rewrite !run_workers_length; cbn [MapLimit.workers]; rewrite length_replicate.
  - intros [w Hw]. rewrite Hclaimed. f_equal.
    apply (proj1 (Forall_lookup _ _) Hworkers) in Hw. cbn [worker_ok] in Hw. lia.
  - intros Hlimit.
    assert (Hnone : MapLimit.workers p = []).
    { apply length_zero_iff_nil. unfold p, MapLimit.start. cbv zeta.
      rewrite !run_workers_length; cbn [MapLimit.workers]; rewrite length_replicate. lia. }
    assert (Hstart : MapLimit.start len fn limit
                     = {| MapLimit.next := 0; MapLimit.workers := [];
                          MapLimit.claimed := [] |}).
    { unfold MapLimit.start. now replace (Z.to_nat limit) with 0%nat by lia. }
    unfold p. rewrite Hstart. clear.
    induction sched as [|w sched IH]; [reflexivity|].
    cbn [MapLimit.run fold_left]. unfold MapLimit.turn at 2.
    cbn [MapLimit.workers]. rewrite lookup_nil. exact IH.
Qed.

Lemma mapLimit_hands_out_each_index_once_witness :
  MapLimit.claimed
    (MapLimit.run 5 (fun idx => if (idx =? 1)%nat then Err RpcFailure else Ok tt)
       [1; 0; 1; 0; 0; 0]%nat
       (MapLimit.start 5 (fun idx => if (idx =? 1)%nat then Err RpcFailure else Ok tt) 2))
  = seq 0 5.
Proof.
  refine (proj1 (proj2 (proj2 (proj2 (proj2
            (mapLimit_hands_out_each_index_once 5
               (fun idx => if (idx =? 1)%nat then Err RpcFailure else Ok tt) 2
               [1; 0; 1; 0; 0; 0]%nat))))) _).
  exists 0%nat. reflexivity.
Defined.
(** ** What the memoizing resolvers return *)

Lemma filter_insert_gain {A} (f : A -> bool) (l : list A) i x y :
  l !! i = Some x -> f x = false -> f y = true ->
  length (List.filter f (<[i := y]> l)) = S (length (List.filter f l)).
Proof.
  revert i. induction l as [|c l IH]; intros i Hi Hx Hy; [discriminate|].
  destruct i as [|i].
  - injection Hi as ->. cbn [List.filter]. change (<[0%nat := y]> (x :: l)) with (y :: l).
    cbn [List.filter]. now rewrite Hx, Hy.
  - change (<[S i := y]> (c :: l)) with (c :: <[i := y]> l). cbn [List.filter].
    specialize (IH i Hi Hx Hy). destruct (f c); cbn [length]; now rewrite IH.
Qed.

Lemma filter_insert_same {A} (f : A -> bool) (l : list A) i x y :
  l !! i = Some x -> f x = f y ->
  length (List.filter f (<[i := y]> l)) = length (List.filter f l).
Proof.
  revert i. induction l as [|c l IH]; intros i Hi Hxy; [discriminate|].
  destruct i as [|i].
  - injection Hi as ->. change (<[0%nat := y]> (x :: l)) with (y :: l).
    cbn [List.filter]. rewrite Hxy. now destruct (f y).
  - change (<[S i := y]> (c :: l)) with (c :: <[i := y]> l). cbn [List.filter].
    specialize (IH i Hi Hxy). destruct (f c); cbn [length]; now rewrite IH.
Qed.

Section ResolverValues.
Import Resolver.

Context {V : Type}.
Variable fetch : string -> result V.
Variable keys : list string.

Lemma calls_insert_ok (cs : list (call (V:=V))) i k c :
  Forall2 (call_ok fetch) keys cs ->
  keys !! i = Some k -> call_ok fetch k c ->
  Forall2 (call_ok fetch) keys (<[i := c]> cs).
Proof.
  intros Hcalls Hk Hc. rewrite <- (list_insert_id keys i k Hk).
  now apply Forall2_insert.
Qed.

Lemma step_ok w ev : world_ok fetch keys w -> world_ok fetch keys (step fetch w ev).
Proof.
  intros (Hcalls & Hcache & Hreq). destruct ev as [i|i]; cbn [step].
  - destruct (calls w !! i) as [[k| | |]|] eqn:Hi; try (now split).
    destruct (Forall2_lookup_r _ _ _ _ _ Hcalls Hi) as (k0 & Hk0 & Hok).
    cbn [call_ok] in Hok. subst k0.
    destruct (cache w !! k) as [v|] eqn:Hv; split; cbn [calls cache requests].
    + apply (calls_insert_ok _ i k); [assumption..|]. cbn [call_ok]. now apply Hcache.
    + split; [assumption|].
      rewrite (filter_insert_gain entered _ i (Pending k)) by (assumption || reflexivity).
      lia.
    + now apply (calls_insert_ok _ i k).
    + split; [assumption|]. rewrite length_app. cbn [length].
      rewrite (filter_insert_gain entered _ i (Pending k)) by (assumption || reflexivity).
      lia.
  - destruct (calls w !! i) as [[|k| |]|] eqn:Hi; try (now split).
    destruct (Forall2_lookup_r _ _ _ _ _ Hcalls Hi) as (k0 & Hk0 & Hok).
    cbn [call_ok] in Hok. subst k0.
    destruct (fetch k) as [v|e] eqn:Hfetch; split; cbn [calls cache requests].
    + now apply (calls_insert_ok _ i k).
    + split.
      * intros k' v'. rewrite lookup_insert. case_decide; [|apply Hcache].
        intros [= <-]. now subst k'.
      * now rewrite (filter_insert_same entered _ i (InFlight k)).
    + now apply (calls_insert_ok _ i k).
    + split; [assumption|].
      now rewrite (filter_insert_same entered _ i (InFlight k)).
Qed.

Lemma run_world_ok sched w : world_ok fetch keys w -> world_ok fetch keys (run fetch sched w).
Proof.
  revert w. induction sched as [|ev sched IH]; intros w Hw; [assumption|].
  cbn [run fold_left]. apply IH. now apply step_ok.
Qed.

Lemma start_world_ok : world_ok fetch keys (start keys).
Proof.
  split; [|split]; cbn [start calls cache requests].
  - apply Forall2_fmap_r, Forall_Forall2_diag, Forall_forall. now intros k _.
  - intros k v H. now rewrite lookup_empty in H.
  - cbn [length]. lia.
Qed.

End ResolverValues.

(** X26. Whatever the order in which calls enter and fetches settle, a call of a
    memoizing resolver made for key [k] ends with what the remote call gives
    for [k], never with the value of another key: it returns [v] only when
    the fetch of [k] yields [v], and is rejected with [e] only when that
    fetch fails with [e]. The cache holds nothing but such values, and no
    more requests are sent than calls have entered. *)
Theorem resolver_answers_with_the_value_of_the_key {V : Type}
    (fetch : string -> result V) (keys : list string)
    (sched : list Resolver.event) (i : nat) (k : string) :
  keys !! i = Some k ->
  let w := Resolver.run fetch sched (Resolver.start keys) in
  (forall v, Resolver.calls w !! i = Some (Resolver.Returned v) -> fetch k = Ok v)
  /\ (forall e, Resolver.calls w !! i = Some (Resolver.Rejected e) -> fetch k = Err e)
  /\ (forall k' v, Resolver.cache w !! k' = Some v -> fetch k' = Ok v)
  /\ (length (Resolver.requests w) <= length keys)%nat.
Proof.
  intros Hk w.
  destruct (run_world_ok fetch keys sched _ (start_world_ok fetch keys))
    as (Hcalls & Hcache & Hreq).
  fold w in Hcalls, Hcache, Hreq.
  split; [|split; [|split]].
  - intros v Hv.
    destruct (Forall2_lookup_r _ _ _ _ _ Hcalls Hv) as (k0 & Hk0 & Hok).
    now replace k with k0 by congruence.
  - intros e He.
    destruct (Forall2_lookup_r _ _ _ _ _ Hcalls He) as (k0 & Hk0 & Hok).
    now replace k with k0 by congruence.
  - exact Hcache.
  - etransitivity; [exact Hreq|]. etransitivity; [apply filter_length_le|].
    now rewrite <- (Forall2_length _ _ _ Hcalls).
Qed.

Lemma resolver_answers_with_the_value_of_the_key_witness :
  Resolver.calls
    (Resolver.run sample_fetch_one
       [Resolver.Enter 0; Resolver.Enter 1; Resolver.Enter 2; Resolver.Settle 1;
        Resolver.Settle 2; Resolver.Settle 0]
       (Resolver.start ["0xaa"; "0xbb"; "0xaa"]%string))
  = [Resolver.Returned 10; Resolver.Rejected RpcFailure; Resolver.Returned 10]
  /\ sample_fetch_one "0xbb" = Err RpcFailure.
Proof.
  split; [reflexivity|].
  exact (proj1 (proj2 (resolver_answers_with_the_value_of_the_key sample_fetch_one
                         ["0xaa"; "0xbb"; "0xaa"]%string
                         [Resolver.Enter 0; Resolver.Enter 1; Resolver.Enter 2;
                          Resolver.Settle 1; Resolver.Settle 2; Resolver.Settle 0]
                         1 "0xbb" eq_refl))
           RpcFailure eq_refl).
Defined.
(** ** The settlement callbacks *)

Section SettlementProofs.
Import Settlement.

Variable get_transaction : string -> result (option tx_wrap).
Variable get_header_by_number : string -> result (option header).

Lemma input_reward_positive inp c r c' :
  input_reward get_transaction get_header_by_number inp c = Ok (Some r, c') -> 0 < r.
Proof.
  unfold input_reward, mbind, result_bind, JS.bind. intros H.
  repeat match type of H with
         | context [match ?x with _ => _ end] => destruct x eqn:?; try discriminate H
         end.
  injection H as <- _. now apply Z.leb_gt.
Qed.

Lemma for_inputs_bounds l c n s n' s' c' :
  for_inputs get_transaction get_header_by_number l c n s = Ok (n', s', c') ->
  n <= n' /\ n' - n <= s' - s.
Proof.
  revert c n s. induction l as [|inp l IH]; intros c n s; cbn [for_inputs].
  - intros [= <- <- _]. lia.
  - destruct (input_reward _ _ inp c) as [[[r|] c1]|] eqn:Hinp;
      cbn [mbind result_bind JS.bind]; [| |discriminate].
    + apply input_reward_positive in Hinp. intros H. apply IH in H. lia.
    + apply IH.
Qed.

End SettlementProofs.

(** X27. A transaction that the settlement scan counts adds a positive amount:
    every input it prices adds at least one shannon, so the sum handed to
    [totalReward] is at least the number of priced inputs, which is at least
    one. A transaction none of whose inputs yields a positive reward is not
    counted at all. *)
Theorem counted_settlement_adds_a_positive_reward
    (get_transaction : string -> result (option Settlement.tx_wrap))
    (get_header_by_number : string -> result (option header))
    (txHash : string) (c c' : Settlement.caches) (txRewardSum : Z) :
  Settlement.callback get_transaction get_header_by_number txHash c
    = Ok (Some txRewardSum, c') ->
  0 < txRewardSum
  /\ exists tx c1 prepareInputs,
       Settlement.for_inputs get_transaction get_header_by_number
         (default [] (Settlement.inputs tx)) c1 0 0
       = Ok (prepareInputs, txRewardSum, c')
       /\ 1 <= prepareInputs <= txRewardSum.
Proof.
  unfold Settlement.callback.
  destruct (Settlement.getTx_in _ _ _) as [[wrap c1]|]; [|discriminate].
  cbn [mbind result_bind JS.bind].
  destruct (wrap ≫= Settlement.transaction) as [tx|]; [|discriminate].
  destruct (Settlement.for_inputs _ _ _ c1 0 0) as [[[n s] c2]|] eqn:Hloop;
    [|discriminate].
  cbn [mbind result_bind JS.bind].
  destruct (Z.eqb_spec n 0); [discriminate|]. intros [= <- <-].
  pose proof (for_inputs_bounds _ _ _ _ _ _ _ _ _ Hloop) as [Hn Hs].
  split; [lia|]. exists tx, c1, n. split; [exact Hloop|lia].
Qed.

Lemma counted_settlement_adds_a_positive_reward_witness :
  exists c', Settlement.callback sample_get_transaction sample_node "0xw1" no_caches
             = Ok (Some 9490000000, c')
             /\ 0 < 9490000000.
Proof.
  destruct (is_ok_inv (Settlement.callback sample_get_transaction sample_node "0xw1"
                         no_caches) ltac:(vm_compute; reflexivity)) as [[r c'] Hrun].
  assert (Hr : r = Some 9490000000).
  { apply (f_equal (fun x => match x with Ok (r, _) => r | Err _ => None end)) in Hrun.
    vm_compute in Hrun. congruence. }
  subst r. exists c'. split; [exact Hrun|].
  exact (proj1 (counted_settlement_adds_a_positive_reward _ _ _ _ _ _ Hrun)).
Defined.

Section PricedInput.
Import Settlement.

Variable get_transaction : string -> result (option tx_wrap).
Variable get_header_by_number : string -> result (option header).

Lemma getTx_coherent txHash cache v :
  tx_coherent get_transaction cache ->
  get_transaction txHash = Ok v ->
  exists cache',
    getTx get_transaction txHash cache = Ok (v, cache')
    /\ tx_coherent get_transaction cache'.
Proof.
  intros Hco Hget. unfold getTx.
  destruct (cache !! txHash) as [v0|] eqn:Hv.
  - apply Hco in Hv. rewrite Hget in Hv. injection Hv as <-. eauto.
  - rewrite Hget. cbn [mbind result_bind JS.bind]. eexists; split; [reflexivity|].
    intros k v'. rewrite lookup_insert. case_decide; [|apply Hco].
    intros [= <-]. now subst k.
Qed.

Lemma tx_coherent_empty : tx_coherent get_transaction ∅.
Proof. intros k v H. now rewrite lookup_empty in H. Qed.

Lemma getAR_in_coherent bnHex c ar :
  coherent get_header_by_number (arCache c) ->
  Dao.fetchAR get_header_by_number bnHex = Ok ar ->
  exists c',
    getAR_in get_header_by_number bnHex c = Ok (ar, c')
    /\ txCache c' = txCache c
    /\ coherent get_header_by_number (arCache c').
Proof.
  intros Hco Hfetch. unfold getAR_in.
  destruct (getAR_coherent _ _ _ _ Hco Hfetch) as (cache & -> & Hco').
  cbn [mbind result_bind JS.bind]. eexists; split; [reflexivity|]. now split.
Qed.

End PricedInput.



Lemma getTx_keeps_coherent get_transaction txHash cache v cache' :
  tx_coherent get_transaction cache ->
  Settlement.getTx get_transaction txHash cache = Ok (v, cache') ->
  get_transaction txHash = Ok v /\ tx_coherent get_transaction cache'.
Proof.
  intros Hco. unfold Settlement.getTx.
  destruct (cache !! txHash) as [v0|] eqn:Hv.
  - intros [= <- <-]. split; [now apply Hco|assumption].
  - destruct (get_transaction txHash) as [v0|] eqn:Hget; [|discriminate].
    intros [= <- <-]. split; [reflexivity|].
    intros k v'. rewrite lookup_insert. case_decide; [|apply Hco].
    intros [= <-]. now subst k.
Qed.

Lemma isDaoTypeScript_spec t :
  Settlement.isDaoTypeScript t = true <-> dao_type_script t.
Proof.
  unfold Settlement.isDaoTypeScript, dao_type_script. destruct t as [s|].
  - cbn [code_hash hash_type args Settlement.DAO_TYPE].
    change (or_0x "0x") with "0x"%string. split.
    + intros H. apply andb_prop in H as [H Ha]. apply andb_prop in H as [Hc Hh].
      apply String.eqb_eq in Hc, Hh, Ha. exists s. repeat split; try assumption.
      unfold or_0x in Ha. destruct (String.eqb_spec (args s) ""); auto.
    + intros (s' & [= <-] & Hc & Hh & Ha). rewrite Hc, Hh.
      rewrite !String.eqb_refl. cbn [andb].
      destruct Ha as [-> | ->]; reflexivity.
  - split; [discriminate|]. now intros (s & [=] & _).
Qed.

Lemma isDaoTypeScript_false t :
  Settlement.isDaoTypeScript t = false <-> ~ dao_type_script t.
Proof.
  rewrite <- isDaoTypeScript_spec. destruct (Settlement.isDaoTypeScript t).
  - split; [discriminate|]. intros H. now contradiction H.
  - split; [discriminate|reflexivity].
Qed.

Lemma truthy_Some x s :
  Settlement.truthy x = Some s <-> x = Some s /\ s <> ""%string.
Proof.
  unfold Settlement.truthy. destruct x as [y|].
  - destruct (String.eqb_spec y ""); split.
    + discriminate.
    + intros [[= ->] Hs]. contradiction.
    + intros [= <-]. now split.
    + now intros [[= ->] _].
  - split; [discriminate|]. now intros [[=] _].
Qed.

Lemma isPrepareDaoData_spec d :
  Settlement.isPrepareDaoData (Some d) = true
  <-> d <> ""%string /\ d <> "0x0000000000000000"%string.
Proof.
  unfold Settlement.isPrepareDaoData.
  destruct (String.eqb_spec d ""), (String.eqb_spec d "0x0000000000000000");
    cbn [negb andb]; split; try discriminate; try tauto; intros [? ?]; contradiction.
Qed.

Lemma at_index_Some {A} (arr : list A) n x :
  Settlement.at_index arr n = Some x
  <-> exists idx, n = Some idx /\ 0 <= idx /\ arr !! Z.to_nat idx = Some x.
Proof.
  unfold Settlement.at_index. destruct n as [z|].
  - destruct (Z.leb_spec 0 z) as [Hz|Hz]; split.
    + intros Hx. now exists z.
    + now intros (idx & [= <-] & _ & Hx).
    + discriminate.
    + intros (idx & [= <-] & Hidx & _). lia.
  - split; [discriminate|]. now intros (idx & [=] & _).
Qed.

(** X29. The older phase-2 script counts a transaction exactly when the node
    has it with a single input and a single output, that output is not a
    DAO cell, and the cell the input spends - the output named by its
    [previous_output] in the transaction the node answers for it - is a DAO
    cell whose data is neither empty nor the deposit marker; the delta it
    weighs is the capacity of the output less the capacity of that spent
    cell, fee included, not a rate of the chain. *)
Theorem single_input_settlement_weighs_capacities
    (get_transaction : string -> result (option Settlement.tx_wrap))
    (txHash : string) (cache : gmap string (option Settlement.tx_wrap))
    (delta : Z) :
  tx_coherent get_transaction cache ->
  (exists cache',
     Settlement.callback_single get_transaction txHash cache = Ok (Some delta, cache'))
  <-> (exists wrap tx inp out prevOut prevData outCap inCap,
         get_transaction txHash = Ok (Some wrap)
         /\ Settlement.transaction wrap = Some tx
         /\ Settlement.inputs tx = Some [inp]
         /\ Settlement.outputs tx = Some [out]
         /\ ~ dao_type_script (type out)
         /\ spent_cell get_transaction inp prevOut prevData
         /\ dao_type_script (type prevOut)
         /\ prevData <> ""%string
         /\ prevData <> "0x0000000000000000"%string
         /\ BigInt (capacity out) = Ok outCap
         /\ BigInt (capacity prevOut) = Ok inCap
         /\ delta = outCap - inCap).
Proof.
  intros Hco. split.
  - intros [cache' Hrun]. revert Hrun. unfold Settlement.callback_single.
    destruct (Settlement.getTx get_transaction txHash cache)
      as [[wrap cache1]|] eqn:Hget; [|discriminate].
    cbn [mbind result_bind JS.bind].
    destruct (getTx_keeps_coherent _ _ _ _ _ Hco Hget) as [Hnode Hco1].
    destruct wrap as [wrap|]; cbn [mbind option_bind]; [|discriminate].
    destruct (Settlement.transaction wrap) as [tx|] eqn:Htx; [|discriminate].
    destruct (Settlement.outputsContainDaoCell tx) eqn:Hdao; [discriminate|].
    destruct (Settlement.inputs tx) as [ins|] eqn:Hins;
      cbn [default from_option id]; [|discriminate].
    destruct ins as [|inp [|]]; try discriminate.
    destruct (Settlement.outputs tx) as [os|] eqn:Hos;
      cbn [default from_option id]; [|discriminate].
    destruct os as [|out [|]]; try discriminate.
    destruct (Settlement.truthy _) as [prevHash|] eqn:Htruthy; [|discriminate].
    apply truthy_Some in Htruthy as [Hprev Hne].
    destruct (Settlement.previous_output inp) as [op|] eqn:Hop;
      cbn [mbind option_bind] in Hprev; [|discriminate].
    destruct (Settlement.getTx get_transaction prevHash cache1)
      as [[prevWrap cache2]|] eqn:Hget2; [|discriminate].
    cbn [mbind result_bind JS.bind].
    destruct (getTx_keeps_coherent _ _ _ _ _ Hco1 Hget2) as [Hnode2 _].
    destruct prevWrap as [prevWrap|]; cbn [mbind option_bind default from_option id];
      [|discriminate].
    destruct (Settlement.transaction prevWrap) as [ptx|] eqn:Hptx;
      cbn [mbind option_bind default from_option id]; [|discriminate].
    destruct (Settlement.outputs ptx) as [outs|] eqn:Houts;
      cbn [default from_option id]; [|discriminate].
    destruct outs as [|o outs]; [discriminate|].
    destruct (Settlement.at_index (o :: outs) _) as [prevOut|] eqn:Hat;
      [|discriminate].
    cbn [mbind option_bind].
    destruct (Settlement.isDaoTypeScript (type prevOut)) eqn:Hprevdao; [|discriminate].
    cbn [negb].
    destruct (Settlement.at_index (default [] (Settlement.outputs_data ptx)) _)
      as [prevData|] eqn:Hdata; [|discriminate].
    destruct (Settlement.isPrepareDaoData (Some prevData)) eqn:Hprep; [|discriminate].
    cbn [negb].
    destruct (BigInt (capacity out)) as [outCap|] eqn:HoutCap; [|discriminate].
    destruct (BigInt (capacity prevOut)) as [inCap|] eqn:HinCap; [|discriminate].
    cbn [mbind result_bind JS.bind]. intros [= <- _].
    apply at_index_Some in Hat as (idx & Hidx & Hpos & Hat).
    apply at_index_Some in Hdata as (idx' & Hidx' & _ & Hdata).
    rewrite Hidx in Hidx'. injection Hidx' as <-.
    cbn [mbind option_bind] in Hidx.
    apply isPrepareDaoData_spec in Hprep as [Hd1 Hd2].
    exists wrap, tx, inp, out, prevOut, prevData, outCap, inCap.
    repeat split; try assumption; try reflexivity.
    + apply isDaoTypeScript_false.
      unfold Settlement.outputsContainDaoCell in Hdao. rewrite Hos in Hdao.
      cbn [default from_option id existsb] in Hdao.
      now apply orb_false_elim in Hdao as [Hdao _].
    + exists op, prevHash, idx, prevWrap, ptx, (o :: outs). repeat split; assumption.
    + now apply isDaoTypeScript_spec.
  - intros (wrap & tx & inp & out & prevOut & prevData & outCap & inCap
            & Hnode & Htx & Hins & Hos & Hout & Hspent & Hprevdao & Hd1 & Hd2
            & HoutCap & HinCap & ->).
    destruct Hspent as (op & prevHash & idx & prevWrap & ptx & outs
                        & Hop & Hhash & Hne & Hidx & Hpos & Hnode2 & Hptx & Houts
                        & Hat & Hdata).
    destruct (getTx_coherent get_transaction txHash cache _ Hco Hnode)
      as (cache1 & Hget & Hco1).
    destruct (getTx_coherent get_transaction prevHash cache1 _ Hco1 Hnode2)
      as (cache2 & Hget2 & _).
    exists cache2. unfold Settlement.callback_single.
    rewrite Hget. cbn [mbind result_bind JS.bind option_bind]. rewrite Htx.
    unfold Settlement.outputsContainDaoCell. rewrite Hos, Hins.
    cbn [default from_option id existsb].
    apply isDaoTypeScript_false in Hout. rewrite Hout. cbn [orb].
    rewrite Hop. cbn [mbind option_bind]. rewrite Hhash.
    assert (Ht : Settlement.truthy (Some prevHash) = Some prevHash)
      by now apply truthy_Some.
    rewrite Ht, Hget2. cbn [mbind result_bind JS.bind option_bind]. rewrite Hptx.
    cbn [mbind option_bind]. rewrite Houts. cbn [default from_option id].
    destruct outs as [|o outs]; [now rewrite lookup_nil in Hat|].
    rewrite Hidx.
    assert (Hat' : Settlement.at_index (o :: outs) (Some idx) = Some prevOut)
      by (apply at_index_Some; eauto).
    assert (Hdata' : Settlement.at_index (default [] (Settlement.outputs_data ptx))
                       (Some idx) = Some prevData)
      by (apply at_index_Some; eauto).
    rewrite Hat', Hdata'. cbn [mbind option_bind].
    apply isDaoTypeScript_spec in Hprevdao. rewrite Hprevdao. cbn [negb].
    assert (Hprep : Settlement.isPrepareDaoData (Some prevData) = true)
      by now apply isPrepareDaoData_spec.
    rewrite Hprep. cbn [negb]. rewrite HoutCap, HinCap. reflexivity.
Qed.

Lemma single_input_settlement_weighs_capacities_witness :
  exists cache',
    Settlement.callback_single sample_get_transaction "0xw1" ∅
    = Ok (Some (209489999000 - 200000000000), cache').
Proof.
  apply (single_input_settlement_weighs_capacities sample_get_transaction "0xw1" ∅
           (209489999000 - 200000000000) (tx_coherent_empty sample_get_transaction)).
  exists sample_withdraw_tx.
  eexists _, _, _, (output sample_prepare), (output_data sample_prepare), _, _.
  repeat split; try reflexivity; try discriminate.
  - intros (s & Hs & _). discriminate Hs.
  - eexists _, "0xp1"%string, 0, sample_prepare_tx, _, _.
    repeat split; try reflexivity; try discriminate.
  - exists DAO_TYPE. repeat split. now right.
Defined.

(** ** The page loop without the seen-transaction set *)

Lemma collect_step o objs acc :
  Phase2.collect (o :: objs) acc
  = Phase2.collect objs (match listed_input o with
                         | Some h => acc ++ [h]
                         | None => acc
                         end).
Proof.
  cbn [Phase2.collect]. unfold listed_input, Withdraw2.is_string, Withdraw2.nullish.
  destruct (Withdraw2.io_type o), (Withdraw2.ioType o), (Withdraw2.tx_hash o),
    (Withdraw2.txHash o);
    repeat match goal with
           | |- context [String.eqb ?a ?b] => destruct (String.eqb a b); cbn [andb negb]
           end;
    reflexivity.
Qed.

Lemma collect_lists objs acc :
  Phase2.collect objs acc = acc ++ omap listed_input objs.
Proof.
  revert acc. induction objs as [|o objs IH]; intros acc.
  - cbn [Phase2.collect omap]. now rewrite app_nil_r.
  - rewrite collect_step, IH. cbn [omap list_omap].
    destruct (listed_input o); [now rewrite <- app_assoc|reflexivity].
Qed.

Lemma cursor_present_names_next p :
  Withdraw2.cursor_present (Withdraw2.last_cursor p) = true <-> names_next p.
Proof.
  unfold Withdraw2.cursor_present, names_next.
  destruct (Withdraw2.last_cursor p) as [c|].
  - destruct (String.eqb_spec c ""), (String.eqb_spec c "0x"), (String.eqb_spec c "0x0");
      cbn [orb negb]; split; try discriminate;
      try (intros (c' & [= <-] & ? & ? & ?); contradiction);
      try reflexivity.
    intros _. now exists c.
  - split; [discriminate|]. now intros (c & [=] & _).
Qed.

Section Phase2Proofs.
Import Phase2.

Variable CONCURRENCY : Z.
Variable txDelta : string -> result (option Z).
Hypothesis workers : 1 <= CONCURRENCY.

Lemma for_hashes_adds hashes st st' :
  for_hashes txDelta hashes st = Ok st' ->
  handed st' = handed st ++ hashes
  /\ totalReward st' = totalReward st + sumZ (added_delta txDelta <$> hashes)
  /\ withdraw2Txs st' = withdraw2Txs st + sumZ (counted_tx txDelta <$> hashes).
Proof.
  revert st. induction hashes as [|h hashes IH]; intros st; cbn [for_hashes].
  - intros [= <-]. rewrite app_nil_r. split; [reflexivity|]. cbn. lia.
  - rewrite !fmap_cons.
    change (sumZ (added_delta txDelta h :: (added_delta txDelta <$> hashes)))
      with (added_delta txDelta h + sumZ (added_delta txDelta <$> hashes)).
    change (sumZ (counted_tx txDelta h :: (counted_tx txDelta <$> hashes)))
      with (counted_tx txDelta h + sumZ (counted_tx txDelta <$> hashes)).
    unfold added_delta at 1, counted_tx at 1.
    destruct (txDelta h) as [[delta|]|]; cbn [mbind result_bind JS.bind];
      [| |discriminate]; intros Hrest; apply IH in Hrest as (Hh & Ht & Hw);
      cbn [handed totalReward withdraw2Txs] in Hh, Ht, Hw;
      rewrite Hh, Ht, Hw, <- app_assoc; (split; [reflexivity|]).
    + destruct (0 <? delta); lia.
    + lia.
Qed.

Lemma scan_stops rest st :
  match rest with [] => True | q :: _ => ~ has_objects q end ->
  scan CONCURRENCY txDelta rest st = Ok st.
Proof.
  destruct rest as [|q more]; [reflexivity|]. unfold has_objects. intros Hq.
  cbn [scan]. destruct (default [] (Withdraw2.objects q)); [reflexivity|].
  now contradiction Hq.
Qed.

Lemma scan_visits pages rest st st' :
  visits pages rest ->
  scan CONCURRENCY txDelta (pages ++ rest) st = Ok st' ->
  handed st' = handed st ++ omap listed_input (all_objects pages)
  /\ totalReward st'
     = totalReward st
       + sumZ (added_delta txDelta <$> omap listed_input (all_objects pages))
  /\ withdraw2Txs st'
     = withdraw2Txs st
       + sumZ (counted_tx txDelta <$> omap listed_input (all_objects pages)).
Proof.
  revert st. induction pages as [|p ps IH]; intros st (Hobjs & Hnext & Hend).
  - cbn [app all_objects flat_map omap]. rewrite scan_stops.
    + intros [= <-]. rewrite app_nil_r. split; [reflexivity|]. cbn. lia.
    + destruct Hend as [(p & Hp & _)|Hend]; [discriminate Hp|exact Hend].
  - apply Forall_cons in Hobjs as [Hp Hps]. unfold has_objects in Hp.
    cbn [app scan all_objects flat_map]. rewrite omap_app.
    destruct (default [] (Withdraw2.objects p)) as [|o objs] eqn:Hpage;
      [now contradiction Hp|].
    unfold mapLimit. destruct (Z.ltb_spec CONCURRENCY 1); [lia|].
    rewrite collect_lists, app_nil_l.
    destruct (for_hashes txDelta _ st) as [st1|] eqn:Hrun; [|discriminate].
    cbn [mbind result_bind JS.bind].
    apply for_hashes_adds in Hrun as (Hh & Ht & Hw).
    destruct (Withdraw2.cursor_present (Withdraw2.last_cursor p)) eqn:Hcur.
    + apply cursor_present_names_next in Hcur.
      intros Hrest. apply IH in Hrest as (Hh' & Ht' & Hw').
      * fold (all_objects ps).
        rewrite Hh', Ht', Hw', Hh, Ht, Hw, !fmap_app, !sumZ_app, <- app_assoc.
        split; [reflexivity|]. lia.
      * split; [exact Hps|]. split.
        -- intros i q Hq Hi. apply (Hnext (S i) q Hq). cbn [length]. lia.
        -- destruct Hend as [(q & Hq & Hno)|Hend]; [|now right].
           destruct ps as [|p' ps']; [|left; now exists q].
           injection Hq as <-. now contradiction Hno.
    + assert (Hno : ~ names_next p).
      { intros Hn. apply cursor_present_names_next in Hn. congruence. }
      destruct ps as [|p' ps'].
      * intros [= <-]. cbn [flat_map omap]. rewrite !app_nil_r.
        now rewrite Hh, Ht, Hw.
      * contradiction Hno. apply (Hnext 0%nat p eq_refl). cbn [length]. lia.
Qed.

End Phase2Proofs.

Lemma omap_cons_listed (o : Withdraw2.tx_object) objs :
  omap listed_input (o :: objs)
  = match listed_input o with
    | Some h => h :: omap listed_input objs
    | None => omap listed_input objs
    end.
Proof. reflexivity. Qed.

Lemma count_listed h objs :
  length (List.filter (String.eqb h) (omap listed_input objs))
  = length (List.filter (fun o => bool_decide (listed_input o = Some h)) objs).
Proof.
  induction objs as [|o objs IH]; [reflexivity|].
  rewrite omap_cons_listed. cbn [List.filter].
  destruct (listed_input o) as [h'|].
  - cbn [List.filter]. destruct (String.eqb_spec h h') as [->|Hne].
    + rewrite bool_decide_true by reflexivity. cbn [length]. now rewrite IH.
    + rewrite bool_decide_false by congruence. exact IH.
  - rewrite bool_decide_false by discriminate. exact IH.
Qed.

Lemma sum_over_listed (f : string -> Z) objs :
  sumZ (f <$> omap listed_input objs)
  = sumZ ((fun o => from_option f 0 (listed_input o)) <$> objs).
Proof.
  induction objs as [|o objs IH]; [reflexivity|].
  rewrite omap_cons_listed, fmap_cons.
  change (sumZ (from_option f 0 (listed_input o)
                :: ((fun o => from_option f 0 (listed_input o)) <$> objs)))
    with (from_option f 0 (listed_input o)
          + sumZ ((fun o => from_option f 0 (listed_input o)) <$> objs)).
  rewrite <- IH. destruct (listed_input o) as [h|]; cbn [from_option].
  - rewrite fmap_cons. reflexivity.
  - lia.
Qed.

(** X30. The older phase-2 script has no seen-transaction set. With at least
    one worker, on the pages [pages] that the loop visits every hash that
    an object lists as an input is handed to the callback once for each
    object that lists it, in the order of the objects, and [totalReward]
    and [withdraw2Txs] add up over these objects, repetitions included. *)
Theorem phase2_counts_every_listing
    (CONCURRENCY : Z) (txDelta : string -> result (option Z))
    (pages rest : list Withdraw2.tx_page) (st : Phase2.scan_state) :
  1 <= CONCURRENCY ->
  visits pages rest ->
  Phase2.scan CONCURRENCY txDelta (pages ++ rest) Phase2.init = Ok st ->
  Phase2.handed st = omap listed_input (all_objects pages)
  /\ (forall h,
        length (List.filter (String.eqb h) (Phase2.handed st))
        = length (List.filter
                    (fun o => bool_decide (listed_input o = Some h))
                    (all_objects pages)))
  /\ Phase2.totalReward st
     = sumZ ((fun o => from_option (added_delta txDelta) 0 (listed_input o))
             <$> all_objects pages)
  /\ Phase2.withdraw2Txs st
     = sumZ ((fun o => from_option (counted_tx txDelta) 0 (listed_input o))
             <$> all_objects pages).
Proof.
  intros Hworkers Hvisits Hscan.
  apply (scan_visits CONCURRENCY txDelta Hworkers) in Hscan as (Hh & Ht & Hw);
    [|exact Hvisits].
  cbn [Phase2.init Phase2.handed Phase2.totalReward Phase2.withdraw2Txs app] in Hh, Ht, Hw.
  rewrite Hh, Ht, Hw, !Z.add_0_l, !sum_over_listed.
  split; [reflexivity|]. split; [|split; reflexivity].
  intros h. apply count_listed.
Qed.

Lemma phase2_counts_every_listing_witness :
  exists st,
    Phase2.scan 60 sample_txRewardSum sample_pages Phase2.init = Ok st
    /\ Phase2.handed st = ["0xa1"; "0xa1"; "0xb2"; "0xb2"; "0xc3"]%string
    /\ Phase2.totalReward st = 205
    /\ Phase2.withdraw2Txs st = 3.
Proof.
  destruct (is_ok_inv (Phase2.scan 60 sample_txRewardSum sample_pages Phase2.init)
              ltac:(vm_compute; reflexivity)) as [st Hscan].
  exists st. split; [exact Hscan|].
  assert (Hvisits : visits sample_pages []).
  { split; [|split].
    - repeat constructor; discriminate.
    - intros [|[|i]] p Hp Hi; cbn in Hi; try lia.
      injection Hp as <-. exists "0x20"%string. repeat split; discriminate.
    - now right. }
  destruct (phase2_counts_every_listing 60 sample_txRewardSum sample_pages [] st
              ltac:(lia) Hvisits Hscan) as (Hh & _ & Ht & Hw).
  repeat split; assumption.
Defined.
(** ** Average deposit age *)

Lemma age_step_swap tipTs acc x y :
  DepositAge.step tipTs (DepositAge.step tipTs acc x) y
  = DepositAge.step tipTs (DepositAge.step tipTs acc y) x.
Proof.
  destruct acc as [s n]. unfold DepositAge.step.
  destruct (0 <=? tipTs - x) eqn:Hx, (0 <=? tipTs - y) eqn:Hy;
    rewrite ?Hx, ?Hy; try reflexivity.
  f_equal; lia.
Qed.

Lemma age_fold_permutation tipTs (l l' : list (string * Z)) acc :
  l ≡ₚ l' ->
  foldl (fun acc e => DepositAge.step tipTs acc e.2) acc l
  = foldl (fun acc e => DepositAge.step tipTs acc e.2) acc l'.
Proof.
  intros Hperm. revert acc.
  induction Hperm as [|x l l' _ IH|x y l|l l' l'' _ IH1 _ IH2]; intros acc.
  - reflexivity.
  - cbn [foldl]. apply IH.
  - cbn [foldl]. now rewrite age_step_swap.
  - now rewrite IH1.
Qed.

Lemma age_fold_bounds tipTs D (l : list (string * Z)) s n :
  0 <= n -> 0 <= s <= n * D -> 0 <= D ->
  (forall k ts, (k, ts) ∈ l -> tipTs - ts <= D) ->
  let '(s', n') := foldl (fun acc e => DepositAge.step tipTs acc e.2) (s, n) l in
  n <= n' <= n + Z.of_nat (length l) /\ 0 <= s' <= n' * D
  /\ ((forall k ts, (k, ts) ∈ l -> ts <= tipTs) -> n' = n + Z.of_nat (length l))
  /\ ((forall k ts, (k, ts) ∈ l -> tipTs < ts) -> n' = n).
Proof.
  revert s n. induction l as [|[k ts] l IH]; intros s n Hn Hs HD Hmax.
  - cbn [foldl length]. repeat split; lia.
  - cbn [foldl length]. unfold DepositAge.step at 2. cbn [snd].
    assert (Hts : tipTs - ts <= D) by (apply (Hmax k); left).
    assert (Hrest : forall k' ts', (k', ts') ∈ l -> tipTs - ts' <= D)
      by (intros k' ts' Hin; apply (Hmax k'); now right).
    destruct (Z.leb_spec 0 (tipTs - ts)) as [Hage|Hage].
    + specialize (IH (s + (tipTs - ts)) (n + 1) ltac:(lia) ltac:(nia) HD Hrest).
      destruct (foldl _ _ l) as [s' n'].
      destruct IH as (Hn' & Hs' & Hall & Hnone).
      split; [lia|]. split; [lia|]. split.
      * intros Hle. rewrite Hall; [lia|]. intros k' ts' Hin. apply (Hle k'). now right.
      * intros Hlt. specialize (Hlt k ts ltac:(left)). lia.
    + specialize (IH s n Hn Hs HD Hrest).
      destruct (foldl _ _ l) as [s' n'].
      destruct IH as (Hn' & Hs' & Hall & Hnone).
      split; [lia|]. split; [lia|]. split.
      * intros Hle. specialize (Hle k ts ltac:(left)). lia.
      * intros Hlt. apply Hnone. intros k' ts' Hin. apply (Hlt k'). now right.
Qed.

(** X22. The average deposit age at the end of the holder statistics. The order
    in which the Map hands out its entries does not matter; the number of
    addresses behind the average never exceeds the number of deposit
    addresses and equals it when no deposit is younger than the tip; the
    average is not negative and not above the greatest age; and [N/A] is
    printed exactly when every deposit is younger than the tip. *)
Theorem average_deposit_age
    (tipTs : Z) (minTs : gmap string Z) (entries : list (string * Z)) (D : Z) :
  entries ≡ₚ map_to_list minTs ->
  0 <= D ->
  (forall k ts, minTs !! k = Some ts -> tipTs - ts <= D) ->
  let '(sumDeltaMs, addrCount) := DepositAge.totals tipTs entries in
  DepositAge.totals tipTs entries = DepositAge.totals tipTs (map_to_list minTs)
  /\ 0 <= addrCount <= Z.of_nat (size (dom minTs))
  /\ 0 <= sumDeltaMs <= addrCount * D
  /\ ((forall k ts, minTs !! k = Some ts -> ts <= tipTs) ->
      addrCount = Z.of_nat (size (dom minTs)))
  /\ match DepositAge.avgMs tipTs entries with
     | Some avg => 0 < addrCount /\ 0 <= avg <= D
     | None => addrCount = 0
     end.
Proof.
  intros Hperm HD Hmax.
  assert (Hin : forall k ts, (k, ts) ∈ entries -> minTs !! k = Some ts).
  { intros k ts Hk. rewrite Hperm in Hk. now apply elem_of_map_to_list in Hk. }
  assert (Hlen : length entries = size (dom minTs)).
  { rewrite Hperm, size_dom. apply length_map_to_list. }
  pose proof (age_fold_bounds tipTs D entries 0 0 ltac:(lia) ltac:(lia) HD
                ltac:(intros k ts Hk; apply (Hmax k); auto)) as Hb.
  unfold DepositAge.avgMs.
  pose proof (age_fold_permutation tipTs entries (map_to_list minTs) (0, 0) Hperm)
    as Horder.
  fold (DepositAge.totals tipTs entries) in Hb, Horder.
  fold (DepositAge.totals tipTs (map_to_list minTs)) in Horder.
  destruct (DepositAge.totals tipTs entries) as [s n].
  destruct Hb as (Hn & Hs & Hall & _).
  split; [exact Horder|]. split; [lia|]. split; [lia|]. split.
  - intros Hle. rewrite Hall; [lia|]. intros k ts Hk. apply (Hle k). auto.
  - destruct (Z.ltb_spec 0 n) as [Hpos|Hzero]; [|lia].
    split; [assumption|]. rewrite Z.quot_div_nonneg by lia.
    split; [apply Z.div_pos; lia|]. apply Z.div_le_upper_bound; nia.
Qed.

Lemma average_deposit_age_witness :
  let '(sumDeltaMs, addrCount) := DepositAge.totals 1000 (map_to_list sample_minTs) in
  DepositAge.totals 1000 (map_to_list sample_minTs)
  = DepositAge.totals 1000 (map_to_list sample_minTs)
  /\ 0 <= addrCount <= Z.of_nat (size (dom sample_minTs))
  /\ 0 <= sumDeltaMs <= addrCount * 600
  /\ ((forall k ts, sample_minTs !! k = Some ts -> ts <= 1000) ->
      addrCount = Z.of_nat (size (dom sample_minTs)))
  /\ match DepositAge.avgMs 1000 (map_to_list sample_minTs) with
     | Some avg => 0 < addrCount /\ 0 <= avg <= 600
     | None => addrCount = 0
     end.
Proof.
  refine (average_deposit_age 1000 sample_minTs (map_to_list sample_minTs) 600
            (reflexivity _) ltac:(lia) _).
  intros k ts Hk. unfold sample_minTs in Hk.
  apply lookup_insert_Some in Hk as [[_ <-]|[_ Hk]]; [lia|].
  apply lookup_singleton_Some in Hk as [_ <-]. lia.
Defined.
(** ** Matching the responses of a batch by id *)

Lemma in_request_order_ids rs :
  (in_request_order rs).*1 = Z.of_nat <$> seq 0 (length rs).
Proof.
  unfold in_request_order.
  assert (H : forall n, (imap (fun i r => (Z.of_nat (n + i), r)) rs).*1
                        = Z.of_nat <$> seq n (length rs)).
  { induction rs as [|r rs IH]; intros n; [reflexivity|].
    cbn [imap fmap list_fmap length seq fst]. rewrite Nat.add_0_r. f_equal.
    rewrite <- (IH (S n)). f_equal. apply imap_ext. intros i x _. cbn.
    do 2 f_equal. lia. }
  apply (H 0%nat).
Qed.

Lemma in_request_order_elem rs i r :
  (Z.of_nat i, r) ∈ in_request_order rs <-> rs !! i = Some r.
Proof.
  unfold in_request_order. rewrite elem_of_lookup_imap. split.
  - intros (j & y & [= Hj ->] & Hy). apply Nat2Z.inj in Hj. now subst j.
  - intros Hi. exists i, r. now split.
Qed.

Lemma byId_lookup results rs i :
  results ≡ₚ in_request_order rs ->
  BatchById.byId results !! Z.of_nat i = rs !! i.
Proof.
  intros Hperm. unfold BatchById.byId.
  assert (Hnodup : NoDup (reverse results).*1).
  { rewrite reverse_Permutation, Hperm, in_request_order_ids.
    apply (NoDup_fmap_2 Z.of_nat), NoDup_ListNoDup, seq_NoDup. }
  destruct (rs !! i) as [r|] eqn:Hi.
  - apply elem_of_list_to_map; [exact Hnodup|].
    rewrite reverse_Permutation, Hperm. now apply in_request_order_elem.
  - apply not_elem_of_list_to_map. rewrite reverse_Permutation, Hperm.
    rewrite in_request_order_ids. intros Hin.
    apply list_elem_of_fmap in Hin as (j & Hj & Hin). apply Nat2Z.inj in Hj. subst j.
    apply elem_of_seq in Hin. apply lookup_ge_None in Hi. lia.
Qed.

Lemma add_rewards_by_id results rs i n s :
  results ≡ₚ in_request_order rs ->
  BatchById.add_rewards (BatchById.byId results) (Z.of_nat i) n s
  = MinerReward.add_rewards rs i n s.
Proof.
  intros Hperm. revert i s. induction n as [|n IH]; intros i s; [reflexivity|].
  cbn [BatchById.add_rewards MinerReward.add_rewards].
  rewrite (byId_lookup results rs i Hperm).
  replace (Z.of_nat i + 1) with (Z.of_nat (S i)) by lia. apply IH.
Qed.

(** X14. The order in which the node lists the responses of a batch does not
    matter: filed by id, the responses add up to what they add up to in
    request order, a missing capacity or an error adding nothing. *)
Theorem batch_responses_are_matched_by_id
    (results : list (Z * option Z)) (rs : list (option Z)) (sum : Z) :
  results ≡ₚ in_request_order rs ->
  BatchById.add_rewards (BatchById.byId results) 0 (length rs) sum
  = MinerReward.add_rewards rs 0 (length rs) sum
  /\ BatchById.add_rewards (BatchById.byId results) 0 (length rs) sum
     = sum + sumZ (default 0 <$> rs).
Proof.
  intros Hperm.
  pose proof (add_rewards_by_id results rs 0 (length rs) sum Hperm) as Hsame.
  change (Z.of_nat 0) with 0 in Hsame. split; [exact Hsame|].
  rewrite Hsame. apply add_rewards_all.
Qed.

Lemma batch_responses_are_matched_by_id_witness :
  BatchById.add_rewards
    (BatchById.byId [(2, Some 1002); (0, Some 1000); (1, None)]) 0 3 0
  = MinerReward.add_rewards [Some 1000; None; Some 1002] 0 3 0.
Proof.
  refine (proj1 (batch_responses_are_matched_by_id
                   [(2, Some 1002); (0, Some 1000); (1, None)]
                   [Some 1000; None; Some 1002] 0 _)).
  cbn [in_request_order imap Z.of_nat]. 
  etransitivity; [apply Permutation_swap|]. cbn.
  apply perm_skip. apply Permutation_swap.
Defined.
